(** * Loss functions of [lib/model/losses_plaid.py]

    A shallow embedding of the PlaidML loss functions of faceswap, and of the
    landmark worker of [plugins/extract/align/dlib.py], and the properties
    stated about them.

    Conventions of the embedding.
    - A tensor is a nested list, channels last: a batch of images
      [(N, H, W, C)] is a [list (list (list (list R)))].
    - Tensor entries are real numbers: the float32 arithmetic of the backend
      is idealised to exact arithmetic, so rounding, overflow, [inf] and
      [nan] are outside the model.  Where the source divides, the theorems
      carry the hypotheses that keep the divisor away from zero.
    - Python integers are [Z]; lengths and loop counters are [nat].
    - An exception is a value of [Py.exn] carried by [Py.result]; an object
      that a method mutates is returned next to the method's result. *)

From Stdlib Require Import String Bool Reals List ZArith Lia Lra.
From Equations Require Import Equations.
Import ListNotations.
Open Scope R_scope.
Set Warnings "-notation-for-abbreviation".

(** ** Python lists, slices and exceptions *)

Module Py.

Inductive exn : Type :=
| FaceswapError (msg : string)
| IndexError
| UnboundLocalError
| ValueError
| ZeroDivisionError.

Inductive result (A : Type) : Type :=
| Ok (a : A)
| Raise (e : exn).
Arguments Ok {A} a.
Arguments Raise {A} e.

Definition bind {A B} (c : result A) (k : A -> result B) : result B :=
  match c with
  | Ok a => k a
  | Raise e => Raise e
  end.

(** [zip]-and-apply on two lists; stops with the shorter one. *)
Fixpoint map2 {A B C} (f : A -> B -> C) (l : list A) (m : list B) : list C :=
  match l, m with
  | a :: l', b :: m' => f a b :: map2 f l' m'
  | _, _ => []
  end.

(** Bound of a slice, as [slice.indices] computes it for step 1. *)
Definition norm_idx (n i : Z) : Z :=
  if (i <? 0)%Z then Z.max 0 (i + n) else Z.min i n.

(** [l[start:stop]]; [None] is an omitted bound. *)
Definition slice {A} (start stop : option Z) (l : list A) : list A :=
  let n := Z.of_nat (length l) in
  let lo := match start with None => 0%Z | Some i => norm_idx n i end in
  let hi := match stop with None => n | Some j => norm_idx n j end in
  firstn (Z.to_nat (hi - lo)) (skipn (Z.to_nat lo) l).

(** [l[i]] with Python's negative indices. *)
Definition index {A} (i : Z) (l : list A) : result A :=
  let n := Z.of_nat (length l) in
  let j := if (i <? 0)%Z then (i + n)%Z else i in
  if ((0 <=? j)%Z && (j <? n)%Z)%bool
  then match nth_error l (Z.to_nat j) with
       | Some a => Ok a
       | None => Raise IndexError
       end
  else Raise IndexError.

(** All elements of a list of results, or the first exception. *)
Fixpoint sequence {A} (l : list (result A)) : result (list A) :=
  match l with
  | [] => Ok []
  | c :: l' => bind c (fun a => bind (sequence l') (fun r => Ok (a :: r)))
  end.

End Py.

Notation "x <- c ;; k" := (Py.bind c (fun x => k))
  (at level 61, c at next level, right associativity).

(** ** The tensor backend ([keras.backend] on PlaidML) *)

Module K.

Notation T1 := (list R).
Notation T2 := (list (list R)).
Notation T3 := (list (list (list R))).
Notation T4 := (list (list (list (list R)))).

Definition big_sum {A} (l : list A) (f : A -> R) : R :=
  fold_right (fun a acc => f a + acc) 0 l.

Definition sum (l : list R) : R := big_sum l (fun x => x).

(** Mean of all the entries of a vector. *)
Definition mean1 (l : list R) : R := sum l / INR (length l).

Definition list_max (l : list R) : R :=
  match l with
  | [] => 0
  | x :: r => fold_left Rmax r x
  end.

(** Static shape of a rank 4 tensor. *)
Definition int_shape (t : T4) : list nat :=
  [length t; length (hd [] t); length (hd [] (hd [] t));
   length (hd [] (hd [] (hd [] t)))].

(** Elementwise operations. *)
Definition map_2 (f : R -> R) (t : T2) : T2 := map (map f) t.
Definition map_3 (f : R -> R) (t : T3) : T3 := map (map_2 f) t.
Definition map_4 (f : R -> R) (t : T4) : T4 := map (map_3 f) t.

Definition zip_1 (f : R -> R -> R) : T1 -> T1 -> T1 := Py.map2 f.
Definition zip_2 (f : R -> R -> R) : T2 -> T2 -> T2 := Py.map2 (zip_1 f).
Definition zip_3 (f : R -> R -> R) : T3 -> T3 -> T3 := Py.map2 (zip_2 f).
Definition zip_4 (f : R -> R -> R) : T4 -> T4 -> T4 := Py.map2 (zip_3 f).

Definition add4 := zip_4 Rplus.
Definition sub4 := zip_4 Rminus.
Definition mul4 := zip_4 Rmult.
Definition div4 := zip_4 Rdiv.
Definition add3 := zip_3 Rplus.

Definition square (t : T4) : T4 := map_4 Rsqr t.
Definition abs (t : T4) : T4 := map_4 Rabs t.

Definition relu1 (x : R) : R := Rmax x 0.

(** [x ** y].  An integral exponent is a repeated product (or its inverse);
    otherwise the power of a positive base is [exp (y * ln x)], the power of
    zero is zero, and the power of a negative base, which the backend
    answers with [nan], is left at zero. *)
Definition pow1 (x y : R) : R :=
  if Req_dec_T y (IZR (Int_part y)) then powerRZ x (Int_part y)
  else if Rlt_dec 0 x then Rpower x y
  else 0.

(** [K.mean(t, axis=-1)] on rank 4. *)
Definition mean_last (t : T4) : T3 := map (map (map mean1)) t.

(** Entry [(i, j, c)] of one image; zero outside the image. *)
Definition px (im : T3) (i j c : nat) : R :=
  nth c (nth j (nth i im []) []) 0.

(** Channel [c] of every pixel of one image, row after row. *)
Definition channel (im : T3) (c : nat) : list R :=
  map (fun p => nth c p 0) (concat im).

Definition channels_of (im : T3) : nat := length (hd [] (hd [] im)).

(** [K.mean(t, axis=(-3, -2))] on rank 4: one value per sample and channel. *)
Definition mean_hw (t : T4) : T2 :=
  map (fun im => map (fun c => mean1 (channel im c)) (seq 0 (channels_of im))) t.

(** [K.max(t, axis=(1, 2), keepdims=True)] on rank 4. *)
Definition max_hw_keepdims (t : T4) : T4 :=
  map (fun im =>
         [[map (fun c => list_max (channel im c)) (seq 0 (channels_of im))]]) t.

(** [K.mean(t)]: the mean of all entries, here of a rank 2 tensor. *)
Definition mean_all2 (t : T2) : R := mean1 (concat t).

(** [K.mean(t, axis=[1, 2])] on rank 3. *)
Definition mean_12 (t : T3) : T1 := map (fun im => mean1 (concat im)) t.

(** Entry [(a, b, c, 0)] of a depthwise kernel [(kh, kw, C, 1)]. *)
Definition kel (ker : T4) (a b c : nat) : R :=
  nth 0 (nth c (nth b (nth a ker []) []) []) 0.

Definition conv_at (ker : T4) (im : T3) (i j c : nat) : R :=
  big_sum (seq 0 (length ker)) (fun a =>
    big_sum (seq 0 (length (hd [] ker))) (fun b =>
      px im (i + a) (j + b) c * kel ker a b c)).

(** [K.depthwise_conv2d(image, kernel, strides=(1, 1), padding="valid")]:
    every channel is correlated with its own kernel plane, and only the
    windows that lie inside the image are kept. *)
Definition depthwise_conv2d (image : T4) (kernel : T4) : T4 :=
  map (fun im =>
         map (fun i =>
                map (fun j =>
                       map (fun c => conv_at kernel im i j c)
                           (seq 0 (channels_of im)))
                    (seq 0 (length (hd [] im) + 1 - length (hd [] kernel))))
             (seq 0 (length im + 1 - length kernel))) image.

(** [K.pool2d(img, (2, 2), strides=(2, 2), padding="valid", pool_mode="avg")]. *)
Definition pool2d_avg (image : T4) : T4 :=
  map (fun im =>
         map (fun i =>
                map (fun j =>
                       map (fun c =>
                              (px im (2 * i) (2 * j) c
                               + px im (2 * i) (2 * j + 1) c
                               + px im (2 * i + 1) (2 * j) c
                               + px im (2 * i + 1) (2 * j + 1) c) / 4)
                           (seq 0 (channels_of im)))
                    (seq 0 (Nat.div (length (hd [] im)) 2)))
             (seq 0 (Nat.div (length im) 2))) image.

(** [K.softmax] of one row. *)
Definition softmax (l : list R) : list R :=
  let e := map exp l in
  map (fun x => x / sum e) e.

(** Row-major regrouping of a flat list into [rows] rows of [cols]. *)
Definition chunk {A} (rows cols : nat) (l : list A) : list (list A) :=
  map (fun i => firstn cols (skipn (i * cols) l)) (seq 0 rows).

(** [K.reshape(t, shape)] on rank 4.  The backend reshapes without changing
    the number of elements; another target shape is rejected. *)
Definition reshape (t : T4) (shape : list nat) : Py.result T4 :=
  match shape with
  | [n; h; w; c] =>
    let flat := concat (concat (concat t)) in
    if Nat.eqb (length flat) (n * h * w * c)
    then Py.Ok (chunk n h (chunk (n * h) w (chunk (n * h * w) c flat)))
    else Py.Raise Py.ValueError
  | _ => Py.Raise Py.ValueError
  end.

(** [K.tile(kernel, (1, 1, channels, 1))]. *)
Definition tile_axis2 (t : T4) (reps : nat) : T4 :=
  map (map (fun chans => concat (repeat chans reps))) t.

(** [K.tile(t, (1, 1, 1, reps))]. *)
Definition tile_axis3 (t : T4) (reps : nat) : T4 :=
  map (map (map (fun v => concat (repeat v reps)))) t.

(** [K.expand_dims(t, axis=-1)]. *)
Definition expand_dims2 (t : T2) : T3 := map (map (fun x => [x])) t.
Definition expand_dims3 (t : T3) : T4 := map (map (map (fun x => [x]))) t.

(** [K.concatenate(ts, axis=...)]. *)
Definition concatenate_with {A} (app_ : A -> A -> A) (nil_ : A) (ts : list A) : A :=
  match ts with
  | [] => nil_
  | t :: rest => fold_left app_ rest t
  end.

Definition concatenate_axis1 (ts : list T4) : T4 :=
  concatenate_with (Py.map2 (@app _)) [] ts.

Definition concatenate_axis2 (ts : list T4) : T4 :=
  concatenate_with (Py.map2 (Py.map2 (@app _))) [] ts.

Definition concatenate_last3 (ts : list T3) : T3 :=
  concatenate_with (Py.map2 (Py.map2 (@app _))) [] ts.

(** Slices: [a:b], [a:], [:b] and [:]. *)
Definition sl (a b : Z) : option Z * option Z := (Some a, Some b).
Definition from (a : Z) : option Z * option Z := (Some a, None).
Definition upto (b : Z) : option Z * option Z := (None, Some b).
Definition all : option Z * option Z := (None, None).

(** [img[:, rows, cols, :]]. *)
Definition slice_hw (rows cols : option Z * option Z) (img : T4) : T4 :=
  map (fun im => map (Py.slice (fst cols) (snd cols))
                     (Py.slice (fst rows) (snd rows) im)) img.

(** [img[..., a:b]]. *)
Definition slice_last (a b : option Z) (img : T4) : T4 :=
  map (map (map (Py.slice a b))) img.

(** [img[..., i]]. *)
Definition index_last (i : Z) (img : T4) : Py.result T3 :=
  Py.sequence (map (fun im =>
    Py.sequence (map (fun row =>
      Py.sequence (map (Py.index i) row)) im)) img).

End K.

(** Modelled from the spec: [lib.plaidml_utils.pad] is not part of the
    sources at hand.  Its one use is
    [pad(img, [[0, 0], [0, 1], [0, 1], [0, 0]], mode="REFLECT")], which the
    specification describes as a reflect-pad by one pixel on the trailing edge
    of each spatial dimension: the entry before the last one is repeated
    after the last one. *)
Definition reflect_trailing {A} (l : list A) : list A :=
  l ++ Py.slice (Some (-2)%Z) (Some (-1)%Z) l.

Definition pad_reflect_trailing (img : K.T4) : K.T4 :=
  map (fun im => reflect_trailing (map reflect_trailing im)) img.

(** ** [class DSSIMObjective] *)

Module DSSIMObjective.

Record t : Type := mk {
  _filter_size : Z;
  _filter_sigma : R;
  _kernel : K.T4;
  _c1 : R;
  _c2 : R
}.

Definition set_filter_size (self : t) (v : Z) : t :=
  mk v (_filter_sigma self) (_kernel self) (_c1 self) (_c2 self).

Definition set_kernel (self : t) (v : K.T4) : t :=
  mk (_filter_size self) (_filter_sigma self) v (_c1 self) (_c2 self).

Definition _get_kernel (self : t) : K.T4 :=
  let size := Z.to_nat (_filter_size self) in
  let coords := map INR (seq 0 size) in
  let coords := map (fun x => x - (IZR (_filter_size self) - 1) / 2) coords in
  let kernel := map Rsqr coords in
  let kernel := map (fun x => x * (-0.5 / Rsqr (_filter_sigma self))) kernel in
  let kernel := map (fun col => map (fun row => row + col) kernel) kernel in
  let kernel := concat kernel in
  let kernel := K.softmax kernel in
  map (map (fun x => [[x]])) (K.chunk size size kernel).

Definition __init__ (k_1 k_2 : R) (filter_size : Z) (filter_sigma max_value : R) : t :=
  let self := mk filter_size filter_sigma [] 0 0 in
  let self := set_kernel self (_get_kernel self) in
  let compensation := 1 in
  mk (_filter_size self) (_filter_sigma self) (_kernel self)
     (Rsqr (k_1 * max_value))
     (Rsqr (k_2 * max_value) * compensation).

(** The constructor with its default arguments. *)
Definition default : t := __init__ 0.01 0.03 11 1.5 1.

Definition _depthwise_conv2d (image kernel : K.T4) : K.T4 :=
  K.depthwise_conv2d image kernel.

Definition _get_ssim (self : t) (y_true y_pred : K.T4) : K.T2 * K.T2 :=
  let channels := last (K.int_shape y_pred) 0%nat in
  let kernel := K.tile_axis2 (_kernel self) channels in
  let mean_true := _depthwise_conv2d y_true kernel in
  let mean_pred := _depthwise_conv2d y_pred kernel in
  let num_lum := K.map_4 (fun x => x * 2) (K.mul4 mean_true mean_pred) in
  let den_lum := K.add4 (K.square mean_true) (K.square mean_pred) in
  let luminance := K.div4 (K.map_4 (fun x => x + _c1 self) num_lum)
                          (K.map_4 (fun x => x + _c1 self) den_lum) in
  let num_con :=
    K.map_4 (fun x => x * 2) (_depthwise_conv2d (K.mul4 y_true y_pred) kernel) in
  let den_con :=
    _depthwise_conv2d (K.add4 (K.square y_true) (K.square y_pred)) kernel in
  let contrast :=
    K.div4 (K.map_4 (fun x => x + _c2 self) (K.sub4 num_con num_lum))
           (K.map_4 (fun x => x + _c2 self) (K.sub4 den_con den_lum)) in
  let ssim := K.mean_hw (K.mul4 luminance contrast) in
  let contrast := K.mean_hw contrast in
  (ssim, contrast).

Definition __call__ (self : t) (y_true y_pred : K.T4) : R :=
  let ssim := fst (_get_ssim self y_true y_pred) in
  let retval := K.map_2 (fun s => (1 - s) / 2) ssim in
  K.mean_all2 retval.

End DSSIMObjective.

(** ** [class MSSIMLoss(DSSIMObjective)] *)

Module MSSIMLoss.

Record t : Type := mk {
  super : DSSIMObjective.t;
  _power_factors : list R
}.

Definition __init__ (k_1 k_2 : R) (filter_size : Z) (filter_sigma max_value : R)
    (power_factors : list R) : t :=
  mk (DSSIMObjective.__init__ k_1 k_2 filter_size filter_sigma max_value)
     power_factors.

Definition default_power_factors : list R :=
  [0.0448; 0.2856; 0.3001; 0.2363; 0.1333].

Equations? _get_smallest_size (size idx : Z) : Z by wf (Z.to_nat idx) lt :=
  _get_smallest_size size idx with Z_gt_dec idx 0 := {
    | left _ => _get_smallest_size (size / 2)%Z (idx - 1)%Z;
    | right _ => size }.
Proof. lia. Qed.

(** The two images travel as a pair: the list [images] of the source always
    holds [y_true] and [y_pred], in this order. *)
Definition _shrink_images (images : K.T4 * K.T4) : K.T4 * K.T4 :=
  let images :=
    if existsb (fun x => negb (Nat.eqb (Nat.modulo x 2) 0))
               (Py.slice (Some 1%Z) (Some 2%Z) (K.int_shape (snd images)))
    then (pad_reflect_trailing (fst images), pad_reflect_trailing (snd images))
    else images in
  (K.pool2d_avg (fst images), K.pool2d_avg (snd images)).

(** The part of [_get_ms_ssim] that may rewrite the object. *)
Definition shrink_filter (self : t) (im_size : Z) : t :=
  let recursions := Z.of_nat (length (_power_factors self)) in
  let smallest_scale := _get_smallest_size im_size (recursions - 1) in
  if (smallest_scale <? DSSIMObjective._filter_size (super self))%Z
  then
    let base := DSSIMObjective.set_filter_size (super self) smallest_scale in
    let base := DSSIMObjective.set_kernel base (DSSIMObjective._get_kernel base) in
    mk base (_power_factors self)
  else self.

(** Loop state of [_get_ms_ssim]: the images, the list [contrasts] and the
    value last bound to [ssim], if any. *)
Definition scale_step (self : t) (recursions : nat)
    (st : (K.T4 * K.T4) * list K.T3 * option K.T2) (idx : nat)
    : (K.T4 * K.T4) * list K.T3 * option K.T2 :=
  let '(images, contrasts, _) := st in
  let images := if Nat.ltb 0 idx then _shrink_images images else images in
  let '(ssim, contrast) :=
    DSSIMObjective._get_ssim (super self) (fst images) (snd images) in
  let contrasts :=
    if (Z.of_nat idx <? Z.of_nat recursions - 1)%Z
    then contrasts ++ [K.map_3 K.relu1 (K.expand_dims2 contrast)]
    else contrasts in
  (images, contrasts, Some ssim).

Definition _get_ms_ssim (self : t) (y_true y_pred : K.T4) : t * Py.result K.T2 :=
  let im_size := Z.of_nat (nth 1 (K.int_shape y_pred) 0%nat) in
  let recursions := length (_power_factors self) in
  let self := shrink_filter self im_size in
  let images := (y_true, y_pred) in
  let contrasts := [] in
  let '(_, contrasts, ssim) :=
    fold_left (scale_step self recursions) (seq 0 recursions)
              (images, contrasts, None) in
  match ssim with
  | None => (self, Py.Raise Py.UnboundLocalError)
  | Some ssim =>
    let contrasts := contrasts ++ [K.map_3 K.relu1 (K.expand_dims2 ssim)] in
    let mcs_and_ssim := K.concatenate_last3 contrasts in
    let ms_ssim :=
      map (map (fun v => Py.map2 K.pow1 v (_power_factors self))) mcs_and_ssim in
    let out := map (map (fun v => nth 0 v 0)) ms_ssim in
    let out :=
      fold_left (fun out idx =>
                   K.zip_2 Rmult out (map (map (fun v => nth idx v 0)) ms_ssim))
                (seq 1 (recursions - 1)) out in
    (self, Py.Ok out)
  end.

Definition __call__ (self : t) (y_true y_pred : K.T4) : t * Py.result R :=
  let '(self, ms_ssim) := _get_ms_ssim self y_true y_pred in
  (self, ms_ssim <- ms_ssim ;;
         let retval := K.map_2 (fun s => 1 - s) ms_ssim in
         Py.Ok (K.mean_all2 retval)).

End MSSIMLoss.

(** ** [class GeneralizedLoss] *)

Module GeneralizedLoss.

Record t : Type := mk { alpha : R; beta : R }.

Definition __init__ (alpha beta : R) : t := mk alpha beta.

Definition default : t := __init__ 1 (1 / 255).

(** The tensor that the call builds.  Its entries are those of the source
    where no divisor is zero, that is for [alpha] other than 0 and 2 and
    [beta] other than 0; at the other parameters the source yields [inf] or
    [nan], or raises as [call] says, and only the shape is meaningful. *)
Definition __call__ (self : t) (y_true y_pred : K.T4) : K.T3 :=
  let diff := K.sub4 y_pred y_true in
  let second :=
    K.map_4 (fun x => x - 1)
      (K.map_4 (fun x => K.pow1 x (alpha self / 2))
         (K.map_4 (fun x => x + 1)
            (K.map_4 (fun x => x / Rabs (2 - alpha self))
               (K.map_4 (fun x => K.pow1 x 2)
                  (K.map_4 (fun x => x / beta self) diff))))) in
  let loss := K.map_4 (fun x => (Rabs (2 - alpha self) / alpha self) * x) second in
  let loss := K.map_3 (fun x => x * beta self) (K.mean_last loss) in
  loss.

(** What [K.abs] returns for a Python number.  The backend is not part of
    the sources, so both answers are kept: the number itself, or a tensor
    that holds it. *)
Inductive abs_of_number : Type :=
| AbsNumber
| AbsTensor.

(** [K.abs(2. - self.alpha)/self.alpha], the one division of the call whose
    dividend may be a Python number.  Python raises [ZeroDivisionError] when
    a number is divided by zero; a division with a tensor operand is an
    operation of the backend and raises nothing. *)
Definition factor (backend : abs_of_number) (self : t) : Py.result R :=
  match backend with
  | AbsNumber =>
    if Req_dec_T (alpha self) 0
    then Py.Raise Py.ZeroDivisionError
    else Py.Ok (Rabs (2 - alpha self) / alpha self)
  | AbsTensor => Py.Ok (Rabs (2 - alpha self) / alpha self)
  end.

(** The call with its exceptions.  [diff/self.beta] and the division by
    [K.abs(2. - self.alpha)] have a tensor as dividend, and [self.alpha / 2.]
    divides by a constant: [factor] is the only step that can raise.  There
    is no check of the parameters, in [__init__] or here. *)
Definition call (backend : abs_of_number) (self : t) (y_true y_pred : K.T4)
    : Py.result K.T3 :=
  _ <- factor backend self ;;
  Py.Ok (__call__ self y_true y_pred).

End GeneralizedLoss.

(** ** [class LInfNorm] *)

Module LInfNorm.

Definition __call__ (y_true y_pred : K.T4) : K.T3 :=
  let diff := K.abs (K.sub4 y_true y_pred) in
  let max_loss := K.max_hw_keepdims diff in
  let loss := K.mean_last max_loss in
  loss.

End LInfNorm.

(** ** [class GradientLoss] *)

Module GradientLoss.

Import K.

Record t : Type := mk { generalized_loss : GeneralizedLoss.t }.

Definition __init__ : t := mk (GeneralizedLoss.__init__ 1.9999 (1 / 255)).

Definition _diff_x (img : T4) : T4 :=
  let x_left := sub4 (slice_hw all (sl 1 2) img) (slice_hw all (sl 0 1) img) in
  let x_inner := sub4 (slice_hw all (from 2) img) (slice_hw all (upto (-2)) img) in
  let x_right := sub4 (slice_hw all (from (-1)) img) (slice_hw all (sl (-2) (-1)) img) in
  let x_out := concatenate_axis2 [x_left; x_inner; x_right] in
  map_4 (fun x => x * 0.5) x_out.

Definition _diff_y (img : T4) : T4 :=
  let y_top := sub4 (slice_hw (sl 1 2) all img) (slice_hw (sl 0 1) all img) in
  let y_inner := sub4 (slice_hw (from 2) all img) (slice_hw (upto (-2)) all img) in
  let y_bot := sub4 (slice_hw (from (-1)) all img) (slice_hw (sl (-2) (-1)) all img) in
  let y_out := concatenate_axis1 [y_top; y_inner; y_bot] in
  map_4 (fun x => x * 0.5) y_out.

Definition _diff_xx (img : T4) : T4 :=
  let x_left := add4 (slice_hw all (sl 1 2) img) (slice_hw all (sl 0 1) img) in
  let x_inner := add4 (slice_hw all (from 2) img) (slice_hw all (upto (-2)) img) in
  let x_right := add4 (slice_hw all (from (-1)) img) (slice_hw all (sl (-2) (-1)) img) in
  let x_out := concatenate_axis2 [x_left; x_inner; x_right] in
  sub4 x_out (map_4 (fun x => 2 * x) img).

Definition _diff_yy (img : T4) : T4 :=
  let y_top := add4 (slice_hw (sl 1 2) all img) (slice_hw (sl 0 1) all img) in
  let y_inner := add4 (slice_hw (from 2) all img) (slice_hw (upto (-2)) all img) in
  let y_bot := add4 (slice_hw (from (-1)) all img) (slice_hw (sl (-2) (-1)) all img) in
  let y_out := concatenate_axis1 [y_top; y_inner; y_bot] in
  sub4 y_out (map_4 (fun x => 2 * x) img).

Definition _diff_xy (img : T4) : T4 :=
  (* xout1 *)
  let top_left := add4 (slice_hw (sl 1 2) (sl 1 2) img) (slice_hw (sl 0 1) (sl 0 1) img) in
  let inner_left := add4 (slice_hw (from 2) (sl 1 2) img) (slice_hw (upto (-2)) (sl 0 1) img) in
  let bot_left := add4 (slice_hw (from (-1)) (sl 1 2) img) (slice_hw (sl (-2) (-1)) (sl 0 1) img) in
  let xy_left := concatenate_axis1 [top_left; inner_left; bot_left] in

  let top_mid := add4 (slice_hw (sl 1 2) (from 2) img) (slice_hw (sl 0 1) (upto (-2)) img) in
  let mid_mid := add4 (slice_hw (from 2) (from 2) img) (slice_hw (upto (-2)) (upto (-2)) img) in
  let bot_mid := add4 (slice_hw (from (-1)) (from 2) img) (slice_hw (sl (-2) (-1)) (upto (-2)) img) in
  let xy_mid := concatenate_axis1 [top_mid; mid_mid; bot_mid] in

  let top_right := add4 (slice_hw (sl 1 2) (from (-1)) img) (slice_hw (sl 0 1) (sl (-2) (-1)) img) in
  let inner_right := add4 (slice_hw (from 2) (from (-1)) img) (slice_hw (upto (-2)) (sl (-2) (-1)) img) in
  let bot_right := add4 (slice_hw (from (-1)) (from (-1)) img) (slice_hw (sl (-2) (-1)) (sl (-2) (-1)) img) in
  let xy_right := concatenate_axis1 [top_right; inner_right; bot_right] in

  (* Xout2 *)
  let top_left := add4 (slice_hw (sl 0 1) (sl 1 2) img) (slice_hw (sl 1 2) (sl 0 1) img) in
  let inner_left := add4 (slice_hw (upto (-2)) (sl 1 2) img) (slice_hw (from 2) (sl 0 1) img) in
  let bot_left := add4 (slice_hw (sl (-2) (-1)) (sl 1 2) img) (slice_hw (from (-1)) (sl 0 1) img) in
  let xy_left := concatenate_axis1 [top_left; inner_left; bot_left] in

  let top_mid := add4 (slice_hw (sl 0 1) (from 2) img) (slice_hw (sl 1 2) (upto (-2)) img) in
  let mid_mid := add4 (slice_hw (upto (-2)) (from 2) img) (slice_hw (from 2) (upto (-2)) img) in
  let bot_mid := add4 (slice_hw (sl (-2) (-1)) (from 2) img) (slice_hw (from (-1)) (upto (-2)) img) in
  let xy_mid := concatenate_axis1 [top_mid; mid_mid; bot_mid] in

  let top_right := add4 (slice_hw (sl 0 1) (from (-1)) img) (slice_hw (sl 1 2) (sl (-2) (-1)) img) in
  let inner_right := add4 (slice_hw (upto (-2)) (from (-1)) img) (slice_hw (from 2) (sl (-2) (-1)) img) in
  let bot_right := add4 (slice_hw (sl (-2) (-1)) (from (-1)) img) (slice_hw (from (-1)) (sl (-2) (-1)) img) in
  let xy_right := concatenate_axis1 [top_right; inner_right; bot_right] in

  let xy_out1 := concatenate_axis2 [xy_left; xy_mid; xy_right] in
  let xy_out2 := concatenate_axis2 [xy_left; xy_mid; xy_right] in
  map_4 (fun x => x * 0.25) (sub4 xy_out1 xy_out2).

Definition __call__ (self : t) (y_true y_pred : T4) : T3 :=
  let tv_weight := 1 in
  let tv2_weight := 1 in
  let loss := 0 in
  let loss :=
    map_3 (fun x => loss + x)
      (map_3 (fun x => tv_weight * x)
         (add3 (GeneralizedLoss.__call__ (generalized_loss self)
                  (_diff_x y_true) (_diff_x y_pred))
               (GeneralizedLoss.__call__ (generalized_loss self)
                  (_diff_y y_true) (_diff_y y_pred)))) in
  let loss :=
    add3 loss
      (map_3 (fun x => tv2_weight * x)
         (add3 (add3 (GeneralizedLoss.__call__ (generalized_loss self)
                        (_diff_xx y_true) (_diff_xx y_pred))
                     (GeneralizedLoss.__call__ (generalized_loss self)
                        (_diff_yy y_true) (_diff_yy y_pred)))
               (map_3 (fun x => x * 2)
                  (GeneralizedLoss.__call__ (generalized_loss self)
                     (_diff_xy y_true) (_diff_xy y_pred))))) in
  let loss := map_3 (fun x => x / (tv_weight + tv2_weight)) loss in
  loss.

End GradientLoss.

(** ** [class GMSDLoss] *)

Module GMSDLoss.

Definition message : string :=
  "GMSD Loss is not currently compatible with PlaidML. Please select a different Loss method.".

(** The [raise] is the first statement of the method; the edge computation
    written after it is never reached. *)
Definition __call__ (y_true y_pred : K.T4) : Py.result K.T3 :=
  Py.Raise (Py.FaceswapError message).

End GMSDLoss.

(** ** [class LossWrapper] *)

Module LossWrapper.

(** The loss callables of this module that can be registered. *)
Inductive loss_function : Type :=
| DSSIM (f : DSSIMObjective.t)
| MSSIM (f : MSSIMLoss.t)
| Generalized (f : GeneralizedLoss.t)
| LInf
| Gradient (f : GradientLoss.t)
| GMSD.

(** What a loss callable returns: a rank 0 or a rank 3 tensor; the wrapper
    reduces it to rank 0 or rank 1. *)
Inductive tensor : Type :=
| Rank0 (x : R)
| Rank1 (v : K.T1)
| Rank3 (t : K.T3).

(** The accumulator [loss] starts as the Python float [0.0]. *)
Inductive value : Type :=
| PyFloat (x : R)
| Tensor (t : tensor).

(** [isinstance(func, DSSIMObjective)]: the class and its subclass. *)
Definition isinstance_DSSIMObjective (func : loss_function) : bool :=
  match func with
  | DSSIM _ | MSSIM _ => true
  | _ => false
  end.

(** [func(n_true, n_pred)]; the callable comes back with the result because
    [MSSIMLoss] may rewrite its own filter. *)
Definition call (func : loss_function) (y_true y_pred : K.T4)
    : loss_function * Py.result tensor :=
  match func with
  | DSSIM f => (func, Py.Ok (Rank0 (DSSIMObjective.__call__ f y_true y_pred)))
  | MSSIM f =>
    let '(f, r) := MSSIMLoss.__call__ f y_true y_pred in
    (MSSIM f, x <- r ;; Py.Ok (Rank0 x))
  | Generalized f => (func, Py.Ok (Rank3 (GeneralizedLoss.__call__ f y_true y_pred)))
  | LInf => (func, Py.Ok (Rank3 (LInfNorm.__call__ y_true y_pred)))
  | Gradient f => (func, Py.Ok (Rank3 (GradientLoss.__call__ f y_true y_pred)))
  | GMSD => (func, x <- GMSDLoss.__call__ y_true y_pred ;; Py.Ok (Rank3 x))
  end.

(** [K.mean(this_loss, axis=list(range(1, K.ndim(this_loss))))]. *)
Definition mean_trailing (this_loss : tensor) : tensor :=
  match this_loss with
  | Rank0 x => Rank0 x
  | Rank1 v => Rank1 v
  | Rank3 t => Rank1 (K.mean_12 t)
  end.

Definition scale (t : tensor) (weight : R) : tensor :=
  match t with
  | Rank0 x => Rank0 (x * weight)
  | Rank1 v => Rank1 (map (fun x => x * weight) v)
  | Rank3 t => Rank3 (K.map_3 (fun x => x * weight) t)
  end.

(** [a + b] with broadcasting of the lower rank along the trailing axis. *)
Definition tensor_add (a b : tensor) : tensor :=
  match a, b with
  | Rank0 x, Rank0 y => Rank0 (x + y)
  | Rank0 x, Rank1 v => Rank1 (map (fun y => x + y) v)
  | Rank1 v, Rank0 y => Rank1 (map (fun x => x + y) v)
  | Rank1 u, Rank1 v => Rank1 (Py.map2 Rplus u v)
  | Rank0 x, Rank3 t => Rank3 (K.map_3 (fun y => x + y) t)
  | Rank3 t, Rank0 y => Rank3 (K.map_3 (fun x => x + y) t)
  | Rank1 v, Rank3 t => Rank3 (map (map (Py.map2 Rplus v)) t)
  | Rank3 t, Rank1 v => Rank3 (map (map (fun r => Py.map2 Rplus r v)) t)
  | Rank3 t, Rank3 u => Rank3 (K.add3 t u)
  end.

(** [loss += t]. *)
Definition iadd (loss : value) (t : tensor) : value :=
  match loss with
  | PyFloat x => Tensor (tensor_add (Rank0 x) t)
  | Tensor l => Tensor (tensor_add l t)
  end.

Record t : Type := mk {
  _loss_functions : list loss_function;
  _loss_weights : list R;
  _mask_channels : list Z
}.

Definition __init__ : t := mk [] [] [].

Definition add_loss (self : t) (function : loss_function) (weight : R)
    (mask_channel : Z) : t :=
  mk (_loss_functions self ++ [function])
     (_loss_weights self ++ [weight])
     (_mask_channels self ++ [mask_channel]).

Definition _apply_mask (y_true y_pred : K.T4) (mask_channel : Z) (mask_prop : R)
    : Py.result (K.T4 * K.T4) :=
  if (mask_channel =? -1)%Z
  then Py.Ok (K.slice_last None (Some 3%Z) y_true,
              K.slice_last None (Some 3%Z) y_pred)
  else
    channel <- K.index_last mask_channel y_true ;;
    let mask := K.tile_axis3 (K.expand_dims3 channel) 3 in
    let mask_as_k_inv_prop := 1 - mask_prop in
    let mask :=
      K.map_4 (fun x => x + mask_as_k_inv_prop)
              (K.map_4 (fun x => x * mask_prop) mask) in
    let m_true := K.mul4 (K.slice_last None (Some 3%Z) y_true) mask in
    let m_pred := K.mul4 (K.slice_last None (Some 3%Z) y_pred) mask in
    Py.Ok (m_true, m_pred).

(** The pair that the loop body hands to [func]: the masked pair, with the
    prediction reshaped to the shape of [y_pred] for the SSIM family. *)
Definition arguments (func : loss_function) (y_true y_pred : K.T4)
    (mask_channel : Z) : Py.result (K.T4 * K.T4) :=
  masked <- _apply_mask y_true y_pred mask_channel 1 ;;
  let '(n_true, n_pred) := masked in
  n_pred <- (if isinstance_DSSIMObjective func
             then K.reshape n_pred (K.int_shape y_pred)
             else Py.Ok n_pred) ;;
  Py.Ok (n_true, n_pred).

(** The [for] loop over
    [zip(self._loss_functions, self._loss_weights, self._mask_channels)].
    The callables are returned as the loop leaves them; an exception ends
    the loop at the registration that raised it. *)
Fixpoint run (functions : list loss_function) (weights : list R)
    (mask_channels : list Z) (y_true y_pred : K.T4) (loss : value)
    : list loss_function * Py.result value :=
  match functions, weights, mask_channels with
  | func :: functions', weight :: weights', mask_channel :: mask_channels' =>
    match arguments func y_true y_pred mask_channel with
    | Py.Raise e => (functions, Py.Raise e)
    | Py.Ok (n_true, n_pred) =>
      match call func n_true n_pred with
      | (func, Py.Raise e) => (func :: functions', Py.Raise e)
      | (func, Py.Ok this_loss) =>
        let loss := iadd loss (scale (mean_trailing this_loss) weight) in
        let '(functions', r) :=
          run functions' weights' mask_channels' y_true y_pred loss in
        (func :: functions', r)
      end
    end
  | _, _, _ => (functions, Py.Ok loss)
  end.

Definition __call__ (self : t) (y_true y_pred : K.T4) : t * Py.result value :=
  let loss := PyFloat 0 in
  let '(functions, r) :=
    run (_loss_functions self) (_loss_weights self) (_mask_channels self)
        y_true y_pred loss in
  (mk functions (_loss_weights self) (_mask_channels self), r).

End LossWrapper.

(** * The landmark worker of [plugins/extract/align/dlib.py] *)

(** [class Align(Aligner)].  The base class, the two queues and the pose
    predictor are not part of the sources: the predictor is a parameter of
    the model, and the worker is described by the calls that it makes on the
    output queue and on [finalize], in their order. *)
Module Align.

(** A landmark as the predictor returns it. *)
Record point : Type := mk_point { x : Z; y : Z }.

(** An image is an array of [(height, width, channel)] values. *)
Definition image : Type := list (list (list Z)).

(** How a call of [align] ends: it returns, it waits for ever in
    [self.queues["in"].get()], or a key of the item is missing. *)
Inductive outcome : Type :=
| Returned
| Waiting
| KeyError.

Section Worker.

(** A face region, [dlib.rectangle] in the source. *)
Variable face : Type.

(** [self.model(image, detected_face).parts()]. *)
Variable model : image -> face -> list point.

(** An item of the input queue other than ["EOF"]: a dictionary, of which
    the worker reads the keys ["exception"], ["image"] and
    ["detected_faces"]. *)
Record item : Type := mk_item {
  exception : option bool;
  image_ : option image;
  detected_faces : option (list face)
}.

Inductive message : Type :=
| EOF
| Item (i : item).

(** The calls on the collaborators: [self.queues["out"].put(item)],
    [self.finalize(item)] for an item whose key ["detected_faces"] was
    rebound to [faces], and [self.finalize("EOF")]. *)
Inductive event : Type :=
| Put (i : item)
| Finalize (i : item) (faces : list (face * list (Z * Z)))
| FinalizeEOF.

Definition process_landmarks (image : image) (detected_faces : list face)
    : list (face * list (Z * Z)) :=
  fold_left (fun retval detected_face =>
               let pts := model image detected_face in
               let landmarks := map (fun point => (x point, y point)) pts in
               retval ++ [(detected_face, landmarks)])
            detected_faces [].

(** [item.get("exception", False)] as a condition. *)
Definition get_exception (i : item) : bool :=
  match exception i with
  | Some b => b
  | None => false
  end.

(** [array[:, :, ::-1]]. *)
Definition reverse_channels (img : image) : image := map (map (@rev Z)) img.

(** The loop of [align] over the items that the input queue delivers. *)
Fixpoint align (queue : list message) : list event * outcome :=
  match queue with
  | [] => ([], Waiting)
  | EOF :: _ => ([FinalizeEOF], Returned)
  | Item item :: queue =>
    if get_exception item
    then ([Put item; FinalizeEOF], Returned)
    else
      match image_ item with
      | None => ([], KeyError)
      | Some array =>
        let image := reverse_channels array in
        match detected_faces item with
        | None => ([], KeyError)
        | Some faces =>
          let faces := process_landmarks image faces in
          let '(events, end_) := align queue in
          (Finalize item faces :: events, end_)
        end
      end
  end.

(** The landmarks of one face: the coordinates of the points that the
    predictor returns for it. *)
Definition landmarks_of (image : image) (detected_face : face) : list (Z * Z) :=
  map (fun point => (x point, y point)) (model image detected_face).

(** An item that the loop processes: no exception is flagged and both keys
    are present. *)
Definition frame (i : item) : Prop :=
  get_exception i = false /\ image_ i <> None /\ detected_faces i <> None.

(** The call of [finalize] for a frame. *)
Definition finalized (i : item) : event :=
  match image_ i, detected_faces i with
  | Some array, Some faces =>
    Finalize i (map (fun f => (f, landmarks_of (reverse_channels array) f)) faces)
  | _, _ => FinalizeEOF
  end.

End Worker.

End Align.

(** * Predicates and reference definitions *)

(** ** Shapes *)

(** A list of [n] elements that all satisfy [P]. *)
Definition sized {A} (P : A -> Prop) (n : nat) (l : list A) : Prop :=
  length l = n /\ Forall P l.

Definition shape1 (c : nat) (v : K.T1) : Prop := length v = c.
Definition shape2 (w c : nat) : K.T2 -> Prop := sized (shape1 c) w.
Definition shape3 (h w c : nat) : K.T3 -> Prop := sized (shape2 w c) h.
Definition shape4 (n h w c : nat) : K.T4 -> Prop := sized (shape3 h w c) n.

(** Tensors filled with one value. *)
Definition full3 (x : R) (n h w : nat) : K.T3 := repeat (repeat (repeat x w) h) n.
Definition full4 (x : R) (n h w c : nat) : K.T4 := repeat (full3 x h w c) n.

(** Number of elements of [l[a:b]] for a list of [n] elements. *)
Definition slice_len (n : nat) (r : option Z * option Z) : nat :=
  let lo := match fst r with
            | None => 0%Z
            | Some i => Py.norm_idx (Z.of_nat n) i
            end in
  let hi := match snd r with
            | None => Z.of_nat n
            | Some j => Py.norm_idx (Z.of_nat n) j
            end in
  Z.to_nat (hi - lo).

(** ** The formulas of the specification *)

(** The robust loss of one difference [d]:
    [(|2 - alpha| / alpha) * (((d / beta)^2 / |2 - alpha| + 1)^(alpha / 2) - 1)]. *)
Definition robust_loss (alpha beta d : R) : R :=
  (Rabs (2 - alpha) / alpha)
  * (K.pow1 (Rsqr (d / beta) / Rabs (2 - alpha) + 1) (alpha / 2) - 1).

(** The robust loss of [d = y_pred - y_true], averaged over the channel axis
    and then multiplied by [beta]. *)
Definition robust_loss_spec (alpha beta : R) (y_true y_pred : K.T4) : K.T3 :=
  Py.map2 (Py.map2 (Py.map2 (fun t p =>
    K.mean1 (Py.map2 (fun a b => robust_loss alpha beta (b - a)) t p) * beta)))
    y_true y_pred.

(** ** Auxiliary notions for the structural-similarity proofs *)

(** The softmax row that [_get_kernel] reshapes into the kernel. *)
Definition flat_kernel (self : DSSIMObjective.t) : list R :=
  let size := Z.to_nat (DSSIMObjective._filter_size self) in
  let q := map (fun x => x * (-0.5 / Rsqr (DSSIMObjective._filter_sigma self)))
             (map Rsqr
                (map (fun x => x - (IZR (DSSIMObjective._filter_size self) - 1) / 2)
                   (map INR (seq 0 size)))) in
  K.softmax (concat (map (fun col => map (fun row => row + col) q) q)).

(** Weight of the kernel at row [a] and column [b]. *)
Definition kernel_weight (self : DSSIMObjective.t) (a b : nat) : R :=
  nth (a * Z.to_nat (DSSIMObjective._filter_size self) + b) (flat_kernel self) 0.

(** The kernel of the object is the one its size and sigma determine. *)
Definition kernel_built (self : DSSIMObjective.t) : Prop :=
  DSSIMObjective._kernel self = DSSIMObjective._get_kernel self.

(** A tensor given by its entries, over the windows of the images of [y]. *)
Definition tabulate (kh kw : nat) (F : K.T3 -> nat -> nat -> nat -> R) (y : K.T4) : K.T4 :=
  map (fun im =>
         map (fun i =>
                map (fun j => map (fun c => F im i j c) (seq 0 (K.channels_of im)))
                    (seq 0 (length (hd [] im) + 1 - kw)))
             (seq 0 (length im + 1 - kh))) y.

(** [mean_over_channels((1 - ssim) / 2)]: one value per batch sample. *)
Definition dssim_per_sample (self : DSSIMObjective.t) (y_true y_pred : K.T4) : K.T1 :=
  map (fun row => K.mean1 (map (fun s => (1 - s) / 2) row))
      (fst (DSSIMObjective._get_ssim self y_true y_pred)).

(** The plain SSIM of the pair raised elementwise to the power [w]. *)
Definition ssim_pow (self : DSSIMObjective.t) (w : R) (y_true y_pred : K.T4) : K.T2 :=
  K.map_2 (fun s => K.pow1 s w) (fst (DSSIMObjective._get_ssim self y_true y_pred)).

(** The first three channels of a pixel, each multiplied by [m]. *)
Definition masked_pixel (m : R) (p : K.T1) : K.T1 :=
  map (fun x => x * m) (firstn 3 p).

(** Position of channel [i] among [c] channels, for [-c <= i < c]. *)
Definition channel_position (c : nat) (i : Z) : nat :=
  Z.to_nat (if (i <? 0)%Z then i + Z.of_nat c else i).

(** The registrations of a wrapper, in the order of the loop. *)
Definition registrations (self : LossWrapper.t)
    : list (LossWrapper.loss_function * (R * Z)) :=
  combine (LossWrapper._loss_functions self)
          (combine (LossWrapper._loss_weights self) (LossWrapper._mask_channels self)).

(** ** A batch of two checkerboards *)

Definition checker : list (list (list R)) := [[[1]; [0]]; [[0]; [1]]].
Definition anti_checker : list (list (list R)) := [[[0]; [1]]; [[1]; [0]]].

(** Two samples of 2 x 2 pixels and one channel: the prediction repeats the
    first sample and inverts the second. *)
Definition example_true : K.T4 := [checker; checker].
Definition example_pred : K.T4 := [checker; anti_checker].

(** The default parameters, with a filter that fits into 2 x 2 pixels. *)
Definition example_dssim : DSSIMObjective.t :=
  DSSIMObjective.__init__ 0.01 0.03 2 1.5 1.

(** ** Auxiliary notions for the difference operators *)

(** Position in [l] of the first element of [l[a:b]], for a list of [n]
    elements. *)
Definition slice_lo (n : nat) (r : option Z * option Z) : nat :=
  Z.to_nat (match fst r with
            | None => 0%Z
            | Some i => Py.norm_idx (Z.of_nat n) i
            end).

(** The neighbours of position [j] on an axis of [w] entries, with the
    first and the last entry standing in for a neighbour beyond the edge. *)
Definition next_index (w j : nat) : nat := Nat.min (j + 1) (w - 1).
Definition prev_index (j : nat) : nat := (j - 1)%nat.

(** The three bands that the difference operators concatenate along one
    axis: first entry, inner entries, last entry. *)
Definition bands {A} (g : A -> A -> A) (l : list A) : list A :=
  (Py.map2 g (Py.slice (Some 1%Z) (Some 2%Z) l) (Py.slice (Some 0%Z) (Some 1%Z) l)
   ++ Py.map2 g (Py.slice (Some 2%Z) None l) (Py.slice None (Some (-2)%Z) l))
  ++ Py.map2 g (Py.slice (Some (-1)%Z) None l)
               (Py.slice (Some (-2)%Z) (Some (-1)%Z) l).

(** [t + c], the constant added to every entry. *)
Definition offset4 (c : R) (t : K.T4) : K.T4 := K.map_4 (fun x => x + c) t.

(** The weight [exp (- (da² + db²) / (2 sigma²))] of a Gaussian of width
    [sigma] at row [a] and column [b], both counted from the centre of a
    window of the filter size. *)
Definition gaussian_weight (self : DSSIMObjective.t) (a b : nat) : R :=
  let centre := (IZR (DSSIMObjective._filter_size self) - 1) / 2 in
  exp ((Rsqr (INR a - centre) + Rsqr (INR b - centre))
       * (-0.5 / Rsqr (DSSIMObjective._filter_sigma self))).

(** One call of [add_loss] for a registration [(function, (weight, mask))]. *)
Definition register (self : LossWrapper.t)
    (r : LossWrapper.loss_function * (R * Z)) : LossWrapper.t :=
  LossWrapper.add_loss self (fst r) (fst (snd r)) (snd (snd r)).

(** The three lists of a wrapper have one length. *)
Definition aligned (self : LossWrapper.t) : Prop :=
  length (LossWrapper._loss_functions self) = length (LossWrapper._loss_weights self)
  /\ length (LossWrapper._loss_functions self)
     = length (LossWrapper._mask_channels self).



(** ** Examples: one image of 2 x 3 pixels, and two of 2 x 2 pixels with
    three channels *)

Definition example_image : K.T4 := [[[[1]; [2]; [4]]; [[8]; [16]; [32]]]].

Definition example_rgb_true : K.T4 :=
  [[[[0.1; 0.2; 0.3]; [0.4; 0.5; 0.6]]; [[0.7; 0.8; 0.9]; [1; 0; 0.5]]]].

Definition example_rgb_pred : K.T4 :=
  [[[[0.3; 0.2; 0.1]; [0.4; 0.6; 0.6]]; [[0.5; 0.8; 0.9]; [0; 1; 0.5]]]].

(** * Properties *)

(** ** Lists and slices *)

Section ListFacts.

Context {A B C : Type}.

Lemma map2_length (f : A -> B -> C) l m :
  length (Py.map2 f l m) = Nat.min (length l) (length m).
Proof.
  revert m; induction l as [|a l IH]; intros [|b m]; simpl; auto.
Qed.

Lemma map2_diag (f : A -> A -> C) l :
  Py.map2 f l l = map (fun a => f a a) l.
Proof.
  induction l as [|a l IH]; simpl; congruence.
Qed.

Lemma map2_map_l (g : A -> B) (f : B -> B -> C) l m :
  Py.map2 f (map g l) (map g m) = Py.map2 (fun a b => f (g a) (g b)) l m.
Proof.
  revert m; induction l as [|a l IH]; intros [|b m]; simpl; auto.
  now rewrite IH.
Qed.

Lemma Forall_firstn (P : A -> Prop) k l : Forall P l -> Forall P (firstn k l).
Proof.
  intros H; revert k; induction H; intros [|k]; simpl; auto.
Qed.

Lemma Forall_skipn (P : A -> Prop) k l : Forall P l -> Forall P (skipn k l).
Proof.
  intros H; revert k; induction H; intros [|k]; simpl; auto.
Qed.

Lemma slice_length (r : option Z * option Z) (l : list A) :
  length (Py.slice (fst r) (snd r) l) = slice_len (length l) r.
Proof.
  unfold Py.slice, slice_len.
  rewrite length_firstn, length_skipn.
  destruct r as [[i|] [j|]]; simpl; unfold Py.norm_idx;
    repeat match goal with
           | |- context [(?x <? ?y)%Z] => destruct (Z.ltb_spec x y)
           end; lia.
Qed.

Lemma sized_slice (P : A -> Prop) n r l :
  sized P n l -> sized P (slice_len n r) (Py.slice (fst r) (snd r) l).
Proof.
  intros [Hn HP]. split.
  - now rewrite slice_length, Hn.
  - unfold Py.slice. now apply Forall_firstn, Forall_skipn.
Qed.

Lemma sized_map (P : A -> Prop) (Q : B -> Prop) (f : A -> B) n l :
  (forall a, P a -> Q (f a)) -> sized P n l -> sized Q n (map f l).
Proof.
  intros Hf [Hn HP]. split.
  - now rewrite length_map.
  - apply Forall_map. eapply Forall_impl; eauto.
Qed.

Lemma sized_map2 (P : A -> Prop) (Q : B -> Prop) (S : C -> Prop)
    (f : A -> B -> C) n l m :
  (forall a b, P a -> Q b -> S (f a b)) ->
  sized P n l -> sized Q n m -> sized S n (Py.map2 f l m).
Proof.
  intros Hf [Hn HP] [Hm HQ]. split.
  - rewrite map2_length; lia.
  - clear Hn Hm. revert m HQ.
    induction HP; intros m HQ; destruct HQ; simpl; auto.
Qed.

Lemma sized_app (P : A -> Prop) n m l l' :
  sized P n l -> sized P m l' -> sized P (n + m) (l ++ l').
Proof.
  intros [Hn HP] [Hm HQ]. split.
  - rewrite length_app; lia.
  - apply Forall_app; auto.
Qed.

Lemma sized_weaken (P Q : A -> Prop) n l :
  (forall a, P a -> Q a) -> sized P n l -> sized Q n l.
Proof.
  intros H [Hn HP]. split; auto. eapply Forall_impl; eauto.
Qed.

Lemma sized_repeat (P : A -> Prop) n a : P a -> sized P n (repeat a n).
Proof.
  intros H. split.
  - apply repeat_length.
  - apply Forall_forall. intros x Hx. apply repeat_spec in Hx. now subst.
Qed.

Lemma map_const_sized (P : A -> Prop) (f : A -> B) (b : B) n l :
  (forall a, P a -> f a = b) -> sized P n l -> map f l = repeat b n.
Proof.
  intros Hf [Hn HP]. subst n.
  induction HP; simpl; auto. f_equal; auto.
Qed.

End ListFacts.

(** ** Shapes of the backend operations *)

Lemma shape4_cast n h w c h' w' t :
  shape4 n h w c t -> h = h' -> w = w' -> shape4 n h' w' c t.
Proof. intros; subst; assumption. Qed.

Lemma shape1_zip f c a b : shape1 c a -> shape1 c b -> shape1 c (K.zip_1 f a b).
Proof.
  unfold shape1, K.zip_1. intros Ha Hb. rewrite map2_length. lia.
Qed.

Lemma shape2_zip f w c a b :
  shape2 w c a -> shape2 w c b -> shape2 w c (K.zip_2 f a b).
Proof. apply sized_map2. intros; now apply shape1_zip. Qed.

Lemma shape3_zip f h w c a b :
  shape3 h w c a -> shape3 h w c b -> shape3 h w c (K.zip_3 f a b).
Proof. apply sized_map2. intros; now apply shape2_zip. Qed.

Lemma shape4_zip f n h w c a b :
  shape4 n h w c a -> shape4 n h w c b -> shape4 n h w c (K.zip_4 f a b).
Proof. apply sized_map2. intros; now apply shape3_zip. Qed.

Lemma shape3_map f h w c t : shape3 h w c t -> shape3 h w c (K.map_3 f t).
Proof.
  apply sized_map. intros a. apply sized_map. intros v Hv.
  unfold shape1 in *. now rewrite length_map.
Qed.

Lemma shape4_map f n h w c t : shape4 n h w c t -> shape4 n h w c (K.map_4 f t).
Proof. apply sized_map. intros a. apply shape3_map. Qed.

Lemma shape4_slice_hw n h w c rows cols img :
  shape4 n h w c img ->
  shape4 n (slice_len h rows) (slice_len w cols) c (K.slice_hw rows cols img).
Proof.
  apply sized_map. intros im Him.
  apply sized_map with (P := shape2 w c).
  - intros row. apply sized_slice.
  - now apply sized_slice.
Qed.

Lemma shape4_concatenate_axis1 n h1 h2 h3 w c t1 t2 t3 :
  shape4 n h1 w c t1 -> shape4 n h2 w c t2 -> shape4 n h3 w c t3 ->
  shape4 n (h1 + h2 + h3) w c (K.concatenate_axis1 [t1; t2; t3]).
Proof.
  intros H1 H2 H3. unfold K.concatenate_axis1; simpl.
  apply sized_map2 with (P := shape3 (h1 + h2) w c) (Q := shape3 h3 w c); auto.
  - intros; now apply sized_app.
  - apply sized_map2 with (P := shape3 h1 w c) (Q := shape3 h2 w c); auto.
    intros; now apply sized_app.
Qed.

Lemma shape4_concatenate_axis2 n h w1 w2 w3 c t1 t2 t3 :
  shape4 n h w1 c t1 -> shape4 n h w2 c t2 -> shape4 n h w3 c t3 ->
  shape4 n h (w1 + w2 + w3) c (K.concatenate_axis2 [t1; t2; t3]).
Proof.
  intros H1 H2 H3. unfold K.concatenate_axis2; simpl.
  apply sized_map2 with (P := shape3 h (w1 + w2) c) (Q := shape3 h w3 c); auto.
  - intros a b Ha Hb.
    apply sized_map2 with (P := shape2 (w1 + w2) c) (Q := shape2 w3 c); auto.
    intros; now apply sized_app.
  - apply sized_map2 with (P := shape3 h w1 c) (Q := shape3 h w2 c); auto.
    intros a b Ha Hb.
    apply sized_map2 with (P := shape2 w1 c) (Q := shape2 w2 c); auto.
    intros; now apply sized_app.
Qed.

Lemma zip_4_diag f t : K.zip_4 f t t = K.map_4 (fun x => f x x) t.
Proof.
  unfold K.zip_4, K.zip_3, K.zip_2, K.zip_1, K.map_4, K.map_3, K.map_2.
  rewrite map2_diag. apply map_ext. intros a.
  rewrite map2_diag. apply map_ext. intros b.
  rewrite map2_diag. apply map_ext. intros v.
  apply map2_diag.
Qed.

Lemma map_4_map_4 f g t : K.map_4 f (K.map_4 g t) = K.map_4 (fun x => f (g x)) t.
Proof.
  unfold K.map_4, K.map_3, K.map_2.
  rewrite map_map. apply map_ext. intros a.
  rewrite map_map. apply map_ext. intros b.
  rewrite map_map. apply map_ext. intros v.
  apply map_map.
Qed.

Lemma map_4_ext f g t : (forall x, f x = g x) -> K.map_4 f t = K.map_4 g t.
Proof.
  intros H. unfold K.map_4, K.map_3, K.map_2.
  repeat (apply map_ext; intros ?). apply H.
Qed.

Lemma map_4_const x n h w c t :
  shape4 n h w c t -> K.map_4 (fun _ => x) t = full4 x n h w c.
Proof.
  apply map_const_sized. intros a. apply map_const_sized. intros b.
  apply map_const_sized. intros v Hv. unfold shape1 in Hv. subst c.
  induction v; simpl; congruence.
Qed.

(** The slices that the difference operators take from an axis of at least
    two entries. *)
Ltac slice_arith :=
  unfold slice_len, K.sl, K.from, K.upto, K.all, Py.norm_idx;
  cbv beta iota delta [fst snd];
  repeat match goal with
         | |- context [(?x <? ?y)%Z] => destruct (Z.ltb_spec x y)
         end; lia.

Lemma shape4_zip_slices f n h w c img r1 c1 r2 c2 h' w' :
  shape4 n h w c img ->
  slice_len h r1 = h' -> slice_len h r2 = h' ->
  slice_len w c1 = w' -> slice_len w c2 = w' ->
  shape4 n h' w' c (K.zip_4 f (K.slice_hw r1 c1 img) (K.slice_hw r2 c2 img)).
Proof.
  intros H E1 E2 E3 E4. apply shape4_zip.
  - rewrite <- E1, <- E3. now apply shape4_slice_hw.
  - rewrite <- E2, <- E4. now apply shape4_slice_hw.
Qed.

Lemma shape4_rows n h w c t1 t2 t3 :
  (2 <= h)%nat ->
  shape4 n 1 w c t1 -> shape4 n (h - 2) w c t2 -> shape4 n 1 w c t3 ->
  shape4 n h w c (K.concatenate_axis1 [t1; t2; t3]).
Proof.
  intros Hh H1 H2 H3.
  apply shape4_cast with (h := (1 + (h - 2) + 1)%nat) (w := w); try lia.
  now apply shape4_concatenate_axis1.
Qed.

Lemma shape4_cols n h w c t1 t2 t3 :
  (2 <= w)%nat ->
  shape4 n h 1 c t1 -> shape4 n h (w - 2) c t2 -> shape4 n h 1 c t3 ->
  shape4 n h w c (K.concatenate_axis2 [t1; t2; t3]).
Proof.
  intros Hw H1 H2 H3.
  apply shape4_cast with (h := h) (w := (1 + (w - 2) + 1)%nat); try lia.
  now apply shape4_concatenate_axis2.
Qed.

(** Solves the shape of a difference operator: three bands of rows or of
    columns, each the sum or difference of two slices. *)
Ltac diff_shape :=
  repeat first
    [ assumption
    | apply shape4_map
    | apply shape4_cols; [lia | ..]
    | apply shape4_rows; [lia | ..]
    | eapply shape4_zip_slices; [eassumption | slice_arith ..]
    | apply shape4_zip ].

(** ** The difference operators of [GradientLoss] *)

Section Gradient.

Variables (n h w c : nat) (img : K.T4).
Hypothesis Himg : shape4 n h w c img.
Hypothesis Hh : (2 <= h)%nat.
Hypothesis Hw : (2 <= w)%nat.

Lemma shape4_diff_x : shape4 n h w c (GradientLoss._diff_x img).
Proof. unfold GradientLoss._diff_x, K.sub4; cbv zeta. diff_shape. Qed.

Lemma shape4_diff_y : shape4 n h w c (GradientLoss._diff_y img).
Proof. unfold GradientLoss._diff_y, K.sub4; cbv zeta. diff_shape. Qed.

Lemma shape4_diff_xx : shape4 n h w c (GradientLoss._diff_xx img).
Proof. unfold GradientLoss._diff_xx, K.sub4, K.add4; cbv zeta. diff_shape. Qed.

Lemma shape4_diff_yy : shape4 n h w c (GradientLoss._diff_yy img).
Proof. unfold GradientLoss._diff_yy, K.sub4, K.add4; cbv zeta. diff_shape. Qed.

Lemma diff_xy_zero : GradientLoss._diff_xy img = full4 0 n h w c.
Proof.
  unfold GradientLoss._diff_xy; cbv zeta.
  unfold K.sub4 at 1. rewrite zip_4_diag, map_4_map_4.
  rewrite map_4_ext with (g := fun _ => 0) by (intros; lra).
  apply map_4_const. unfold K.add4. diff_shape.
Qed.

End Gradient.

(** ** Elementwise operations *)

Section Elementwise.

Context {A B C D : Type}.

Lemma map_map2 (f : C -> D) (g : A -> B -> C) l m :
  map f (Py.map2 g l m) = Py.map2 (fun a b => f (g a b)) l m.
Proof.
  revert m; induction l as [|a l IH]; intros [|b m]; simpl; auto.
  now rewrite IH.
Qed.

Lemma map2_ext (f g : A -> B -> C) l m :
  (forall a b, f a b = g a b) -> Py.map2 f l m = Py.map2 g l m.
Proof.
  intros H. revert m; induction l as [|a l IH]; intros [|b m]; simpl; auto.
  now rewrite H, IH.
Qed.

Lemma map2_flip (f : A -> B -> C) l m :
  Py.map2 f l m = Py.map2 (fun b a => f a b) m l.
Proof.
  revert m; induction l as [|a l IH]; intros [|b m]; simpl; auto.
  now rewrite IH.
Qed.

Lemma map2_repeat (f : A -> B -> C) a b n :
  Py.map2 f (repeat a n) (repeat b n) = repeat (f a b) n.
Proof. induction n; simpl; congruence. Qed.

End Elementwise.

Lemma map_4_zip_4 f g a b :
  K.map_4 f (K.zip_4 g a b) = K.zip_4 (fun x y => f (g x y)) a b.
Proof.
  unfold K.map_4, K.map_3, K.map_2, K.zip_4, K.zip_3, K.zip_2, K.zip_1.
  rewrite map_map2. apply map2_ext. intros t1 t2.
  rewrite map_map2. apply map2_ext. intros r1 r2.
  rewrite map_map2. apply map2_ext. intros v1 v2.
  apply map_map2.
Qed.

Lemma map_3_full3 f x n h w : K.map_3 f (full3 x n h w) = full3 (f x) n h w.
Proof.
  unfold K.map_3, K.map_2, full3. now rewrite !map_repeat.
Qed.

Lemma zip_3_full3 f x y n h w :
  K.zip_3 f (full3 x n h w) (full3 y n h w) = full3 (f x y) n h w.
Proof.
  unfold K.zip_3, K.zip_2, K.zip_1, full3. now rewrite !map2_repeat.
Qed.

Lemma sum_zero (l : list R) : Forall (fun x => x = 0) l -> K.sum l = 0.
Proof.
  unfold K.sum, K.big_sum. induction 1; simpl; [reflexivity | lra].
Qed.

Lemma mean1_zero (l : list R) : Forall (fun x => x = 0) l -> K.mean1 l = 0.
Proof.
  intros H. unfold K.mean1. rewrite (sum_zero l H). unfold Rdiv. apply Rmult_0_l.
Qed.

Lemma list_max_zero (l : list R) : Forall (fun x => x = 0) l -> K.list_max l = 0.
Proof.
  destruct 1 as [|x l Hx Hl]; simpl; [reflexivity|]. subst x.
  induction Hl as [|y l Hy Hl IH]; simpl; [reflexivity|].
  subst y. rewrite Rmax_left by lra. exact IH.
Qed.

(** ** Powers *)

Lemma Int_part_IZR (z : Z) : Int_part (IZR z) = z.
Proof. symmetry. apply Int_part_spec. lra. Qed.

Lemma pow1_IZR (x : R) (z : Z) : K.pow1 x (IZR z) = powerRZ x z.
Proof.
  unfold K.pow1. rewrite Int_part_IZR.
  destruct (Req_dec_T (IZR z) (IZR z)); [reflexivity | contradiction].
Qed.

Lemma pow1_2 (x : R) : K.pow1 x 2 = Rsqr x.
Proof. rewrite pow1_IZR. unfold Rsqr. simpl. ring. Qed.

Lemma pow1_1 (x : R) : K.pow1 x 1 = x.
Proof. rewrite pow1_IZR. simpl. ring. Qed.

Lemma pow1_one_l (y : R) : K.pow1 1 y = 1.
Proof.
  unfold K.pow1. destruct (Req_dec_T y (IZR (Int_part y))).
  - apply powerRZ_R1.
  - destruct (Rlt_dec 0 1) as [_|H]; [|exfalso; apply H; lra].
    unfold Rpower. now rewrite ln_1, Rmult_0_r, exp_0.
Qed.

(** ** [GeneralizedLoss] *)

Lemma generalized_loss_pointwise (self : GeneralizedLoss.t) (y_true y_pred : K.T4) :
  GeneralizedLoss.__call__ self y_true y_pred
  = robust_loss_spec (GeneralizedLoss.alpha self) (GeneralizedLoss.beta self)
                     y_true y_pred.
Proof.
  unfold GeneralizedLoss.__call__, robust_loss_spec; cbv zeta.
  unfold K.sub4. rewrite !map_4_zip_4.
  unfold K.mean_last, K.map_3, K.map_2, K.zip_4, K.zip_3, K.zip_2, K.zip_1.
  rewrite !map_map2, map2_flip. apply map2_ext. intros t1 t2.
  rewrite !map_map2, map2_flip. apply map2_ext. intros r1 r2.
  rewrite !map_map2, map2_flip. apply map2_ext. intros v1 v2.
  f_equal. f_equal. rewrite map2_flip. apply map2_ext. intros a b.
  unfold robust_loss. now rewrite pow1_2.
Qed.

Lemma robust_loss_0 (alpha beta : R) : robust_loss alpha beta 0 = 0.
Proof.
  unfold robust_loss.
  replace (Rsqr (0 / beta) / Rabs (2 - alpha) + 1) with 1.
  - rewrite pow1_one_l. ring.
  - unfold Rdiv, Rsqr. ring.
Qed.

Lemma generalized_loss_self (self : GeneralizedLoss.t) n h w c y :
  shape4 n h w c y ->
  GeneralizedLoss.__call__ self y y = full3 0 n h w.
Proof.
  intros Hy. rewrite generalized_loss_pointwise. unfold robust_loss_spec.
  rewrite map2_diag. revert Hy. apply map_const_sized. intros im.
  rewrite map2_diag. apply map_const_sized. intros row.
  rewrite map2_diag. apply map_const_sized. intros v _.
  rewrite map2_diag, mean1_zero; [ring|].
  apply Forall_map, Forall_forall. intros x _.
  replace (x - x) with 0 by ring. apply robust_loss_0.
Qed.

(** ** [LInfNorm] and [GradientLoss] on one tensor taken twice *)

Lemma channel_full3_zero h w c cc :
  Forall (fun x => x = 0) (K.channel (full3 0 h w c) cc).
Proof.
  unfold K.channel, full3. apply Forall_map, Forall_forall. intros p Hp.
  apply in_concat in Hp. destruct Hp as [row [Hrow Hp]].
  apply repeat_spec in Hrow. subst row.
  apply repeat_spec in Hp. subst p. apply nth_repeat.
Qed.

Lemma channels_of_full3 x h w c :
  (0 < h)%nat -> (0 < w)%nat -> K.channels_of (full3 x h w c) = c.
Proof.
  intros Hh Hw. unfold K.channels_of, full3.
  destruct h; [lia|]. destruct w; [lia|]. simpl. apply repeat_length.
Qed.

Lemma linf_self n h w c y :
  shape4 n h w c y -> (0 < h)%nat -> (0 < w)%nat ->
  LInfNorm.__call__ y y = full3 0 n 1 1.
Proof.
  intros Hy Hh Hw. unfold LInfNorm.__call__; cbv zeta.
  unfold K.sub4, K.abs. rewrite zip_4_diag, map_4_map_4.
  rewrite map_4_ext with (g := fun _ => 0)
    by (intros x; replace (x - x) with 0 by ring; apply Rabs_R0).
  rewrite (map_4_const 0 n h w c y Hy).
  unfold full4, K.max_hw_keepdims, K.mean_last, full3.
  rewrite !map_repeat. f_equal. simpl. f_equal. f_equal.
  apply mean1_zero, Forall_map, Forall_forall. intros cc _.
  apply list_max_zero, channel_full3_zero.
Qed.

Lemma gradient_self (self : GradientLoss.t) n h w c y :
  shape4 n h w c y -> (2 <= h)%nat -> (2 <= w)%nat ->
  GradientLoss.__call__ self y y = full3 0 n h w.
Proof.
  intros Hy Hh Hw. unfold GradientLoss.__call__; cbv zeta.
  rewrite (generalized_loss_self _ n h w c) by now apply shape4_diff_x.
  rewrite (generalized_loss_self _ n h w c) by now apply shape4_diff_y.
  rewrite (generalized_loss_self _ n h w c) by now apply shape4_diff_xx.
  rewrite (generalized_loss_self _ n h w c) by now apply shape4_diff_yy.
  rewrite (generalized_loss_self _ n h w c)
    by (rewrite (diff_xy_zero n h w c) by assumption;
        unfold full4, full3; repeat apply sized_repeat; apply repeat_length).
  unfold K.add3. rewrite ?zip_3_full3, ?map_3_full3, ?zip_3_full3, ?map_3_full3.
  rewrite ?zip_3_full3, ?map_3_full3.
  f_equal. lra.
Qed.

(** ** Sums *)

Section Sums.

Context {A : Type}.

Lemma big_sum_ext (l : list A) (f g : A -> R) :
  (forall a, In a l -> f a = g a) -> K.big_sum l f = K.big_sum l g.
Proof.
  unfold K.big_sum. induction l as [|a l IH]; simpl; intros H; [reflexivity|].
  rewrite H by now left. rewrite IH; [reflexivity|]. intros; apply H; now right.
Qed.

Lemma big_sum_plus (l : list A) (f g : A -> R) :
  K.big_sum l (fun a => f a + g a) = K.big_sum l f + K.big_sum l g.
Proof.
  unfold K.big_sum. induction l as [|a l IH]; simpl; [ring|]. rewrite IH; ring.
Qed.

Lemma big_sum_scal (l : list A) (k : R) (f : A -> R) :
  K.big_sum l (fun a => k * f a) = k * K.big_sum l f.
Proof.
  unfold K.big_sum. induction l as [|a l IH]; simpl; [ring|]. rewrite IH; ring.
Qed.

Lemma big_sum_nonneg (l : list A) (f : A -> R) :
  (forall a, In a l -> 0 <= f a) -> 0 <= K.big_sum l f.
Proof.
  unfold K.big_sum. induction l as [|a l IH]; simpl; intros H; [lra|].
  assert (0 <= f a) by (apply H; now left).
  assert (0 <= fold_right (fun a acc => f a + acc) 0 l)
    by (apply IH; intros; apply H; now right).
  lra.
Qed.

Lemma big_sum_map {B} (g : B -> A) (l : list B) (f : A -> R) :
  K.big_sum (map g l) f = K.big_sum l (fun b => f (g b)).
Proof.
  unfold K.big_sum. induction l as [|b l IH]; simpl; congruence.
Qed.

End Sums.

Lemma sum_map_big_sum {A} (l : list A) (f : A -> R) :
  K.sum (map f l) = K.big_sum l f.
Proof. unfold K.sum. apply (big_sum_map f l (fun x => x)). Qed.

Lemma sum_app (l m : list R) : K.sum (l ++ m) = K.sum l + K.sum m.
Proof.
  unfold K.sum, K.big_sum. induction l as [|a l IH]; simpl; [ring|].
  rewrite IH; ring.
Qed.

Lemma sum_nth (l : list R) :
  K.big_sum (seq 0 (length l)) (fun i => nth i l 0) = K.sum l.
Proof.
  induction l as [|a l IH]; [reflexivity|].
  simpl length. rewrite <- cons_seq, <- seq_shift.
  change (K.big_sum (0%nat :: map S (seq 0 (length l))) (fun i => nth i (a :: l) 0))
    with (a + K.big_sum (map S (seq 0 (length l))) (fun i => nth i (a :: l) 0)).
  rewrite big_sum_map. simpl nth. rewrite IH. reflexivity.
Qed.

Lemma sum_repeat (x : R) (n : nat) : K.sum (repeat x n) = INR n * x.
Proof.
  induction n as [|n IH]; [simpl; unfold K.sum, K.big_sum; simpl; ring|].
  rewrite S_INR. change (repeat x (S n)) with ([x] ++ repeat x n).
  rewrite sum_app, IH. unfold K.sum, K.big_sum. simpl. ring.
Qed.

Lemma mean1_repeat (x : R) (n : nat) : (0 < n)%nat -> K.mean1 (repeat x n) = x.
Proof.
  intros Hn. unfold K.mean1. rewrite sum_repeat, repeat_length.
  field. apply not_0_INR. lia.
Qed.

Lemma big_sum2_linear (la lb : list nat) (f g h : nat -> nat -> R) (k1 k2 : R) :
  K.big_sum la (fun a => K.big_sum lb (fun b => f a b + k1 * g a b + k2 * h a b))
  = K.big_sum la (fun a => K.big_sum lb (fun b => f a b))
    + k1 * K.big_sum la (fun a => K.big_sum lb (fun b => g a b))
    + k2 * K.big_sum la (fun a => K.big_sum lb (fun b => h a b)).
Proof.
  rewrite <- !big_sum_scal, <- !big_sum_plus.
  apply big_sum_ext. intros a _.
  now rewrite !big_sum_plus, !big_sum_scal.
Qed.

(** A weighted mean of squares dominates the square of the weighted mean. *)
Lemma weighted_square_mean (la lb : list nat) (wt x : nat -> nat -> R) :
  (forall a b, 0 <= wt a b) ->
  K.big_sum la (fun a => K.big_sum lb (fun b => wt a b)) = 1 ->
  Rsqr (K.big_sum la (fun a => K.big_sum lb (fun b => x a b * wt a b)))
  <= K.big_sum la (fun a => K.big_sum lb (fun b => Rsqr (x a b) * wt a b)).
Proof.
  intros Hpos Hone.
  set (m := K.big_sum la (fun a => K.big_sum lb (fun b => x a b * wt a b))).
  set (q := K.big_sum la (fun a => K.big_sum lb (fun b => Rsqr (x a b) * wt a b))).
  assert (H : 0 <= K.big_sum la (fun a => K.big_sum lb (fun b =>
                     wt a b * Rsqr (x a b - m)))).
  { apply big_sum_nonneg. intros a _. apply big_sum_nonneg. intros b _.
    apply Rmult_le_pos; [apply Hpos | apply Rle_0_sqr]. }
  assert (E : K.big_sum la (fun a => K.big_sum lb (fun b =>
                wt a b * Rsqr (x a b - m)))
              = q + (- 2 * m) * m + Rsqr m * 1).
  { rewrite <- Hone. unfold q. unfold m at 3.
    rewrite <- big_sum2_linear.
    apply big_sum_ext. intros a _. apply big_sum_ext. intros b _.
    unfold Rsqr. ring. }
  rewrite E in H. unfold Rsqr in *. lra.
Qed.

(** ** The Gaussian kernel *)

Lemma softmax_length (l : list R) : length (K.softmax l) = length l.
Proof. unfold K.softmax. now rewrite !length_map. Qed.

Lemma sum_exp_pos (l : list R) : l <> [] -> 0 < K.sum (map exp l).
Proof.
  destruct l as [|x l]; [congruence|]. intros _.
  change (map exp (x :: l)) with ([exp x] ++ map exp l). rewrite sum_app.
  assert (0 <= K.sum (map exp l)).
  { rewrite sum_map_big_sum. apply big_sum_nonneg. intros a _.
    left; apply exp_pos. }
  assert (0 < exp x) by apply exp_pos.
  unfold K.sum at 1, K.big_sum. simpl. lra.
Qed.

Lemma softmax_pos (l : list R) : Forall (fun x => 0 < x) (K.softmax l).
Proof.
  destruct l as [|x l]; [constructor|].
  unfold K.softmax. apply Forall_map, Forall_map, Forall_forall. intros a _.
  apply Rdiv_lt_0_compat; [apply exp_pos | apply sum_exp_pos; congruence].
Qed.

Lemma softmax_sum (l : list R) : l <> [] -> K.sum (K.softmax l) = 1.
Proof.
  intros Hl. unfold K.softmax.
  rewrite sum_map_big_sum. unfold Rdiv.
  rewrite (big_sum_ext _ _ (fun x => / K.sum (map exp l) * x))
    by (intros; ring).
  rewrite big_sum_scal. fold (K.sum (map exp l)).
  apply Rinv_l. pose proof (sum_exp_pos l Hl). lra.
Qed.

Lemma concat_rows_length {A} (l : list (list A)) k :
  Forall (fun r => length r = k) l -> length (concat l) = (length l * k)%nat.
Proof.
  induction 1 as [|r rows Hr _ IH]; [reflexivity|].
  simpl. rewrite length_app, IH, Hr. reflexivity.
Qed.

Lemma concat_square_length {A} (l : list (list A)) k :
  length l = k -> Forall (fun r => length r = k) l -> length (concat l) = (k * k)%nat.
Proof.
  intros Hl Hr. rewrite (concat_rows_length l k Hr). now rewrite Hl.
Qed.

Section Kernel.

Variable self : DSSIMObjective.t.
Let k := Z.to_nat (DSSIMObjective._filter_size self).

Lemma flat_kernel_length : length (flat_kernel self) = (k * k)%nat.
Proof.
  unfold flat_kernel; cbv zeta. rewrite softmax_length.
  apply concat_square_length.
  - now rewrite !length_map, length_seq.
  - apply Forall_map, Forall_forall. intros x _.
    now rewrite !length_map, length_seq.
Qed.

Lemma get_kernel_eq :
  DSSIMObjective._get_kernel self
  = map (map (fun x => [[x]])) (K.chunk k k (flat_kernel self)).
Proof. reflexivity. Qed.

Lemma flat_kernel_sum : (0 < k)%nat -> K.sum (flat_kernel self) = 1.
Proof.
  intros Hk. unfold flat_kernel; cbv zeta. apply softmax_sum.
  fold k. destruct k as [|k']; [lia|]. simpl. discriminate.
Qed.

Lemma kernel_weight_nonneg a b : 0 <= kernel_weight self a b.
Proof.
  unfold kernel_weight. fold k.
  destruct (Nat.lt_ge_cases (a * k + b) (length (flat_kernel self))) as [H|H].
  - left. pose proof (softmax_pos) as P. unfold flat_kernel; cbv zeta.
    eapply Forall_forall; [apply softmax_pos|]. apply nth_In.
    unfold flat_kernel in H; cbv zeta in H. exact H.
  - rewrite nth_overflow by assumption. lra.
Qed.

End Kernel.

Lemma hd_nth {A} (d : A) (l : list A) : hd d l = nth 0 l d.
Proof. now destruct l. Qed.

Lemma nth_map_in {A B} (f : A -> B) (l : list A) (i : nat) (d : A) (e : B) :
  (i < length l)%nat -> nth i (map f l) e = f (nth i l d).
Proof.
  intros H. rewrite (nth_indep _ e (f d)) by now rewrite length_map.
  apply map_nth.
Qed.

Lemma chunk_nth {A} (rows cols : nat) (l : list A) (a b : nat) (d : A) :
  (a < rows)%nat -> (b < cols)%nat ->
  nth b (nth a (K.chunk rows cols l) []) d = nth (a * cols + b) l d.
Proof.
  intros Ha Hb. unfold K.chunk.
  rewrite (nth_map_in _ _ _ 0%nat) by now rewrite length_seq.
  rewrite seq_nth by assumption. simpl.
  rewrite nth_firstn. apply Nat.ltb_lt in Hb. rewrite Hb.
  apply nth_skipn.
Qed.

Lemma sum_grid (cols rows : nat) (l : list R) :
  length l = (rows * cols)%nat ->
  K.big_sum (seq 0 rows) (fun a =>
    K.big_sum (seq 0 cols) (fun b => nth (a * cols + b) l 0)) = K.sum l.
Proof.
  revert l. induction rows as [|rows IH]; intros l Hl.
  - destruct l; [reflexivity | discriminate].
  - rewrite <- cons_seq, <- seq_shift.
    change (K.big_sum (0%nat :: map S (seq 0 rows)) ?f)
      with (f 0%nat + K.big_sum (map S (seq 0 rows)) f).
    rewrite big_sum_map.
    replace (K.sum l) with (K.sum (firstn cols l) + K.sum (skipn cols l))
      by (now rewrite <- sum_app, firstn_skipn).
    cbv beta. f_equal.
    + rewrite <- sum_nth.
      assert (E : length (firstn cols l) = cols)
        by (rewrite length_firstn; simpl in Hl; lia).
      rewrite E. apply big_sum_ext. intros b Hb. apply in_seq in Hb.
      rewrite nth_firstn.
      destruct (Nat.ltb_spec b cols); [reflexivity | lia].
    + rewrite <- (IH (skipn cols l)) by (rewrite length_skipn; simpl in Hl; lia).
      apply big_sum_ext. intros a _. apply big_sum_ext. intros b _.
      rewrite nth_skipn. f_equal. simpl. lia.
Qed.

Section KernelWeights.

Variable self : DSSIMObjective.t.
Let k := Z.to_nat (DSSIMObjective._filter_size self).
Hypothesis Hk : (0 < k)%nat.

Lemma kernel_weight_total :
  K.big_sum (seq 0 k) (fun a => K.big_sum (seq 0 k) (fun b => kernel_weight self a b)) = 1.
Proof.
  unfold kernel_weight. fold k.
  rewrite sum_grid by apply flat_kernel_length.
  now apply flat_kernel_sum.
Qed.

Lemma tiled_kernel_length channels :
  length (K.tile_axis2 (DSSIMObjective._get_kernel self) channels) = k.
Proof.
  rewrite get_kernel_eq. unfold K.tile_axis2, K.chunk.
  now rewrite !length_map, length_seq.
Qed.

Lemma tiled_kernel_width channels :
  length (hd [] (K.tile_axis2 (DSSIMObjective._get_kernel self) channels)) = k.
Proof.
  rewrite get_kernel_eq. unfold K.tile_axis2. fold k.
  assert (La : length (K.chunk k k (flat_kernel self)) = k)
    by (unfold K.chunk; now rewrite length_map, length_seq).
  rewrite hd_nth, map_map, (nth_map_in _ _ _ []) by lia.
  rewrite !length_map. unfold K.chunk.
  rewrite (nth_map_in _ _ _ 0%nat) by now rewrite length_seq.
  rewrite length_firstn, length_skipn, flat_kernel_length. fold k.
  rewrite seq_nth by assumption. simpl. nia.
Qed.

Lemma tiled_kernel_entry channels a b c :
  (a < k)%nat -> (b < k)%nat -> (c < channels)%nat ->
  K.kel (K.tile_axis2 (DSSIMObjective._get_kernel self) channels) a b c
  = kernel_weight self a b.
Proof.
  intros Ha Hb Hc. unfold K.kel, kernel_weight. fold k.
  rewrite get_kernel_eq. unfold K.tile_axis2. fold k.
  rewrite map_map.
  assert (La : length (K.chunk k k (flat_kernel self)) = k)
    by (unfold K.chunk; now rewrite length_map, length_seq).
  rewrite (nth_map_in _ _ _ []) by lia.
  assert (Lb : length (nth a (K.chunk k k (flat_kernel self)) []) = k).
  { unfold K.chunk. rewrite (nth_map_in _ _ _ 0%nat) by now rewrite length_seq.
    rewrite length_firstn, length_skipn, flat_kernel_length. fold k.
    rewrite seq_nth by assumption. simpl. nia. }
  rewrite map_map.
  rewrite (nth_map_in _ _ _ 0) by lia.
  rewrite chunk_nth by assumption.
  rewrite <- repeat_to_concat.
  rewrite (nth_repeat_lt _ _ Hc). reflexivity.
Qed.

Lemma conv_at_tiled channels im i j c :
  (c < channels)%nat ->
  K.conv_at (K.tile_axis2 (DSSIMObjective._get_kernel self) channels) im i j c
  = K.big_sum (seq 0 k) (fun a => K.big_sum (seq 0 k) (fun b =>
      K.px im (i + a) (j + b) c * kernel_weight self a b)).
Proof.
  intros Hc. unfold K.conv_at.
  rewrite tiled_kernel_length, tiled_kernel_width.
  apply big_sum_ext. intros a Ha. apply big_sum_ext. intros b Hb.
  apply in_seq in Ha, Hb. rewrite tiled_kernel_entry by lia. reflexivity.
Qed.

End KernelWeights.

(** ** Tensors given by their entries *)

Lemma map2_map_same {A B C D} (g : B -> C -> D) (f1 : A -> B) (f2 : A -> C) l :
  Py.map2 g (map f1 l) (map f2 l) = map (fun x => g (f1 x) (f2 x)) l.
Proof. induction l; simpl; congruence. Qed.

Lemma zip_4_map_4 g f1 f2 y :
  K.zip_4 g (K.map_4 f1 y) (K.map_4 f2 y) = K.map_4 (fun x => g (f1 x) (f2 x)) y.
Proof.
  unfold K.zip_4, K.zip_3, K.zip_2, K.zip_1, K.map_4, K.map_3, K.map_2.
  rewrite map2_map_same. apply map_ext. intros a.
  rewrite map2_map_same. apply map_ext. intros b.
  rewrite map2_map_same. apply map_ext. intros v.
  apply map2_map_same.
Qed.

Lemma hd_map_nil {A B} (g : list A -> list B) (l : list (list A)) :
  g [] = [] -> hd [] (map g l) = g (hd [] l).
Proof. intros H. destruct l; simpl; congruence. Qed.

Lemma channels_of_map_3 f im : K.channels_of (K.map_3 f im) = K.channels_of im.
Proof.
  unfold K.channels_of, K.map_3, K.map_2.
  rewrite !hd_map_nil by reflexivity. apply length_map.
Qed.

Lemma px_map_3 f im i j c : f 0 = 0 -> K.px (K.map_3 f im) i j c = f (K.px im i j c).
Proof.
  intros H0. unfold K.px, K.map_3, K.map_2.
  change (@nil K.T1) with (map (map f) []) at 1. rewrite map_nth.
  change (@nil R) with (map f []) at 1. rewrite map_nth.
  rewrite <- H0 at 1. apply map_nth.
Qed.

Lemma conv_tabulate y ker :
  K.depthwise_conv2d y ker
  = tabulate (length ker) (length (hd [] ker)) (K.conv_at ker) y.
Proof. reflexivity. Qed.

Lemma conv_map_4 f y ker :
  K.depthwise_conv2d (K.map_4 f y) ker
  = tabulate (length ker) (length (hd [] ker))
             (fun im => K.conv_at ker (K.map_3 f im)) y.
Proof.
  unfold K.depthwise_conv2d, tabulate, K.map_4. rewrite map_map.
  apply map_ext. intros im. rewrite channels_of_map_3.
  assert (E1 : length (K.map_3 f im) = length im) by apply length_map.
  assert (E2 : length (hd [] (K.map_3 f im)) = length (hd [] im)).
  { unfold K.map_3. rewrite hd_map_nil by reflexivity. apply length_map. }
  now rewrite E1, E2.
Qed.

Lemma map_4_tabulate f kh kw F y :
  K.map_4 f (tabulate kh kw F y) = tabulate kh kw (fun im i j c => f (F im i j c)) y.
Proof.
  unfold K.map_4, K.map_3, K.map_2, tabulate.
  rewrite map_map. apply map_ext. intros im.
  rewrite map_map. apply map_ext. intros i.
  rewrite map_map. apply map_ext. intros j.
  apply map_map.
Qed.

Lemma zip_4_tabulate g kh kw F G y :
  K.zip_4 g (tabulate kh kw F y) (tabulate kh kw G y)
  = tabulate kh kw (fun im i j c => g (F im i j c) (G im i j c)) y.
Proof.
  unfold K.zip_4, K.zip_3, K.zip_2, K.zip_1, tabulate.
  rewrite map2_map_same. apply map_ext. intros im.
  rewrite map2_map_same. apply map_ext. intros i.
  rewrite map2_map_same. apply map_ext. intros j.
  apply map2_map_same.
Qed.

Lemma tabulate_ext kh kw F G y :
  (forall im i j c, In im y ->
     (i < length im + 1 - kh)%nat -> (j < length (hd [] im) + 1 - kw)%nat ->
     (c < K.channels_of im)%nat -> F im i j c = G im i j c) ->
  tabulate kh kw F y = tabulate kh kw G y.
Proof.
  intros H. unfold tabulate.
  apply map_ext_in. intros im Him.
  apply map_ext_in. intros i Hi. apply in_seq in Hi.
  apply map_ext_in. intros j Hj. apply in_seq in Hj.
  apply map_ext_in. intros c Hc. apply in_seq in Hc.
  apply H; auto; lia.
Qed.

Lemma sized_hd {A} (P : A -> Prop) n (l : list A) d :
  sized P n l -> (0 < n)%nat -> P (hd d l).
Proof.
  intros [Hn HP] Hpos. destruct HP; [simpl in Hn; lia | assumption].
Qed.

Lemma shape3_width h w c im :
  shape3 h w c im -> (0 < h)%nat -> length (hd [] im) = w.
Proof. intros H Hh. now destruct (sized_hd _ _ _ [] H Hh). Qed.

Lemma shape3_channels h w c im :
  shape3 h w c im -> (0 < h)%nat -> (0 < w)%nat -> K.channels_of im = c.
Proof.
  intros H Hh Hw. unfold K.channels_of.
  exact (sized_hd _ _ _ [] (sized_hd _ _ _ [] H Hh) Hw).
Qed.

Lemma tabulate_const x kh kw n h w c y :
  shape4 n h w c y -> (0 < h)%nat -> (0 < w)%nat ->
  tabulate kh kw (fun _ _ _ _ => x) y
  = repeat (full3 x (h + 1 - kh) (w + 1 - kw) c) n.
Proof.
  intros Hy Hh Hw. unfold tabulate. revert Hy.
  apply map_const_sized. intros im Him.
  unfold full3. rewrite !map_const, !length_seq.
  rewrite (shape3_width h w c im Him Hh), (shape3_channels h w c im Him Hh Hw).
  destruct Him as [Lim _]. now rewrite Lim.
Qed.

Lemma mean_hw_full x n h w c :
  (0 < h)%nat -> (0 < w)%nat ->
  K.mean_hw (repeat (full3 x h w c) n) = repeat (repeat x c) n.
Proof.
  intros Hh Hw. unfold K.mean_hw. rewrite map_repeat. f_equal.
  rewrite channels_of_full3 by assumption.
  rewrite <- (length_seq c 0) at 2. rewrite <- map_const.
  apply map_ext_in. intros cc Hcc. apply in_seq in Hcc.
  unfold K.channel, full3.
  assert (E : map (fun p => nth cc p 0) (concat (repeat (repeat (repeat x c) w) h))
              = repeat x (h * w)).
  { induction h as [|h' IH]; [reflexivity|]. simpl.
    rewrite map_app, repeat_app. f_equal.
    - rewrite map_repeat. f_equal. apply nth_repeat_lt. lia.
    - destruct h' as [|h'']; [reflexivity|]. apply IH. lia. }
  rewrite E. apply mean1_repeat. nia.
Qed.

(** ** Structural similarity of a batch with itself *)

Lemma last_int_shape n h w c y :
  shape4 n h w c y -> (0 < n)%nat -> (0 < h)%nat -> (0 < w)%nat ->
  last (K.int_shape y) 0%nat = c.
Proof.
  intros Hy Hn Hh Hw. unfold K.int_shape. simpl last.
  exact (sized_hd _ _ _ [] (sized_hd _ _ _ [] (sized_hd _ _ _ [] Hy Hn) Hh) Hw).
Qed.

Lemma ssim_point (m q1 q2 c1 c2 : R) :
  0 < c1 -> 0 < c2 -> q2 = 2 * q1 -> Rsqr m <= q1 ->
  (m * m * 2 + c1) / (Rsqr m + Rsqr m + c1) = 1
  /\ (q1 * 2 - m * m * 2 + c2) / (q2 - (Rsqr m + Rsqr m) + c2) = 1.
Proof.
  intros H1 H2 -> Hq. unfold Rsqr in *. split; field; nra.
Qed.

Section SelfSimilarity.

Variable self : DSSIMObjective.t.
Let k := Z.to_nat (DSSIMObjective._filter_size self).
Hypothesis Hbuilt : kernel_built self.
Hypothesis Hk : (0 < k)%nat.
Hypothesis Hc1 : 0 < DSSIMObjective._c1 self.
Hypothesis Hc2 : 0 < DSSIMObjective._c2 self.

Variables (n h w c : nat) (y : K.T4).
Hypothesis Hy : shape4 n h w c y.
Hypothesis Hn : (0 < n)%nat.
Hypothesis Hh : (k <= h)%nat.
Hypothesis Hw : (k <= w)%nat.

Lemma get_ssim_self :
  DSSIMObjective._get_ssim self y y = (repeat (repeat 1 c) n, repeat (repeat 1 c) n).
Proof.
  unfold DSSIMObjective._get_ssim; cbv zeta.
  rewrite (last_int_shape n h w c y Hy) by lia.
  rewrite Hbuilt. unfold DSSIMObjective._depthwise_conv2d.
  unfold K.mul4, K.add4, K.sub4, K.div4, K.square.
  rewrite !zip_4_map_4, !zip_4_diag, !conv_map_4, !conv_tabulate.
  rewrite tiled_kernel_length, tiled_kernel_width by assumption. fold k.
  rewrite ?map_4_tabulate, ?zip_4_tabulate, ?map_4_tabulate, ?zip_4_tabulate.
  rewrite ?map_4_tabulate, ?zip_4_tabulate, ?map_4_tabulate, ?zip_4_tabulate.
  rewrite ?map_4_tabulate, ?zip_4_tabulate, ?map_4_tabulate, ?zip_4_tabulate.
  assert (P : forall im i j cc, In im y -> (cc < K.channels_of im)%nat ->
     let m := K.conv_at (K.tile_axis2 (DSSIMObjective._get_kernel self) c) im i j cc in
     let q1 := K.conv_at (K.tile_axis2 (DSSIMObjective._get_kernel self) c)
                 (K.map_3 (fun x => x * x) im) i j cc in
     let q2 := K.conv_at (K.tile_axis2 (DSSIMObjective._get_kernel self) c)
                 (K.map_3 (fun x => Rsqr x + Rsqr x) im) i j cc in
     (m * m * 2 + DSSIMObjective._c1 self)
       / (Rsqr m + Rsqr m + DSSIMObjective._c1 self) = 1
     /\ (q1 * 2 - m * m * 2 + DSSIMObjective._c2 self)
          / (q2 - (Rsqr m + Rsqr m) + DSSIMObjective._c2 self) = 1).
  { intros im i j cc Him Hcc m q1 q2.
    assert (Hcc' : (cc < c)%nat).
    { destruct Hy as [_ Fy]. rewrite Forall_forall in Fy.
      rewrite <- (shape3_channels h w c im (Fy im Him)); lia. }
    apply ssim_point; auto; unfold m, q1, q2;
      rewrite !conv_at_tiled by assumption; fold k.
    - rewrite <- big_sum_scal. apply big_sum_ext. intros a _.
      rewrite <- big_sum_scal. apply big_sum_ext. intros b _.
      rewrite !px_map_3 by (unfold Rsqr; ring). unfold Rsqr. ring.
    - eapply Rle_trans.
      + apply (weighted_square_mean (seq 0 k) (seq 0 k) (kernel_weight self)
                 (fun a b => K.px im (i + a) (j + b) cc)).
        * intros; apply kernel_weight_nonneg.
        * now apply kernel_weight_total.
      + right. apply big_sum_ext. intros a _. apply big_sum_ext. intros b _.
        rewrite px_map_3 by ring. reflexivity. }
  assert (ones : forall F,
            (forall im i j cc, In im y -> (cc < K.channels_of im)%nat ->
                               F im i j cc = 1) ->
            K.mean_hw (tabulate k k F y) = repeat (repeat 1 c) n).
  { intros F HF. rewrite (tabulate_ext k k F (fun _ _ _ _ => 1)) by auto.
    rewrite (tabulate_const 1 k k n h w c y Hy) by lia.
    apply mean_hw_full; lia. }
  f_equal; apply ones; intros im i j cc Him Hcc;
    destruct (P im i j cc Him Hcc) as [E1 E2]; cbv zeta in E1, E2.
  - rewrite E1, E2. ring.
  - exact E2.
Qed.

Lemma dssim_self : DSSIMObjective.__call__ self y y = 0.
Proof.
  unfold DSSIMObjective.__call__; cbv zeta. rewrite get_ssim_self. simpl fst.
  unfold K.map_2, K.mean_all2. rewrite !map_repeat.
  apply mean1_zero, Forall_forall. intros x Hx.
  apply in_concat in Hx. destruct Hx as [row [Hrow Hx]].
  apply repeat_spec in Hrow. subst row. apply repeat_spec in Hx. subst x. lra.
Qed.

End SelfSimilarity.

(** ** The smallest scale of [MSSIMLoss] *)

Lemma smallest_size_stop (size idx : Z) :
  (idx <= 0)%Z -> MSSIMLoss._get_smallest_size size idx = size.
Proof.
  intros H. funelim (MSSIMLoss._get_smallest_size size idx).
  - lia.
  - reflexivity.
Qed.

Lemma smallest_size_step (size idx : Z) :
  (0 < idx)%Z ->
  MSSIMLoss._get_smallest_size size idx
  = MSSIMLoss._get_smallest_size (size / 2)%Z (idx - 1)%Z.
Proof.
  intros H. funelim (MSSIMLoss._get_smallest_size size idx).
  - reflexivity.
  - lia.
Qed.

Lemma smallest_size_iter (size : Z) (m : nat) :
  MSSIMLoss._get_smallest_size size (Z.of_nat m)
  = Nat.iter m (fun s => (s / 2)%Z) size.
Proof.
  revert size. induction m as [|m IH]; intros size.
  - now apply smallest_size_stop.
  - rewrite smallest_size_step by lia.
    replace (Z.of_nat (S m) - 1)%Z with (Z.of_nat m) by lia.
    rewrite IH, Nat.iter_succ_r. reflexivity.
Qed.

Lemma smallest_size_pow (size : Z) (m : nat) :
  MSSIMLoss._get_smallest_size size (Z.of_nat m) = (size / 2 ^ Z.of_nat m)%Z.
Proof.
  revert size. induction m as [|m IH]; intros size.
  - rewrite smallest_size_stop by lia. simpl. now rewrite Z.div_1_r.
  - rewrite smallest_size_step by lia.
    replace (Z.of_nat (S m) - 1)%Z with (Z.of_nat m) by lia.
    rewrite IH, Z.div_div by lia.
    f_equal. rewrite Nat2Z.inj_succ, Z.pow_succ_r by lia. reflexivity.
Qed.

(** ** The filter of [MSSIMLoss] after [shrink_filter] *)

Lemma get_kernel_set_kernel base ker :
  DSSIMObjective._get_kernel (DSSIMObjective.set_kernel base ker)
  = DSSIMObjective._get_kernel base.
Proof. reflexivity. Qed.

Lemma shrink_filter_built self im_size :
  kernel_built (MSSIMLoss.super self) ->
  kernel_built (MSSIMLoss.super (MSSIMLoss.shrink_filter self im_size)).
Proof.
  intros H. unfold MSSIMLoss.shrink_filter; cbv zeta.
  destruct (Z.ltb_spec
              (MSSIMLoss._get_smallest_size im_size
                 (Z.of_nat (length (MSSIMLoss._power_factors self)) - 1))
              (DSSIMObjective._filter_size (MSSIMLoss.super self))); auto.
  reflexivity.
Qed.

Lemma shrink_filter_size self im_size :
  DSSIMObjective._filter_size (MSSIMLoss.super (MSSIMLoss.shrink_filter self im_size))
  = Z.min (DSSIMObjective._filter_size (MSSIMLoss.super self))
          (MSSIMLoss._get_smallest_size im_size
             (Z.of_nat (length (MSSIMLoss._power_factors self)) - 1)).
Proof.
  unfold MSSIMLoss.shrink_filter; cbv zeta.
  destruct (Z.ltb_spec
              (MSSIMLoss._get_smallest_size im_size
                 (Z.of_nat (length (MSSIMLoss._power_factors self)) - 1))
              (DSSIMObjective._filter_size (MSSIMLoss.super self))); simpl; lia.
Qed.

Lemma shrink_filter_frame self im_size :
  let self' := MSSIMLoss.shrink_filter self im_size in
  DSSIMObjective._filter_sigma (MSSIMLoss.super self')
    = DSSIMObjective._filter_sigma (MSSIMLoss.super self)
  /\ DSSIMObjective._c1 (MSSIMLoss.super self') = DSSIMObjective._c1 (MSSIMLoss.super self)
  /\ DSSIMObjective._c2 (MSSIMLoss.super self') = DSSIMObjective._c2 (MSSIMLoss.super self)
  /\ MSSIMLoss._power_factors self' = MSSIMLoss._power_factors self.
Proof.
  unfold MSSIMLoss.shrink_filter; cbv zeta.
  destruct (Z.ltb_spec
              (MSSIMLoss._get_smallest_size im_size
                 (Z.of_nat (length (MSSIMLoss._power_factors self)) - 1))
              (DSSIMObjective._filter_size (MSSIMLoss.super self))); simpl; auto.
Qed.

(** ** Shapes of the pyramid of [MSSIMLoss] *)

Lemma shape4_pool n h w c y :
  shape4 n h w c y -> shape4 n (h / 2) (w / 2) c (K.pool2d_avg y).
Proof.
  apply sized_map. intros im Him.
  destruct (Nat.eq_dec h 0) as [->|Hh].
  { destruct Him as [L _]. rewrite L. simpl. split; constructor. }
  destruct (Nat.eq_dec w 0) as [->|Hw].
  { rewrite (shape3_width h 0 c im Him) by lia. 
    destruct Him as [L _]. rewrite L. simpl.
    split; [now rewrite length_map, length_seq|].
    apply Forall_map, Forall_forall. intros i _. split; constructor. }
  rewrite (shape3_width h w c im Him), (shape3_channels h w c im Him) by lia.
  destruct Him as [L _]. rewrite L.
  split; [now rewrite length_map, length_seq|].
  apply Forall_map, Forall_forall. intros i _.
  split; [now rewrite length_map, length_seq|].
  apply Forall_map, Forall_forall. intros j _.
  unfold shape1. now rewrite length_map, length_seq.
Qed.

Lemma sized_reflect_trailing {A} (P : A -> Prop) n (l : list A) :
  sized P n l -> (2 <= n)%nat -> sized P (n + 1) (reflect_trailing l).
Proof.
  intros H Hn. unfold reflect_trailing. apply sized_app; [assumption|].
  replace 1%nat with (slice_len n (K.sl (-2) (-1))) by slice_arith.
  now apply (sized_slice P n (K.sl (-2) (-1))).
Qed.

Lemma shape4_pad n h w c y :
  shape4 n h w c y -> (2 <= h)%nat -> (2 <= w)%nat ->
  shape4 n (h + 1) (w + 1) c (pad_reflect_trailing y).
Proof.
  intros Hy Hh Hw. revert Hy. apply sized_map. intros im Him.
  apply sized_reflect_trailing; [|assumption].
  revert Him. apply sized_map. intros row Hrow.
  now apply sized_reflect_trailing.
Qed.

Lemma shrink_images_self n s c z :
  shape4 n s s c z -> (0 < n)%nat -> (2 <= s)%nat ->
  exists z', MSSIMLoss._shrink_images (z, z) = (z', z')
             /\ shape4 n ((s + 1) / 2) ((s + 1) / 2) c z'.
Proof.
  intros Hz Hn Hs. unfold MSSIMLoss._shrink_images; cbv zeta. cbn [fst snd].
  match goal with
  | |- context [if ?b then _ else _] => destruct b eqn:E
  end.
  - eexists; split; [reflexivity|]. cbn [fst snd].
    apply shape4_pool. now apply shape4_pad.
  - eexists; split; [reflexivity|]. cbn [fst snd].
    unfold K.int_shape in E.
    assert (Hlen : length (hd [] z) = s) by (now destruct (sized_hd _ _ _ [] Hz Hn)).
    rewrite Hlen in E.
    change (Py.slice (Some 1%Z) (Some 2%Z) ?l) with [s] in E.
    cbn [existsb] in E.
    rewrite orb_false_r in E. apply negb_false_iff, Nat.eqb_eq in E.
    assert (Ediv : ((s + 1) / 2 = s / 2)%nat).
    { pose proof (Nat.div_mod_eq s 2). pose proof (Nat.div_mod_eq (s + 1) 2).
      pose proof (Nat.mod_upper_bound (s + 1) 2). lia. }
    rewrite Ediv. now apply shape4_pool.
Qed.

(** ** The scales of [MSSIMLoss] on a batch taken twice *)

Lemma div_le_self (a b : nat) : (a / b <= a)%nat.
Proof.
  destruct b as [|b]; [simpl; lia|].
  apply Nat.Div0.div_le_upper_bound. nia.
Qed.

Section MultiScaleSelf.

Variable self : MSSIMLoss.t.
Let k := Z.to_nat (DSSIMObjective._filter_size (MSSIMLoss.super self)).
Let scales := length (MSSIMLoss._power_factors self).
Hypothesis Hbuilt : kernel_built (MSSIMLoss.super self).
Hypothesis Hk : (0 < k)%nat.
Hypothesis Hc1 : 0 < DSSIMObjective._c1 (MSSIMLoss.super self).
Hypothesis Hc2 : 0 < DSSIMObjective._c2 (MSSIMLoss.super self).

Variables n c : nat.
Hypothesis Hn : (0 < n)%nat.

Let ones : K.T2 := repeat (repeat 1 c) n.
Let unit : K.T3 := K.map_3 K.relu1 (K.expand_dims2 ones).

Lemma scale_step_first s z contrasts ssim0 :
  shape4 n s s c z -> (k <= s)%nat ->
  MSSIMLoss.scale_step self scales ((z, z), contrasts, ssim0) 0
  = ((z, z),
     (if (0 <? Z.of_nat scales - 1)%Z then contrasts ++ [unit] else contrasts),
     Some ones).
Proof.
  intros Hz Hs. unfold MSSIMLoss.scale_step. cbn [Nat.ltb Nat.leb fst snd].
  rewrite (get_ssim_self _ Hbuilt Hk Hc1 Hc2 n s s c z Hz Hn Hs Hs).
  reflexivity.
Qed.

Lemma scale_step_next idx s z contrasts ssim0 :
  shape4 n s s c z -> (0 < idx)%nat -> (2 <= s)%nat -> (k <= (s + 1) / 2)%nat ->
  exists z',
    MSSIMLoss.scale_step self scales ((z, z), contrasts, ssim0) idx
    = ((z', z'),
       (if (Z.of_nat idx <? Z.of_nat scales - 1)%Z
        then contrasts ++ [unit] else contrasts),
       Some ones)
    /\ shape4 n ((s + 1) / 2) ((s + 1) / 2) c z'.
Proof.
  intros Hz Hidx Hs Hks. unfold MSSIMLoss.scale_step.
  destruct (Nat.ltb_spec 0 idx) as [_|]; [|lia].
  destruct (shrink_images_self n s c z Hz Hn Hs) as [z' [E Hz']].
  rewrite E. cbn [fst snd].
  rewrite (get_ssim_self _ Hbuilt Hk Hc1 Hc2 n _ _ c z' Hz' Hn Hks Hks).
  exists z'. split; [reflexivity | assumption].
Qed.

Lemma scales_tail len : forall idx s z contrasts ssim0,
  (0 < idx)%nat -> (idx + len = scales)%nat ->
  shape4 n s s c z ->
  ((0 < len)%nat -> (k <= s / 2 / 2 ^ (len - 1))%nat) ->
  exists z',
    fold_left (MSSIMLoss.scale_step self scales) (seq idx len)
              ((z, z), contrasts, ssim0)
    = ((z', z'), contrasts ++ repeat unit (len - 1),
       if Nat.eqb len 0 then ssim0 else Some ones).
Proof.
  induction len as [|len IH]; intros idx s z contrasts ssim0 Hidx Hsum Hz Hks.
  - exists z. simpl. now rewrite app_nil_r.
  - specialize (Hks ltac:(lia)).
    replace (S len - 1)%nat with len in * by lia.
    assert (Hfloor : (s / 2 / 2 ^ len <= s / 2)%nat) by apply div_le_self.
    assert (Hup : (s / 2 <= (s + 1) / 2)%nat)
      by (apply Nat.Div0.div_le_mono; lia).
    assert (Hs : (2 <= s)%nat).
    { destruct (Nat.lt_ge_cases s 2) as [Hlt|]; [|assumption].
      rewrite (Nat.div_small s 2), Nat.Div0.div_0_l in Hks by assumption. lia. }
    destruct (scale_step_next idx s z contrasts ssim0 Hz Hidx Hs
                (Nat.le_trans _ _ _ Hks (Nat.le_trans _ _ _ Hfloor Hup)))
      as [z' [E Hz']].
    rewrite <- cons_seq. cbn [fold_left]. rewrite E.
    destruct (IH (S idx) ((s + 1) / 2)%nat z'
                (if (Z.of_nat idx <? Z.of_nat scales - 1)%Z
                 then contrasts ++ [unit] else contrasts)
                (Some ones) ltac:(lia) ltac:(lia) Hz') as [z'' E'].
    { intros Hlen. destruct len as [|len']; [lia|].
      replace (S len' - 1)%nat with len' by lia.
      rewrite Nat.Div0.div_div.
      replace (2 * 2 ^ len')%nat with (2 ^ S len')%nat by (simpl; lia).
      eapply Nat.le_trans; [exact Hks|].
      apply Nat.Div0.div_le_mono. exact Hup. }
    exists z''. rewrite E'. f_equal; [f_equal | destruct len; reflexivity].
    destruct len as [|len'].
    + simpl. destruct (Z.ltb_spec (Z.of_nat idx) (Z.of_nat scales - 1)); [lia|].
      reflexivity.
    + destruct (Z.ltb_spec (Z.of_nat idx) (Z.of_nat scales - 1)); [|lia].
      rewrite <- app_assoc. simpl. now rewrite Nat.sub_0_r.
Qed.

Lemma scales_all s y :
  (0 < scales)%nat -> shape4 n s s c y -> (k <= s / 2 ^ (scales - 1))%nat ->
  exists z',
    fold_left (MSSIMLoss.scale_step self scales) (seq 0 scales) ((y, y), [], None)
    = ((z', z'), repeat unit (scales - 1), Some ones).
Proof.
  intros Hsc Hy Hks.
  destruct scales as [|len] eqn:Esc; [lia|].
  replace (S len - 1)%nat with len in * by lia.
  assert (Hs : (k <= s)%nat).
  { eapply Nat.le_trans; [exact Hks|]. apply div_le_self. }
  rewrite <- cons_seq. cbn [fold_left]. rewrite <- Esc.
  rewrite (scale_step_first s y [] None Hy Hs).
  destruct (scales_tail len 1 s y
              (if (0 <? Z.of_nat scales - 1)%Z then [] ++ [unit] else [])
              (Some ones) ltac:(lia) ltac:(lia) Hy) as [z' E].
  { intros Hlen. destruct len as [|len']; [lia|].
    replace (S len' - 1)%nat with len' by lia.
    rewrite Nat.Div0.div_div.
    replace (2 * 2 ^ len')%nat with (2 ^ S len')%nat by (simpl; lia).
    exact Hks. }
  exists z'. rewrite E. f_equal. f_equal.
  - destruct len as [|len'].
    + destruct (Z.ltb_spec 0 (Z.of_nat scales - 1)); [lia|]. reflexivity.
    + destruct (Z.ltb_spec 0 (Z.of_nat scales - 1)); [|lia].
      simpl. now rewrite Nat.sub_0_r.
  - destruct len; reflexivity.
Qed.

End MultiScaleSelf.

(** ** The product over the scales *)

Lemma relu1_1 : K.relu1 1 = 1.
Proof. unfold K.relu1. apply Rmax_left. lra. Qed.

Lemma pow_ones (pf : list R) :
  Py.map2 K.pow1 (repeat 1 (length pf)) pf = repeat 1 (length pf).
Proof.
  induction pf as [|p pf IH]; [reflexivity|].
  simpl. now rewrite pow1_one_l, IH.
Qed.

Lemma concatenate_ones n c m : forall j,
  fold_left (Py.map2 (Py.map2 (@app R))) (repeat (full3 1 n c 1) m) (full3 1 n c j)
  = full3 1 n c (j + m).
Proof.
  induction m as [|m IH]; intros j.
  - simpl. now rewrite Nat.add_0_r.
  - simpl repeat. cbn [fold_left].
    replace (Py.map2 (Py.map2 (@app R)) (full3 1 n c j) (full3 1 n c 1))
      with (full3 1 n c (S j)).
    + rewrite IH. f_equal. lia.
    + unfold full3. rewrite !map2_repeat, <- repeat_app.
      do 3 f_equal. lia.
Qed.

Lemma product_ones n c (scales : nat) (idxs : list nat) :
  Forall (fun idx => (idx < scales)%nat) idxs ->
  fold_left (fun out idx =>
               K.zip_2 Rmult out
                 (map (map (fun v => nth idx v 0))
                      (repeat (repeat (repeat 1 scales) c) n)))
            idxs (repeat (repeat 1 c) n)
  = repeat (repeat 1 c) n.
Proof.
  induction 1 as [|idx idxs Hidx _ IH]; [reflexivity|].
  cbn [fold_left]. rewrite !map_repeat.
  unfold K.zip_2, K.zip_1. rewrite !map2_repeat.
  rewrite (nth_repeat_lt 1 0 Hidx), Rmult_1_l. exact IH.
Qed.

Lemma ms_ssim_ones n c (pf : list R) :
  pf <> [] ->
  let ones := repeat (repeat 1 c) n in
  let unit := K.map_3 K.relu1 (K.expand_dims2 ones) in
  let contrasts := repeat unit (length pf - 1) ++ [unit] in
  let mcs_and_ssim := K.concatenate_last3 contrasts in
  let ms_ssim := map (map (fun v => Py.map2 K.pow1 v pf)) mcs_and_ssim in
  let out := map (map (fun v => nth 0 v 0)) ms_ssim in
  fold_left (fun out idx =>
               K.zip_2 Rmult out (map (map (fun v => nth idx v 0)) ms_ssim))
            (seq 1 (length pf - 1)) out
  = ones.
Proof.
  intros Hpf ones unit contrasts mcs_and_ssim ms_ssim out.
  assert (Hlen : (0 < length pf)%nat) by (destruct pf; [congruence | simpl; lia]).
  assert (Eunit : unit = full3 1 n c 1).
  { unfold unit, ones, K.expand_dims2, K.map_3, K.map_2, full3.
    rewrite !map_repeat. simpl map. now rewrite relu1_1. }
  assert (Emcs : mcs_and_ssim = full3 1 n c (length pf)).
  { unfold mcs_and_ssim, contrasts. rewrite <- repeat_cons.
    unfold K.concatenate_last3, K.concatenate_with.
    rewrite Eunit, concatenate_ones. f_equal. lia. }
  assert (Ems : ms_ssim = repeat (repeat (repeat 1 (length pf)) c) n).
  { unfold ms_ssim. rewrite Emcs. unfold full3.
    now rewrite !map_repeat, pow_ones. }
  assert (Eout : out = ones).
  { unfold out. rewrite Ems, !map_repeat.
    now rewrite (nth_repeat_lt 1 0 Hlen). }
  rewrite Eout, Ems. apply product_ones.
  apply Forall_forall. intros idx Hidx. apply in_seq in Hidx. lia.
Qed.

(** ** [MSSIMLoss] on a batch taken twice *)

Lemma nth_1_int_shape n h w c y :
  shape4 n h w c y -> (0 < n)%nat -> nth 1 (K.int_shape y) 0%nat = h.
Proof.
  intros Hy Hn. unfold K.int_shape. simpl nth.
  now destruct (sized_hd _ _ _ [] Hy Hn).
Qed.

Lemma smallest_size_nat (s m : nat) :
  MSSIMLoss._get_smallest_size (Z.of_nat s) (Z.of_nat m) = Z.of_nat (s / 2 ^ m).
Proof.
  rewrite smallest_size_pow, Nat2Z.inj_div, Nat2Z.inj_pow. reflexivity.
Qed.

Lemma ms_ssim_self (self : MSSIMLoss.t) n s c y :
  kernel_built (MSSIMLoss.super self) ->
  (1 <= DSSIMObjective._filter_size (MSSIMLoss.super self))%Z ->
  0 < DSSIMObjective._c1 (MSSIMLoss.super self) ->
  0 < DSSIMObjective._c2 (MSSIMLoss.super self) ->
  MSSIMLoss._power_factors self <> [] ->
  shape4 n s s c y -> (0 < n)%nat ->
  (2 ^ (length (MSSIMLoss._power_factors self) - 1) <= s)%nat ->
  snd (MSSIMLoss._get_ms_ssim self y y) = Py.Ok (repeat (repeat 1 c) n).
Proof.
  intros Hbuilt Hfs Hc1 Hc2 Hpf Hy Hn Hs.
  unfold MSSIMLoss._get_ms_ssim; cbv zeta.
  rewrite (nth_1_int_shape n s s c y Hy Hn).
  set (self' := MSSIMLoss.shrink_filter self (Z.of_nat s)).
  destruct (shrink_filter_frame self (Z.of_nat s)) as [_ [E1 [E2 Epf]]].
  fold self' in E1, E2, Epf.
  pose proof (shrink_filter_size self (Z.of_nat s)) as Esize. fold self' in Esize.
  assert (Hlen : (0 < length (MSSIMLoss._power_factors self))%nat)
    by (destruct (MSSIMLoss._power_factors self); [congruence | simpl; lia]).
  replace (Z.of_nat (length (MSSIMLoss._power_factors self)) - 1)%Z
    with (Z.of_nat (length (MSSIMLoss._power_factors self) - 1)) in Esize by lia.
  rewrite smallest_size_nat in Esize.
  set (m := (length (MSSIMLoss._power_factors self) - 1)%nat) in *.
  assert (Hsmall : (1 <= s / 2 ^ m)%nat).
  { apply Nat.div_le_lower_bound; [apply Nat.pow_nonzero; lia | lia]. }
  destruct (scales_all self' (shrink_filter_built self (Z.of_nat s) Hbuilt)
              ltac:(lia) ltac:(rewrite E1; exact Hc1) ltac:(rewrite E2; exact Hc2)
              n c Hn s y) as [z' E].
  - rewrite Epf. exact Hlen.
  - exact Hy.
  - rewrite Epf. fold m. lia.
  - rewrite Epf in E. rewrite Epf, E.
    pose proof (ms_ssim_ones n c (MSSIMLoss._power_factors self) Hpf) as H.
    cbv zeta in H. cbn [snd]. f_equal. exact H.
Qed.

Lemma mssim_self (self : MSSIMLoss.t) n s c y :
  kernel_built (MSSIMLoss.super self) ->
  (1 <= DSSIMObjective._filter_size (MSSIMLoss.super self))%Z ->
  0 < DSSIMObjective._c1 (MSSIMLoss.super self) ->
  0 < DSSIMObjective._c2 (MSSIMLoss.super self) ->
  MSSIMLoss._power_factors self <> [] ->
  shape4 n s s c y -> (0 < n)%nat ->
  (2 ^ (length (MSSIMLoss._power_factors self) - 1) <= s)%nat ->
  snd (MSSIMLoss.__call__ self y y) = Py.Ok 0.
Proof.
  intros Hbuilt Hfs Hc1 Hc2 Hpf Hy Hn Hs.
  pose proof (ms_ssim_self self n s c y Hbuilt Hfs Hc1 Hc2 Hpf Hy Hn Hs) as H.
  unfold MSSIMLoss.__call__.
  destruct (MSSIMLoss._get_ms_ssim self y y) as [self' r]. cbn [snd] in *.
  subst r. cbn [Py.bind]. f_equal.
  unfold K.map_2, K.mean_all2. rewrite !map_repeat.
  apply mean1_zero, Forall_forall. intros x Hx.
  apply in_concat in Hx. destruct Hx as [row [Hrow Hx]].
  apply repeat_spec in Hrow. subst row. apply repeat_spec in Hx. subst x. lra.
Qed.

(** * The claims *)

(** ** Filter auto-shrink of [MSSIMLoss] *)

Lemma get_ms_ssim_object self y_true y_pred :
  fst (MSSIMLoss._get_ms_ssim self y_true y_pred)
  = MSSIMLoss.shrink_filter self (Z.of_nat (nth 1 (K.int_shape y_pred) 0%nat)).
Proof.
  unfold MSSIMLoss._get_ms_ssim; cbv zeta.
  destruct (fold_left _ _ _) as [[images contrasts] [ssim|]]; reflexivity.
Qed.

Lemma call_object self y_true y_pred :
  fst (MSSIMLoss.__call__ self y_true y_pred)
  = fst (MSSIMLoss._get_ms_ssim self y_true y_pred).
Proof.
  unfold MSSIMLoss.__call__.
  now destruct (MSSIMLoss._get_ms_ssim self y_true y_pred).
Qed.

(** C2.  With [m >= 1] power factors and an input of height [s], the smallest
    scale is [s] floor-divided by two [m - 1] times.  The call leaves behind an
    object whose filter size is that scale and whose kernel is rebuilt for it
    exactly when the scale is smaller than the filter size; otherwise the
    base object is the same; sigma, [c1], [c2] and the power factors never
    change. *)
Theorem C2_filter_auto_shrink (self : MSSIMLoss.t) (y_true y_pred : K.T4)
    (n s w c : nat) :
  shape4 n s w c y_pred -> (0 < n)%nat ->
  (1 <= length (MSSIMLoss._power_factors self))%nat ->
  let m := length (MSSIMLoss._power_factors self) in
  let smallest_scale := Nat.iter (m - 1) (fun x => (x / 2)%Z) (Z.of_nat s) in
  let self' := fst (MSSIMLoss.__call__ self y_true y_pred) in
  MSSIMLoss._get_smallest_size (Z.of_nat s) (Z.of_nat m - 1) = smallest_scale
  /\ ((smallest_scale < DSSIMObjective._filter_size (MSSIMLoss.super self))%Z ->
      DSSIMObjective._filter_size (MSSIMLoss.super self') = smallest_scale
      /\ DSSIMObjective._kernel (MSSIMLoss.super self')
         = DSSIMObjective._get_kernel
             (DSSIMObjective.set_filter_size (MSSIMLoss.super self) smallest_scale))
  /\ (~ (smallest_scale < DSSIMObjective._filter_size (MSSIMLoss.super self))%Z ->
      MSSIMLoss.super self' = MSSIMLoss.super self)
  /\ DSSIMObjective._filter_sigma (MSSIMLoss.super self')
     = DSSIMObjective._filter_sigma (MSSIMLoss.super self)
  /\ DSSIMObjective._c1 (MSSIMLoss.super self') = DSSIMObjective._c1 (MSSIMLoss.super self)
  /\ DSSIMObjective._c2 (MSSIMLoss.super self') = DSSIMObjective._c2 (MSSIMLoss.super self)
  /\ MSSIMLoss._power_factors self' = MSSIMLoss._power_factors self.
Proof.
  intros Hy Hn Hm m smallest_scale self'.
  assert (Esmall : MSSIMLoss._get_smallest_size (Z.of_nat s) (Z.of_nat m - 1)
                   = smallest_scale).
  { replace (Z.of_nat m - 1)%Z with (Z.of_nat (m - 1)) by (unfold m; lia).
    apply smallest_size_iter. }
  assert (Eself : self' = MSSIMLoss.shrink_filter self (Z.of_nat s)).
  { unfold self'. rewrite call_object, get_ms_ssim_object.
    now rewrite (nth_1_int_shape n s w c y_pred Hy Hn). }
  split; [exact Esmall|].
  rewrite Eself. unfold MSSIMLoss.shrink_filter; cbv zeta. fold m.
  rewrite Esmall.
  destruct (Z.ltb_spec smallest_scale
              (DSSIMObjective._filter_size (MSSIMLoss.super self))) as [Hlt|Hge].
  - split; [intros _; split; reflexivity|].
    split; [intros Hnot; contradiction|]. repeat split.
  - split; [intros Hlt; lia|].
    split; [intros _; reflexivity|]. repeat split.
Qed.

Lemma C2_filter_auto_shrink_witness :
  let self := MSSIMLoss.__init__ 0.01 0.03 11 1.5 1 MSSIMLoss.default_power_factors in
  let y := full4 0.5 1 64 64 3 in
  DSSIMObjective._filter_size (MSSIMLoss.super (fst (MSSIMLoss.__call__ self y y)))
  = 4%Z.
Proof.
  intros self y.
  destruct (C2_filter_auto_shrink self y y 1 64 64 3) as [_ [H _]].
  - unfold y, full4, full3. repeat apply sized_repeat. apply repeat_length.
  - lia.
  - simpl. lia.
  - exact (proj1 (H eq_refl)).
Defined.

(** ** [GeneralizedLoss] *)

(** C3.  For [alpha] other than 0 and 2 and [beta] other than 0, the loss of
    two tensors of one shape is the robust loss of [d = y_pred - y_true],
    [(|2 - alpha| / alpha) * (((d / beta)^2 / |2 - alpha| + 1)^(alpha / 2) - 1)],
    averaged over the channel axis and then multiplied by [beta]. *)
Theorem C3_generalized_loss_value (alpha beta : R) (n h w c : nat)
    (y_true y_pred : K.T4) :
  shape4 n h w c y_true -> shape4 n h w c y_pred ->
  alpha <> 0 -> alpha <> 2 -> beta <> 0 ->
  GeneralizedLoss.__call__ (GeneralizedLoss.__init__ alpha beta) y_true y_pred
  = robust_loss_spec alpha beta y_true y_pred.
Proof.
  intros _ _ _ _ _. apply generalized_loss_pointwise.
Qed.

Lemma C3_generalized_loss_value_witness :
  GeneralizedLoss.__call__ GeneralizedLoss.default [[[[0; 0.5]]]] [[[[1; 0.5]]]]
  = robust_loss_spec 1 (1 / 255) [[[[0; 0.5]]]] [[[[1; 0.5]]]].
Proof.
  apply (C3_generalized_loss_value 1 (1 / 255) 1 1 1 2).
  - repeat constructor.
  - repeat constructor.
  - lra.
  - lra.
  - lra.
Defined.

(** ** [GradientLoss._diff_xy] *)

(** C4.  On every batch of images with at least two rows and two columns,
    [_diff_xy] returns the tensor of the shape of its input that is zero
    everywhere: it subtracts [xy_out2] from the identical [xy_out1]. *)
Theorem C4_diff_xy_is_zero (n h w c : nat) (img : K.T4) :
  shape4 n h w c img -> (2 <= h)%nat -> (2 <= w)%nat ->
  GradientLoss._diff_xy img = full4 0 n h w c.
Proof.
  intros Himg Hh Hw. now apply diff_xy_zero.
Qed.

Lemma C4_diff_xy_is_zero_witness :
  GradientLoss._diff_xy [[[[1]; [2]; [4]]; [[8]; [16]; [32]]]] = full4 0 1 2 3 1.
Proof.
  apply C4_diff_xy_is_zero.
  - repeat constructor.
  - lia.
  - lia.
Defined.

(** ** The empty [LossWrapper] *)

(** C10.  A wrapper to which no loss was added returns the Python float
    [0.0], not a tensor, whatever the two inputs are, and stays as it is. *)
Theorem C10_empty_wrapper_returns_zero (y_true y_pred : K.T4) :
  LossWrapper.__call__ LossWrapper.__init__ y_true y_pred
  = (LossWrapper.__init__, Py.Ok (LossWrapper.PyFloat 0)).
Proof. reflexivity. Qed.

Lemma shape3_robust_loss_spec alpha beta n h w c y_true y_pred :
  shape4 n h w c y_true -> shape4 n h w c y_pred ->
  shape3 n h w (robust_loss_spec alpha beta y_true y_pred).
Proof.
  unfold robust_loss_spec. apply sized_map2. intros a b.
  apply sized_map2. intros ra rb [La _] [Lb _].
  unfold shape1. rewrite map2_length. lia.
Qed.

(** C8, as the code has it.  [GeneralizedLoss] validates nothing.  With
    [alpha] exactly 2 the call raises no exception, whatever the backend
    does with a Python number, and returns a tensor of shape [(N, H, W)].
    With [alpha] exactly 0 it returns such a tensor as well when [K.abs]
    hands a tensor to the division by [alpha], and ends with Python's
    [ZeroDivisionError] when [K.abs] hands it a number.  No other exception
    leaves the call, and none at all for another [alpha]. *)
Theorem C8_singular_alpha_is_not_rejected
    (backend : GeneralizedLoss.abs_of_number) (alpha beta : R) (n h w c : nat)
    (y_true y_pred : K.T4) :
  shape4 n h w c y_true -> shape4 n h w c y_pred ->
  let result :=
    GeneralizedLoss.call backend (GeneralizedLoss.__init__ alpha beta)
                         y_true y_pred in
  (alpha = 2 -> exists t, result = Py.Ok t /\ shape3 n h w t)
  /\ (alpha = 0 -> backend = GeneralizedLoss.AbsTensor ->
      exists t, result = Py.Ok t /\ shape3 n h w t)
  /\ (alpha = 0 -> backend = GeneralizedLoss.AbsNumber ->
      result = Py.Raise Py.ZeroDivisionError)
  /\ (forall e, result = Py.Raise e ->
        e = Py.ZeroDivisionError /\ alpha = 0
        /\ backend = GeneralizedLoss.AbsNumber).
Proof.
  intros Ht Hp result.
  assert (Hshape : shape3 n h w
            (GeneralizedLoss.__call__ (GeneralizedLoss.__init__ alpha beta)
               y_true y_pred)).
  { rewrite generalized_loss_pointwise.
    now apply shape3_robust_loss_spec with (c := c). }
  unfold result, GeneralizedLoss.call, GeneralizedLoss.factor.
  cbn [GeneralizedLoss.alpha GeneralizedLoss.__init__].
  destruct backend; [destruct (Req_dec_T alpha 0) as [E0|N0]|]; cbn [Py.bind].
  - split; [intros E2; lra|]. split; [discriminate|].
    split; [reflexivity|]. intros e H. injection H as <-. auto.
  - split; [intros _; eexists; split; [reflexivity | exact Hshape]|].
    split; [intros E0; contradiction|]. split; [intros E0; contradiction|].
    intros e H. discriminate H.
  - split; [intros _; eexists; split; [reflexivity | exact Hshape]|].
    split; [intros _ _; eexists; split; [reflexivity | exact Hshape]|].
    split; [discriminate|]. intros e H. discriminate H.
Qed.

Lemma C8_singular_alpha_is_not_rejected_witness :
  exists t,
    GeneralizedLoss.call GeneralizedLoss.AbsNumber
      (GeneralizedLoss.__init__ 2 (1 / 255)) [[[[1; 0; 0]]]] [[[[0; 0; 0]]]]
    = Py.Ok t
    /\ shape3 1 1 1 t.
Proof.
  refine (proj1 (C8_singular_alpha_is_not_rejected GeneralizedLoss.AbsNumber
                   2 (1 / 255) 1 1 1 3 [[[[1; 0; 0]]]] [[[[0; 0; 0]]]] _ _)
                eq_refl).
  - repeat constructor.
  - repeat constructor.
Defined.

(** C8, as the claim has it, fails: with [alpha = 2] the call ends with no
    exception, whichever way the backend answers [K.abs]. *)
Lemma C8_counterexample :
  (~ exists e,
       GeneralizedLoss.call GeneralizedLoss.AbsNumber
         (GeneralizedLoss.__init__ 2 (1 / 255))
         [[[[1; 0; 0]]]] [[[[0; 0; 0]]]]
       = Py.Raise e)
  /\ (~ exists e,
          GeneralizedLoss.call GeneralizedLoss.AbsTensor
            (GeneralizedLoss.__init__ 2 (1 / 255))
            [[[[1; 0; 0]]]] [[[[0; 0; 0]]]]
          = Py.Raise e).
Proof.
  split; intros [e H];
    unfold GeneralizedLoss.call, GeneralizedLoss.factor in H;
    cbn [GeneralizedLoss.alpha GeneralizedLoss.__init__] in H.
  - destruct (Req_dec_T 2 0) as [E|_]; [lra | discriminate H].
  - discriminate H.
Qed.

(** ** [GMSDLoss] and the propagation of its exception *)

Lemma run_gmsd_head functions weights mask_channels weight mask_channel
    y_true y_pred loss :
  (exists p, LossWrapper._apply_mask y_true y_pred mask_channel 1 = Py.Ok p) ->
  LossWrapper.run (LossWrapper.GMSD :: functions) (weight :: weights)
                  (mask_channel :: mask_channels) y_true y_pred loss
  = (LossWrapper.GMSD :: functions,
     Py.Raise (Py.FaceswapError GMSDLoss.message)).
Proof.
  intros [[n_true n_pred] H]. cbn [LossWrapper.run].
  unfold LossWrapper.arguments. rewrite H. reflexivity.
Qed.

Lemma run_app pre : forall wpre mpre functions weights mask_channels
    y_true y_pred loss pre' loss',
  length pre = length wpre -> length pre = length mpre ->
  LossWrapper.run pre wpre mpre y_true y_pred loss = (pre', Py.Ok loss') ->
  LossWrapper.run (pre ++ functions) (wpre ++ weights) (mpre ++ mask_channels)
                  y_true y_pred loss
  = (pre' ++ fst (LossWrapper.run functions weights mask_channels
                                  y_true y_pred loss'),
     snd (LossWrapper.run functions weights mask_channels y_true y_pred loss')).
Proof.
  induction pre as [|func pre IH];
    intros [|weight wpre] [|mc mpre] functions weights mask_channels
           y_true y_pred loss pre' loss' Hw Hm H; try discriminate.
  - simpl in H. injection H as <- <-. simpl.
    now destruct (LossWrapper.run functions weights mask_channels y_true y_pred loss).
  - simpl app. cbn [LossWrapper.run] in *.
    destruct (LossWrapper.arguments func y_true y_pred mc) as [[n_true n_pred]|e];
      [|discriminate].
    destruct (LossWrapper.call func n_true n_pred) as [func' [this_loss|e]];
      [|discriminate].
    destruct (LossWrapper.run pre wpre mpre y_true y_pred _) as [rest r] eqn:E.
    destruct r as [v|e]; [|discriminate].
    injection H as <- <-.
    rewrite (IH wpre mpre functions weights mask_channels y_true y_pred _
                rest v ltac:(simpl in Hw; lia) ltac:(simpl in Hm; lia) E).
    reflexivity.
Qed.

Lemma run_with_gmsd functions : forall weights mask_channels y_true y_pred loss,
  In LossWrapper.GMSD
     (map fst (combine functions (combine weights mask_channels))) ->
  forall v, snd (LossWrapper.run functions weights mask_channels y_true y_pred loss)
            <> Py.Ok v.
Proof.
  induction functions as [|func functions IH];
    intros [|weight weights] [|mc mask_channels] y_true y_pred loss Hin v;
    try (now destruct Hin).
  cbn [LossWrapper.run].
  destruct (LossWrapper.arguments func y_true y_pred mc) as [[n_true n_pred]|e];
    [|discriminate].
  destruct Hin as [Hin|Hin].
  - simpl in Hin. subst func. discriminate.
  - destruct (LossWrapper.call func n_true n_pred) as [func' [this_loss|e]];
      [|discriminate].
    destruct (LossWrapper.run functions weights mask_channels y_true y_pred _)
      as [rest r] eqn:E.
    cbn [snd]. intros ->.
    eapply (IH weights mask_channels y_true y_pred _ Hin).
    rewrite E. reflexivity.
Qed.

(** C9.  [GMSDLoss] raises [FaceswapError] on every input, before anything
    is computed.  When the loop of the wrapper reaches a GMSD registration
    (the registrations before it returned, and its mask was applied) the call
    of the wrapper ends with that exception; and a wrapper with a GMSD
    registration never returns a value, so no sum that leaves a registered
    loss out is ever returned. *)
Theorem C9_gmsd_unavailable :
  (forall y_true y_pred,
     GMSDLoss.__call__ y_true y_pred = Py.Raise (Py.FaceswapError GMSDLoss.message))
  /\ (forall pre wpre mpre post wpost mpost weight mask_channel
             y_true y_pred pre' loss,
        length pre = length wpre -> length pre = length mpre ->
        LossWrapper.run pre wpre mpre y_true y_pred (LossWrapper.PyFloat 0)
        = (pre', Py.Ok loss) ->
        (exists p, LossWrapper._apply_mask y_true y_pred mask_channel 1 = Py.Ok p) ->
        snd (LossWrapper.__call__
               (LossWrapper.mk (pre ++ LossWrapper.GMSD :: post)
                               (wpre ++ weight :: wpost)
                               (mpre ++ mask_channel :: mpost))
               y_true y_pred)
        = Py.Raise (Py.FaceswapError GMSDLoss.message))
  /\ (forall self y_true y_pred,
        In LossWrapper.GMSD (map fst (registrations self)) ->
        forall v, snd (LossWrapper.__call__ self y_true y_pred) <> Py.Ok v).
Proof.
  split; [reflexivity | split].
  - intros pre wpre mpre post wpost mpost weight mask_channel
           y_true y_pred pre' loss Hw Hm Hpre Hmask.
    unfold LossWrapper.__call__. cbn [LossWrapper._loss_functions
      LossWrapper._loss_weights LossWrapper._mask_channels].
    rewrite (run_app pre wpre mpre _ _ _ y_true y_pred _ pre' loss Hw Hm Hpre).
    rewrite (run_gmsd_head post wpost mpost weight mask_channel y_true y_pred
               loss Hmask).
    reflexivity.
  - intros self y_true y_pred Hin v. unfold LossWrapper.__call__.
    pose proof (run_with_gmsd (LossWrapper._loss_functions self)
                  (LossWrapper._loss_weights self)
                  (LossWrapper._mask_channels self) y_true y_pred
                  (LossWrapper.PyFloat 0) Hin v) as H.
    destruct (LossWrapper.run _ _ _ _ _ _) as [functions r]. exact H.
Qed.

Lemma C9_gmsd_unavailable_witness :
  let self :=
    LossWrapper.add_loss
      (LossWrapper.add_loss
         (LossWrapper.add_loss LossWrapper.__init__ LossWrapper.LInf 1 (-1))
         LossWrapper.GMSD 2 (-1))
      (LossWrapper.Generalized GeneralizedLoss.default) 3 (-1) in
  snd (LossWrapper.__call__ self [[[[1; 0; 0]]]] [[[[0; 0; 0]]]])
  = Py.Raise (Py.FaceswapError GMSDLoss.message).
Proof.
  intros self.
  apply (proj1 (proj2 C9_gmsd_unavailable)
           [LossWrapper.LInf] [1] [(-1)%Z]
           [LossWrapper.Generalized GeneralizedLoss.default] [3] [(-1)%Z]
           2 (-1)%Z [[[[1; 0; 0]]]] [[[[0; 0; 0]]]]
           [LossWrapper.LInf]
           (LossWrapper.iadd (LossWrapper.PyFloat 0)
              (LossWrapper.scale
                 (LossWrapper.mean_trailing
                    (LossWrapper.Rank3
                       (LInfNorm.__call__
                          (K.slice_last None (Some 3%Z) [[[[1; 0; 0]]]])
                          (K.slice_last None (Some 3%Z) [[[[0; 0; 0]]]]))))
                 1))).
  - reflexivity.
  - reflexivity.
  - reflexivity.
  - eexists. reflexivity.
Defined.

(** ** Masking in [LossWrapper] *)

Lemma slice_upto_3 {A} (l : list A) : Py.slice None (Some 3%Z) l = firstn 3 l.
Proof.
  unfold Py.slice, Py.norm_idx. cbn [Z.ltb Z.compare]. rewrite Z.sub_0_r.
  cbn [Z.to_nat skipn].
  destruct (Z.min_spec 3 (Z.of_nat (length l))) as [[H E]|[H E]]; rewrite E.
  - reflexivity.
  - rewrite Nat2Z.id. rewrite !firstn_all2; auto; lia.
Qed.

Lemma index_in_range (c : nat) (i : Z) (l : list R) :
  length l = c -> (- Z.of_nat c <= i < Z.of_nat c)%Z ->
  Py.index i l = Py.Ok (nth (channel_position c i) l 0).
Proof.
  intros Hl Hi. unfold Py.index, channel_position. rewrite Hl.
  set (j := if (i <? 0)%Z then (i + Z.of_nat c)%Z else i).
  assert (Hj : (0 <= j < Z.of_nat c)%Z)
    by (unfold j; destruct (Z.ltb_spec i 0); lia).
  destruct (Z.leb_spec 0 j); [|lia]. destruct (Z.ltb_spec j (Z.of_nat c)); [|lia].
  cbn [andb].
  destruct (nth_error l (Z.to_nat j)) as [a|] eqn:E.
  - now rewrite (nth_error_nth _ _ _ E).
  - apply nth_error_None in E. lia.
Qed.

Lemma sequence_map {A B} (f : A -> Py.result B) (g : A -> B) (l : list A) :
  Forall (fun x => f x = Py.Ok (g x)) l ->
  Py.sequence (map f l) = Py.Ok (map g l).
Proof.
  induction 1 as [|x l Hx _ IH]; [reflexivity|].
  simpl. rewrite Hx. simpl. rewrite IH. reflexivity.
Qed.

Lemma index_last_in_range (n h w c : nat) (i : Z) (y : K.T4) :
  shape4 n h w c y -> (- Z.of_nat c <= i < Z.of_nat c)%Z ->
  K.index_last i y
  = Py.Ok (map (map (map (fun p => nth (channel_position c i) p 0))) y).
Proof.
  intros [_ Hy] Hi. unfold K.index_last.
  apply sequence_map. eapply Forall_impl; [|exact Hy]. intros im [_ Him].
  apply sequence_map. eapply Forall_impl; [|exact Him]. intros row [_ Hrow].
  apply sequence_map. eapply Forall_impl; [|exact Hrow]. intros p Hp.
  now apply index_in_range.
Qed.

Lemma map2_map_map {A B C D E} (f : C -> D -> E) (g : A -> C) (k : B -> D) l m :
  Py.map2 f (map g l) (map k m) = Py.map2 (fun a b => f (g a) (k b)) l m.
Proof.
  revert m; induction l as [|a l IH]; intros [|b m]; simpl; auto.
  now rewrite IH.
Qed.

Lemma masked_pixel_eq (m : R) (p : list R) :
  Py.map2 Rmult (Py.slice None (Some 3%Z) p)
          (map (fun x => x + (1 - 1)) (map (fun x => x * 1) (concat (repeat [m] 3))))
  = masked_pixel m p.
Proof.
  rewrite slice_upto_3. unfold masked_pixel. simpl concat. simpl map at 2 3.
  destruct p as [|a [|b [|c p]]]; simpl; repeat f_equal; ring.
Qed.

Lemma apply_mask_unmasked (y_true y_pred : K.T4) :
  LossWrapper._apply_mask y_true y_pred (-1) 1
  = Py.Ok (map (map (map (firstn 3))) y_true, map (map (map (firstn 3))) y_pred).
Proof.
  unfold LossWrapper._apply_mask. cbn [Z.eqb Pos.eqb].
  unfold K.slice_last. do 2 f_equal;
    repeat (apply map_ext; intros ?); apply slice_upto_3.
Qed.

Lemma apply_mask_masked (n h w ct : nat) (y_true y_pred : K.T4) (mask_channel : Z) :
  shape4 n h w ct y_true ->
  mask_channel <> (-1)%Z ->
  (- Z.of_nat ct <= mask_channel < Z.of_nat ct)%Z ->
  let i := channel_position ct mask_channel in
  LossWrapper._apply_mask y_true y_pred mask_channel 1
  = Py.Ok (map (map (map (fun t => masked_pixel (nth i t 0) t))) y_true,
           Py.map2 (Py.map2 (Py.map2
             (fun t p => masked_pixel (nth i t 0) p))) y_true y_pred).
Proof.
  intros Ht Hmc Hrange i. unfold LossWrapper._apply_mask.
  destruct (Z.eqb_spec mask_channel (-1)); [contradiction|].
  rewrite (index_last_in_range n h w ct mask_channel y_true Ht Hrange).
  cbn [Py.bind]. fold i.
  unfold K.mul4, K.zip_4, K.zip_3, K.zip_2, K.zip_1, K.slice_last,
    K.tile_axis3, K.expand_dims3, K.map_4, K.map_3, K.map_2.
  do 2 f_equal.
  - rewrite !map_map, map2_map_same. apply map_ext. intros im.
    rewrite !map_map, map2_map_same. apply map_ext. intros row.
    rewrite !map_map, map2_map_same. apply map_ext. intros t.
    apply masked_pixel_eq.
  - rewrite !map_map, map2_map_map, map2_flip. apply map2_ext. intros im1 im2.
    rewrite !map_map, map2_map_map, map2_flip. apply map2_ext. intros r1 r2.
    rewrite !map_map, map2_map_map, map2_flip. apply map2_ext. intros t p.
    apply masked_pixel_eq.
Qed.

(** *** [K.reshape] to the shape a tensor already has *)

Lemma chunk_concat {A} (rows : list (list A)) k :
  Forall (fun r => length r = k) rows ->
  K.chunk (length rows) k (concat rows) = rows.
Proof.
  induction 1 as [|r rows Hr _ IH]; [reflexivity|].
  unfold K.chunk in *. simpl length. rewrite <- cons_seq, <- seq_shift.
  simpl map at 1. f_equal.
  - simpl. rewrite firstn_app, firstn_all2, Hr, Nat.sub_diag by lia.
    simpl. apply app_nil_r.
  - rewrite map_map. rewrite <- IH at 2. apply map_ext. intros i.
    simpl concat. rewrite skipn_app, skipn_all2 by (rewrite Hr; simpl; lia).
    rewrite Hr. simpl. do 2 f_equal. lia.
Qed.

Lemma sized_concat {A} (P : A -> Prop) (n k : nat) (rows : list (list A)) :
  sized (sized P k) n rows -> sized P (n * k) (concat rows).
Proof.
  intros [Hn Hrows]. split.
  - rewrite (concat_rows_length rows k), Hn; [reflexivity|].
    eapply Forall_impl; [|exact Hrows]. now intros r [Hr _].
  - apply Forall_concat. eapply Forall_impl; [|exact Hrows]. now intros r [_ Hr].
Qed.

Lemma reshape_same_shape (n h w c : nat) (t : K.T4) :
  shape4 n h w c t -> K.reshape t [n; h; w; c] = Py.Ok t.
Proof.
  intros Ht. unfold K.reshape.
  pose proof (sized_concat _ n h t Ht) as H1.
  pose proof (sized_concat _ (n * h) w _ H1) as H2.
  destruct H2 as [L2 F2].
  rewrite (concat_rows_length _ c F2), L2, Nat.eqb_refl. f_equal.
  rewrite <- L2 at 1.
  rewrite chunk_concat by exact F2.
  destruct H1 as [L1 F1]. rewrite <- L1 at 1.
  rewrite chunk_concat by (eapply Forall_impl; [|exact F1]; now intros r [Hr _]).
  destruct Ht as [L0 F0]. rewrite <- L0 at 1.
  apply chunk_concat. eapply Forall_impl; [|exact F0]. now intros r [Hr _].
Qed.

Lemma int_shape_of (n h w c : nat) (y : K.T4) :
  shape4 n h w c y -> (0 < n)%nat -> (0 < h)%nat -> (0 < w)%nat ->
  K.int_shape y = [n; h; w; c].
Proof.
  intros Hy Hn Hh Hw. unfold K.int_shape.
  pose proof (sized_hd _ _ _ [] Hy Hn) as H1.
  pose proof (sized_hd _ _ _ [] H1 Hh) as H2.
  pose proof (sized_hd _ _ _ [] H2 Hw) as H3.
  destruct Hy as [-> _], H1 as [-> _], H2 as [-> _]. now rewrite H3.
Qed.

Lemma reshape_masked_prediction (n h w cp : nat) (y_pred n_pred n_pred' : K.T4) :
  shape4 n h w cp y_pred -> shape4 n h w 3 n_pred ->
  (0 < n)%nat -> (0 < h)%nat -> (0 < w)%nat ->
  K.reshape n_pred (K.int_shape y_pred) = Py.Ok n_pred' -> n_pred' = n_pred.
Proof.
  intros Hy Hp Hn Hh Hw H.
  rewrite (int_shape_of n h w cp y_pred Hy Hn Hh Hw) in H.
  assert (Ecp : cp = 3%nat).
  { unfold K.reshape in H.
    pose proof (sized_concat _ n h _ Hp) as H1.
    pose proof (sized_concat _ (n * h) w _ H1) as [L2 F2].
    rewrite (concat_rows_length _ 3 F2), L2 in H.
    destruct (Nat.eqb_spec (n * h * w * 3) (n * h * w * cp)) as [E|]; [|discriminate].
    nia. }
  subst cp. rewrite (reshape_same_shape n h w 3 n_pred Hp) in H.
  now injection H.
Qed.

Lemma shape4_first_three (n h w c : nat) (y : K.T4) :
  shape4 n h w c y -> (3 <= c)%nat -> shape4 n h w 3 (map (map (map (firstn 3))) y).
Proof.
  intros Hy Hc. revert Hy. apply sized_map. intros im. apply sized_map. intros row.
  apply sized_map. intros p Hp. unfold shape1 in *. rewrite length_firstn. lia.
Qed.

Lemma shape4_masked_prediction (n h w ct cp : nat) (i : nat) (y_true y_pred : K.T4) :
  shape4 n h w ct y_true -> shape4 n h w cp y_pred -> (3 <= cp)%nat ->
  shape4 n h w 3
    (Py.map2 (Py.map2 (Py.map2 (fun t p => masked_pixel (nth i t 0) p)))
             y_true y_pred).
Proof.
  intros Ht Hp Hc. revert Ht Hp. apply sized_map2. intros a b.
  apply sized_map2. intros ra rb. apply sized_map2. intros t p _ Hlen.
  unfold shape1, masked_pixel in *. rewrite length_map, length_firstn. lia.
Qed.

(** C6.  For a reference and a prediction with at least three channels:
    with [mask_channel = -1] the masked pair is the first three channels of
    each tensor, unchanged; with another channel of the reference tensor it
    is the first three channels of each tensor multiplied, pixel by pixel, by
    that channel of the reference tensor, so the prediction contributes its
    first three channels and nothing else.  Whenever the loop of the wrapper
    calls a registered loss, it calls it on exactly this pair. *)
Theorem C6_apply_mask (n h w ct cp : nat) (y_true y_pred : K.T4) (mask_channel : Z) :
  shape4 n h w ct y_true -> shape4 n h w cp y_pred ->
  (0 < n)%nat -> (0 < h)%nat -> (0 < w)%nat ->
  (3 <= ct)%nat -> (3 <= cp)%nat ->
  (mask_channel = (-1)%Z ->
   LossWrapper._apply_mask y_true y_pred mask_channel 1
   = Py.Ok (map (map (map (firstn 3))) y_true, map (map (map (firstn 3))) y_pred))
  /\ (mask_channel <> (-1)%Z ->
      (- Z.of_nat ct <= mask_channel < Z.of_nat ct)%Z ->
      let i := channel_position ct mask_channel in
      LossWrapper._apply_mask y_true y_pred mask_channel 1
      = Py.Ok (map (map (map (fun t => masked_pixel (nth i t 0) t))) y_true,
               Py.map2 (Py.map2 (Py.map2
                 (fun t p => masked_pixel (nth i t 0) p))) y_true y_pred))
  /\ ((mask_channel = (-1)%Z
       \/ (- Z.of_nat ct <= mask_channel < Z.of_nat ct)%Z) ->
      forall func n_true n_pred,
        LossWrapper.arguments func y_true y_pred mask_channel
        = Py.Ok (n_true, n_pred) ->
        LossWrapper._apply_mask y_true y_pred mask_channel 1
        = Py.Ok (n_true, n_pred)).
Proof.
  intros Ht Hp Hn Hh Hw Hct Hcp. split; [|split].
  - intros ->. apply apply_mask_unmasked.
  - intros Hmc Hrange. now apply apply_mask_masked with (n := n) (h := h) (w := w).
  - intros Hmc func n_true n_pred. unfold LossWrapper.arguments.
    assert (Hshape : forall a b,
              LossWrapper._apply_mask y_true y_pred mask_channel 1 = Py.Ok (a, b) ->
              shape4 n h w 3 b).
    { intros a b E. destruct (Z.eq_dec mask_channel (-1)) as [->|Hne].
      - rewrite apply_mask_unmasked in E. injection E as _ <-.
        now apply shape4_first_three with (c := cp).
      - destruct Hmc as [Hmc|Hrange]; [contradiction|].
        rewrite (apply_mask_masked n h w ct y_true y_pred mask_channel
                   Ht Hne Hrange) in E.
        injection E as _ <-.
        now apply shape4_masked_prediction with (ct := ct) (cp := cp). }
    destruct (LossWrapper._apply_mask y_true y_pred mask_channel 1)
      as [[a b]|e]; [|discriminate].
    cbn [Py.bind]. specialize (Hshape a b eq_refl).
    destruct (LossWrapper.isinstance_DSSIMObjective func).
    + destruct (K.reshape b (K.int_shape y_pred)) as [b'|e] eqn:E; [|discriminate].
      cbn [Py.bind]. intros H. injection H as <- <-.
      now rewrite (reshape_masked_prediction n h w cp y_pred b b' Hp Hshape Hn Hh Hw E).
    + cbn [Py.bind]. intros H. now injection H as <- <-.
Qed.

Lemma C6_apply_mask_witness :
  LossWrapper._apply_mask [[[[0.2; 0.4; 0.6; 0.5]]]] [[[[1; 1; 1]]]] 3 1
  = Py.Ok ([[[masked_pixel 0.5 [0.2; 0.4; 0.6; 0.5]]]],
           [[[masked_pixel 0.5 [1; 1; 1]]]]).
Proof.
  apply (proj1 (proj2
           (C6_apply_mask 1 1 1 4 3 [[[[0.2; 0.4; 0.6; 0.5]]]] [[[[1; 1; 1]]]] 3
              ltac:(repeat constructor) ltac:(repeat constructor)
              ltac:(lia) ltac:(lia) ltac:(lia) ltac:(lia) ltac:(lia)))).
  - discriminate.
  - simpl. lia.
Defined.

(** ** Self-similarity *)

Lemma init_built k_1 k_2 filter_size filter_sigma max_value :
  kernel_built (DSSIMObjective.__init__ k_1 k_2 filter_size filter_sigma max_value).
Proof. reflexivity. Qed.

Lemma init_c1_pos k_1 k_2 filter_size filter_sigma max_value :
  k_1 * max_value <> 0 ->
  0 < DSSIMObjective._c1
        (DSSIMObjective.__init__ k_1 k_2 filter_size filter_sigma max_value).
Proof. intros H. simpl. now apply Rsqr_pos_lt. Qed.

Lemma init_c2_pos k_1 k_2 filter_size filter_sigma max_value :
  k_2 * max_value <> 0 ->
  0 < DSSIMObjective._c2
        (DSSIMObjective.__init__ k_1 k_2 filter_size filter_sigma max_value).
Proof. intros H. simpl. rewrite Rmult_1_r. now apply Rsqr_pos_lt. Qed.

(** C7.  In exact arithmetic every loss of a tensor [y] with itself is zero:
    DSSIM and MS-SSIM (the single value 0), GeneralizedLoss and
    GradientLoss (zero at every position of [(N, H, W)]) and LInfNorm (zero
    at every position of [(N, 1, 1)]).  The shape is admissible when the
    batch and the channels are not empty and there are at least two rows and
    two columns; for the SSIM family the filter must fit into the image
    and, for MS-SSIM, the square image must leave at least one pixel at the
    smallest scale. *)
Theorem C7_self_similarity (n h w c : nat) (y : K.T4) :
  shape4 n h w c y ->
  (0 < n)%nat -> (0 < c)%nat -> (2 <= h)%nat -> (2 <= w)%nat ->
  (forall k_1 k_2 filter_size filter_sigma max_value,
     k_1 * max_value <> 0 -> k_2 * max_value <> 0 -> filter_sigma <> 0 ->
     (1 <= filter_size <= Z.of_nat h)%Z -> (filter_size <= Z.of_nat w)%Z ->
     DSSIMObjective.__call__
       (DSSIMObjective.__init__ k_1 k_2 filter_size filter_sigma max_value) y y
     = 0)
  /\ (forall k_1 k_2 filter_size filter_sigma max_value power_factors,
        k_1 * max_value <> 0 -> k_2 * max_value <> 0 -> filter_sigma <> 0 ->
        (1 <= filter_size)%Z -> power_factors <> [] ->
        h = w -> (2 ^ (length power_factors - 1) <= h)%nat ->
        snd (MSSIMLoss.__call__
               (MSSIMLoss.__init__ k_1 k_2 filter_size filter_sigma max_value
                                   power_factors) y y)
        = Py.Ok 0)
  /\ (forall alpha beta,
        alpha <> 0 -> alpha <> 2 -> beta <> 0 ->
        GeneralizedLoss.__call__ (GeneralizedLoss.__init__ alpha beta) y y
        = full3 0 n h w)
  /\ LInfNorm.__call__ y y = full3 0 n 1 1
  /\ GradientLoss.__call__ GradientLoss.__init__ y y = full3 0 n h w.
Proof.
  intros Hy Hn Hc Hh Hw. split; [|split; [|split; [|split]]].
  - intros k_1 k_2 filter_size filter_sigma max_value H1 H2 _ Hfs Hfw.
    apply (dssim_self _ (init_built _ _ _ _ _)) with (n := n) (h := h) (w := w) (c := c);
      auto using init_c1_pos, init_c2_pos; simpl; lia.
  - intros k_1 k_2 filter_size filter_sigma max_value power_factors
           H1 H2 _ Hfs Hpf Hsq Hsmall. subst w.
    apply mssim_self with (n := n) (s := h) (c := c); auto.
    + apply init_built.
    + now apply init_c1_pos.
    + now apply init_c2_pos.
  - intros alpha beta _ _ _. now apply generalized_loss_self with (c := c).
  - apply linf_self with (h := h) (w := w) (c := c); auto; lia.
  - now apply gradient_self with (c := c).
Qed.

Lemma C7_self_similarity_witness :
  let y := [[[[0.1; 0.9]; [0.5; 0.3]]; [[0.7; 0.2]; [0.4; 0.8]]]] in
  DSSIMObjective.__call__ (DSSIMObjective.__init__ 0.01 0.03 2 1.5 1) y y = 0
  /\ snd (MSSIMLoss.__call__
            (MSSIMLoss.__init__ 0.01 0.03 11 1.5 1 [0.5; 0.5]) y y) = Py.Ok 0
  /\ GeneralizedLoss.__call__ GeneralizedLoss.default y y = full3 0 1 2 2
  /\ LInfNorm.__call__ y y = full3 0 1 1 1
  /\ GradientLoss.__call__ GradientLoss.__init__ y y = full3 0 1 2 2.
Proof.
  intros y.
  destruct (C7_self_similarity 1 2 2 2 y) as [D [M [G [L T]]]].
  - repeat constructor.
  - lia.
  - lia.
  - lia.
  - lia.
  - split; [|split; [|split; [|split]]].
    + apply D; try lra; lia.
    + apply M; try lra; try lia; try discriminate. simpl. lia.
    + apply G; lra.
    + exact L.
    + exact T.
Defined.

(** ** [MSSIMLoss] with one power factor *)

Lemma shrink_filter_fits self im_size :
  (1 <= length (MSSIMLoss._power_factors self))%nat ->
  DSSIMObjective._filter_size (MSSIMLoss.super self)
  = MSSIMLoss._get_smallest_size im_size
      (Z.of_nat (length (MSSIMLoss._power_factors self)) - 1)
  \/ (DSSIMObjective._filter_size (MSSIMLoss.super self)
      < MSSIMLoss._get_smallest_size im_size
          (Z.of_nat (length (MSSIMLoss._power_factors self)) - 1))%Z ->
  MSSIMLoss.shrink_filter self im_size = self.
Proof.
  intros _ H. unfold MSSIMLoss.shrink_filter; cbv zeta.
  destruct (Z.ltb_spec
              (MSSIMLoss._get_smallest_size im_size
                 (Z.of_nat (length (MSSIMLoss._power_factors self)) - 1))
              (DSSIMObjective._filter_size (MSSIMLoss.super self))); [lia|].
  reflexivity.
Qed.

Lemma single_scale_score (self : MSSIMLoss.t) (w : R) (n s c : nat)
    (y_true y_pred : K.T4) :
  MSSIMLoss._power_factors self = [w] ->
  shape4 n s s c y_pred -> (0 < n)%nat ->
  let self' := MSSIMLoss.shrink_filter self (Z.of_nat s) in
  MSSIMLoss._get_ms_ssim self y_true y_pred
  = (self',
     Py.Ok (K.map_2 (fun x => K.pow1 (K.relu1 x) w)
              (fst (DSSIMObjective._get_ssim (MSSIMLoss.super self')
                      y_true y_pred)))).
Proof.
  intros Hpf Hp Hn self'.
  unfold MSSIMLoss._get_ms_ssim; cbv zeta.
  rewrite (nth_1_int_shape n s s c y_pred Hp Hn). fold self'.
  assert (Epf : MSSIMLoss._power_factors self' = [w]).
  { destruct (shrink_filter_frame self (Z.of_nat s)) as [_ [_ [_ H]]].
    unfold self'. now rewrite H. }
  rewrite Hpf, Epf.
  cbn [length seq fold_left MSSIMLoss.scale_step fst snd Nat.ltb Nat.leb].
  destruct (DSSIMObjective._get_ssim (MSSIMLoss.super self') y_true y_pred)
    as [ssim0 contrast0] eqn:Es.
  change (Z.of_nat 0 <? Z.of_nat 1 - 1)%Z with false.
  cbn [app Nat.sub seq fold_left fst].
  f_equal. f_equal.
  unfold K.concatenate_last3, K.concatenate_with; cbn [fold_left].
  unfold K.map_3, K.map_2, K.expand_dims2.
  rewrite !map_map. apply map_ext. intros row.
  rewrite !map_map. apply map_ext. intros x. reflexivity.
Qed.

(** C5, as the code has it.  With the one power factor [w] nothing is
    downsampled: the score is the SSIM of the pair itself, computed with the
    filter as the auto-shrink leaves it (unchanged when the filter fits into
    the image), clamped at zero from below and then raised to the power
    [w]; the loss is the mean of one minus the score.  Where no SSIM value is
    negative the score is the SSIM raised to the power [w]. *)
Theorem C5_single_scale (self : MSSIMLoss.t) (w : R) (n s c : nat)
    (y_true y_pred : K.T4) :
  MSSIMLoss._power_factors self = [w] ->
  shape4 n s s c y_true -> shape4 n s s c y_pred -> (0 < n)%nat ->
  let self' := MSSIMLoss.shrink_filter self (Z.of_nat s) in
  let ssim := fst (DSSIMObjective._get_ssim (MSSIMLoss.super self') y_true y_pred) in
  let score := K.map_2 (fun x => K.pow1 (K.relu1 x) w) ssim in
  MSSIMLoss._get_ms_ssim self y_true y_pred = (self', Py.Ok score)
  /\ MSSIMLoss.__call__ self y_true y_pred
     = (self', Py.Ok (K.mean_all2 (K.map_2 (fun x => 1 - x) score)))
  /\ ((DSSIMObjective._filter_size (MSSIMLoss.super self) <= Z.of_nat s)%Z ->
      self' = self)
  /\ (Forall (Forall (fun x => 0 <= x)) ssim ->
      score = ssim_pow (MSSIMLoss.super self') w y_true y_pred).
Proof.
  intros Hpf Ht Hp Hn self' ssim score.
  pose proof (single_scale_score self w n s c y_true y_pred Hpf Hp Hn) as E.
  cbv zeta in E. fold self' ssim score in E.
  split; [exact E|]. split.
  - unfold MSSIMLoss.__call__. rewrite E. reflexivity.
  - split.
    + intros Hfit. unfold self'. apply shrink_filter_fits.
      * rewrite Hpf. simpl. lia.
      * rewrite Hpf. simpl length.
        rewrite smallest_size_stop by lia. lia.
    + intros Hpos. unfold score, ssim_pow. fold ssim. unfold K.map_2.
      apply map_ext_in. intros row Hrow.
      apply map_ext_in. intros x Hx. f_equal.
      rewrite Forall_forall in Hpos. specialize (Hpos row Hrow).
      rewrite Forall_forall in Hpos. specialize (Hpos x Hx).
      unfold K.relu1. now apply Rmax_left.
Qed.

(** ** The checkerboard batch *)

Lemma kernel_of_size_2 sigma c1 c2 ker :
  DSSIMObjective._get_kernel (DSSIMObjective.mk 2 sigma ker c1 c2)
  = [[[[1 / 4]]; [[1 / 4]]]; [[[1 / 4]]; [[1 / 4]]]].
Proof.
  unfold DSSIMObjective._get_kernel. cbv zeta.
  cbn [DSSIMObjective._filter_size DSSIMObjective._filter_sigma Z.to_nat].
  change (Pos.to_nat 2) with 2%nat.
  unfold K.softmax, K.chunk, K.sum, K.big_sum.
  cbn [map fold_right seq firstn skipn Nat.mul Nat.add concat app INR].
  replace (Rsqr (1 - (2 - 1) / 2)) with (Rsqr (0 - (2 - 1) / 2))
    by (unfold Rsqr; lra).
  set (e := exp _).
  assert (He : e <> 0) by apply exp_neq_0.
  assert (E4 : e / (e + (e + (e + (e + 0)))) = 1 / 4) by (field; lra).
  rewrite !E4. reflexivity.
Qed.

(** The first sample is reproduced exactly; the second one is inverted, and
    its structural similarity is negative. *)
Lemma example_ssim :
  fst (DSSIMObjective._get_ssim example_dssim example_true example_pred)
  = [[1]; [- 4991 / 5009]].
Proof.
  unfold example_dssim, DSSIMObjective.__init__. cbv zeta.
  cbn [DSSIMObjective._filter_size DSSIMObjective._filter_sigma
       DSSIMObjective._kernel DSSIMObjective.set_kernel].
  rewrite kernel_of_size_2.
  unfold DSSIMObjective._get_ssim, example_true, example_pred, checker, anti_checker.
  cbv zeta. simpl.
  unfold K.mean1, K.channel, K.conv_at, K.sum, K.big_sum, K.px, K.kel,
    K.zip_3, K.zip_2, K.zip_1.
  simpl.
  replace 0.01 with (1 / 100) by lra. replace 0.03 with (3 / 100) by lra.
  unfold Rsqr.
  f_equal; [|f_equal]; apply (f_equal (fun x => [x])); field.
Qed.

Lemma example_shape : shape4 2 2 2 1 example_true /\ shape4 2 2 2 1 example_pred.
Proof. split; repeat constructor. Qed.

(** ** The value returned by [DSSIMObjective] *)

Lemma sum_concat (rows : list (list R)) :
  K.sum (concat rows) = K.sum (map K.sum rows).
Proof.
  induction rows as [|r rows IH]; [reflexivity|].
  simpl concat. rewrite sum_app, IH.
  change (map K.sum (r :: rows)) with ([K.sum r] ++ map K.sum rows).
  rewrite sum_app. f_equal. unfold K.sum, K.big_sum. simpl. ring.
Qed.

Lemma mean_of_means (n c : nat) (rows : list (list R)) :
  shape2 n c rows -> (0 < n)%nat -> (0 < c)%nat ->
  K.mean1 (concat rows) = K.mean1 (map K.mean1 rows).
Proof.
  intros [Hn Hrows] Hpn Hpc. unfold K.mean1 at 1 2.
  rewrite sum_concat, (concat_rows_length rows c Hrows), length_map, Hn, mult_INR.
  assert (E : K.sum (map K.mean1 rows) = K.sum (map K.sum rows) / INR c).
  { rewrite !sum_map_big_sum. unfold Rdiv.
    rewrite Rmult_comm, <- big_sum_scal.
    apply big_sum_ext. intros r Hr.
    rewrite Forall_forall in Hrows. unfold K.mean1, Rdiv.
    rewrite (Hrows r Hr). ring. }
  rewrite E. field. split; apply not_0_INR; lia.
Qed.

Lemma tile_axis2_length ker channels :
  length (K.tile_axis2 ker channels) = length ker.
Proof. unfold K.tile_axis2. apply length_map. Qed.

Lemma tile_axis2_width ker channels :
  length (hd [] (K.tile_axis2 ker channels)) = length (hd [] ker).
Proof.
  unfold K.tile_axis2. rewrite hd_map_nil by reflexivity. apply length_map.
Qed.

Lemma shape4_depthwise_conv2d n h w c y ker :
  shape4 n h w c y -> (0 < h)%nat -> (0 < w)%nat ->
  shape4 n (h + 1 - length ker) (w + 1 - length (hd [] ker)) c
         (K.depthwise_conv2d y ker).
Proof.
  intros Hy Hh Hw. revert Hy. apply sized_map. intros im Him.
  rewrite (shape3_width h w c im Him Hh), (shape3_channels h w c im Him Hh Hw).
  destruct Him as [L _]. rewrite L.
  split; [now rewrite length_map, length_seq|].
  apply Forall_map, Forall_forall. intros i _.
  split; [now rewrite length_map, length_seq|].
  apply Forall_map, Forall_forall. intros j _.
  unfold shape1. now rewrite length_map, length_seq.
Qed.

Lemma shape2_mean_hw n h w c t :
  shape4 n h w c t -> (0 < h)%nat -> (0 < w)%nat -> shape2 n c (K.mean_hw t).
Proof.
  intros Ht Hh Hw. revert Ht. apply sized_map. intros im Him.
  unfold shape1. rewrite length_map, length_seq.
  now apply (shape3_channels h w c).
Qed.

Lemma shape2_get_ssim self n h w c y_true y_pred :
  shape4 n h w c y_true -> shape4 n h w c y_pred ->
  (1 <= length (DSSIMObjective._kernel self) <= h)%nat ->
  (1 <= length (hd [] (DSSIMObjective._kernel self)) <= w)%nat ->
  shape2 n c (fst (DSSIMObjective._get_ssim self y_true y_pred))
  /\ shape2 n c (snd (DSSIMObjective._get_ssim self y_true y_pred)).
Proof.
  intros Ht Hp Hkh Hkw.
  unfold DSSIMObjective._get_ssim; cbv zeta. cbn [fst snd].
  unfold DSSIMObjective._depthwise_conv2d.
  set (kernel := K.tile_axis2 _ _).
  assert (Hconv : forall y, shape4 n h w c y ->
            shape4 n (h + 1 - length (DSSIMObjective._kernel self))
                   (w + 1 - length (hd [] (DSSIMObjective._kernel self))) c
                   (K.depthwise_conv2d y kernel)).
  { intros y Hy. unfold kernel.
    rewrite <- (tile_axis2_length (DSSIMObjective._kernel self)
                  (last (K.int_shape y_pred) 0%nat)).
    rewrite <- (tile_axis2_width (DSSIMObjective._kernel self)
                  (last (K.int_shape y_pred) 0%nat)).
    apply shape4_depthwise_conv2d; auto; lia. }
  unfold K.mul4, K.add4, K.sub4, K.div4, K.square.
  split; apply (shape2_mean_hw n
                  (h + 1 - length (DSSIMObjective._kernel self))
                  (w + 1 - length (hd [] (DSSIMObjective._kernel self))) c);
    try lia;
    repeat first [ apply shape4_zip | apply shape4_map | apply Hconv ];
    assumption.
Qed.

Lemma dssim_call_mean_of_samples self n c y_true y_pred :
  shape2 n c (fst (DSSIMObjective._get_ssim self y_true y_pred)) ->
  (0 < n)%nat -> (0 < c)%nat ->
  DSSIMObjective.__call__ self y_true y_pred
  = K.mean1 (dssim_per_sample self y_true y_pred).
Proof.
  intros Hs Hn Hc. unfold DSSIMObjective.__call__, dssim_per_sample; cbv zeta.
  unfold K.mean_all2, K.map_2.
  rewrite (mean_of_means n c); auto.
  - now rewrite map_map.
  - revert Hs. apply sized_map. intros row Hrow.
    unfold shape1 in *. now rewrite length_map.
Qed.

(** C1, as the code has it.  The SSIM map and the contrast map are averaged
    over the two spatial axes, which leaves one value per sample and channel,
    shape [(N, C)].  [__call__] then takes the mean of [(1 - ssim) / 2] over
    all of them, samples and channels alike: it returns one number for the
    batch, the mean over the samples of the per-sample channel means. *)
Theorem C1_dssim_value (self : DSSIMObjective.t) (n h w c : nat)
    (y_true y_pred : K.T4) :
  shape4 n h w c y_true -> shape4 n h w c y_pred ->
  (0 < n)%nat -> (0 < c)%nat ->
  (1 <= length (DSSIMObjective._kernel self) <= h)%nat ->
  (1 <= length (hd [] (DSSIMObjective._kernel self)) <= w)%nat ->
  shape2 n c (fst (DSSIMObjective._get_ssim self y_true y_pred))
  /\ shape2 n c (snd (DSSIMObjective._get_ssim self y_true y_pred))
  /\ DSSIMObjective.__call__ self y_true y_pred
     = K.mean1 (dssim_per_sample self y_true y_pred).
Proof.
  intros Ht Hp Hn Hc Hkh Hkw.
  destruct (shape2_get_ssim self n h w c y_true y_pred Ht Hp Hkh Hkw) as [Hs Hcn].
  split; [exact Hs|]. split; [exact Hcn|].
  now apply dssim_call_mean_of_samples with (n := n) (c := c).
Qed.

Lemma example_kernel :
  DSSIMObjective._kernel example_dssim
  = [[[[1 / 4]]; [[1 / 4]]]; [[[1 / 4]]; [[1 / 4]]]].
Proof.
  unfold example_dssim, DSSIMObjective.__init__. cbv zeta.
  cbn [DSSIMObjective._filter_size DSSIMObjective._filter_sigma
       DSSIMObjective._kernel DSSIMObjective.set_kernel].
  apply kernel_of_size_2.
Qed.

Lemma C1_dssim_value_witness :
  DSSIMObjective.__call__ example_dssim example_true example_pred
  = K.mean1 (dssim_per_sample example_dssim example_true example_pred).
Proof.
  apply (C1_dssim_value example_dssim 2 2 2 1 example_true example_pred).
  - apply example_shape.
  - apply example_shape.
  - lia.
  - lia.
  - rewrite example_kernel. simpl. lia.
  - rewrite example_kernel. simpl. lia.
Defined.

Lemma example_per_sample :
  dssim_per_sample example_dssim example_true example_pred = [0; 5000 / 5009].
Proof.
  unfold dssim_per_sample. rewrite example_ssim.
  unfold K.mean1, K.sum, K.big_sum. simpl.
  f_equal; [|f_equal]; field.
Qed.

Lemma example_dssim_call :
  DSSIMObjective.__call__ example_dssim example_true example_pred = 2500 / 5009.
Proof.
  unfold DSSIMObjective.__call__; cbv zeta. rewrite example_ssim.
  unfold K.mean_all2, K.map_2, K.mean1, K.sum, K.big_sum. simpl. field.
Qed.

(** C1, as the claim has it, fails on the checkerboard batch: the per-sample
    channel means of [(1 - ssim) / 2] are [0] and [5000/5009], while
    [__call__] returns the single number [2500/5009], which is neither. *)
Lemma C1_counterexample :
  dssim_per_sample example_dssim example_true example_pred = [0; 5000 / 5009]
  /\ snd (LossWrapper.call (LossWrapper.DSSIM example_dssim)
                           example_true example_pred)
     = Py.Ok (LossWrapper.Rank0 (2500 / 5009))
  /\ ~ Forall (fun v => DSSIMObjective.__call__ example_dssim
                          example_true example_pred = v)
              (dssim_per_sample example_dssim example_true example_pred).
Proof.
  split; [apply example_per_sample|]. split.
  - cbn [LossWrapper.call snd]. now rewrite example_dssim_call.
  - rewrite example_per_sample, example_dssim_call. intros H.
    inversion H as [|? ? H0 _]. lra.
Qed.

(** ** The single scale on the checkerboard batch *)

Lemma pow1_relu_example :
  K.map_2 (fun x => K.pow1 (K.relu1 x) 1) [[1]; [- 4991 / 5009]] = [[1]; [0]].
Proof.
  unfold K.map_2. simpl. rewrite !pow1_1. unfold K.relu1.
  rewrite Rmax_left by lra. rewrite Rmax_right by lra. reflexivity.
Qed.

Lemma example_single_scale :
  MSSIMLoss._get_ms_ssim (MSSIMLoss.mk example_dssim [1]) example_true example_pred
  = (MSSIMLoss.mk example_dssim [1], Py.Ok [[1]; [0]]).
Proof.
  rewrite (single_scale_score (MSSIMLoss.mk example_dssim [1]) 1 2 2 1
             example_true example_pred eq_refl (proj2 example_shape)
             ltac:(lia)).
  cbv zeta.
  rewrite (shrink_filter_fits (MSSIMLoss.mk example_dssim [1]) (Z.of_nat 2)).
  - cbn [MSSIMLoss.super]. now rewrite example_ssim, pow1_relu_example.
  - simpl. lia.
  - left. cbn [MSSIMLoss._power_factors length].
    rewrite smallest_size_stop by (simpl; lia). reflexivity.
Qed.

Lemma C5_single_scale_witness :
  MSSIMLoss.__call__ (MSSIMLoss.mk example_dssim [1]) example_true example_pred
  = (MSSIMLoss.mk example_dssim [1],
     Py.Ok (K.mean_all2 (K.map_2 (fun x => 1 - x) [[1]; [0]]))).
Proof.
  destruct (C5_single_scale (MSSIMLoss.mk example_dssim [1]) 1 2 2 1
              example_true example_pred eq_refl
              (proj1 example_shape) (proj2 example_shape) ltac:(lia))
    as [_ [H [Hfit _]]].
  rewrite H, Hfit by (simpl; lia).
  cbn [MSSIMLoss.super]. now rewrite example_ssim, pow1_relu_example.
Defined.

(** C5, as the claim has it, fails on the checkerboard batch with the one
    power factor 1: the SSIM of the inverted sample is [-4991/5009], and so
    is its power; the multiscale score of that sample is 0. *)
Lemma C5_counterexample :
  let self := MSSIMLoss.__init__ 0.01 0.03 2 1.5 1 [1] in
  ssim_pow (MSSIMLoss.super self) 1 example_true example_pred
  = [[1]; [- 4991 / 5009]]
  /\ snd (MSSIMLoss._get_ms_ssim self example_true example_pred)
     = Py.Ok [[1]; [0]]
  /\ snd (MSSIMLoss._get_ms_ssim self example_true example_pred)
     <> Py.Ok (ssim_pow (MSSIMLoss.super self) 1 example_true example_pred).
Proof.
  intros self.
  assert (E1 : ssim_pow (MSSIMLoss.super self) 1 example_true example_pred
               = [[1]; [- 4991 / 5009]]).
  { unfold ssim_pow. change (MSSIMLoss.super self) with example_dssim.
    rewrite example_ssim. unfold K.map_2. simpl. now rewrite !pow1_1. }
  assert (E2 : snd (MSSIMLoss._get_ms_ssim self example_true example_pred)
               = Py.Ok [[1]; [0]]).
  { change self with (MSSIMLoss.mk example_dssim [1]).
    now rewrite example_single_scale. }
  split; [exact E1|]. split; [exact E2|].
  rewrite E1, E2. intros H. injection H as H. lra.
Qed.

(** * Further properties of the code *)

(** ** Entries of slices and bands *)

Lemma slice_length_pair {A} (a b : option Z) (l : list A) :
  length (Py.slice a b l) = slice_len (length l) (a, b).
Proof. apply (slice_length (a, b)). Qed.

Lemma slice_nth {A} (a b : option Z) (l : list A) (k : nat) (d : A) :
  (k < slice_len (length l) (a, b))%nat ->
  nth k (Py.slice a b l) d = nth (slice_lo (length l) (a, b) + k) l d.
Proof.
  intros Hk. unfold Py.slice. unfold slice_len in Hk. cbn [fst snd] in *.
  unfold slice_lo. cbn [fst].
  rewrite nth_firstn.
  match goal with
  | |- (if ?b then _ else _) = _ => destruct b eqn:E
  end.
  - rewrite nth_skipn. reflexivity.
  - apply Nat.ltb_ge in E. lia.
Qed.

Lemma map2_nth {A B C} (g : A -> B -> C) l m (j : nat) (d : C) (da : A) (db : B) :
  (j < length l)%nat -> (j < length m)%nat ->
  nth j (Py.map2 g l m) d = g (nth j l da) (nth j m db).
Proof.
  revert m j. induction l as [|a l IH]; intros [|b m] [|j] Hl Hm;
    simpl in *; try lia; auto.
  apply IH; lia.
Qed.

Ltac slice_index :=
  unfold slice_len, slice_lo, next_index, prev_index,
    K.sl, K.from, K.upto, K.all, Py.norm_idx in *;
  cbv beta iota delta [fst snd] in *;
  repeat match goal with
         | |- context [(?x <? ?y)%Z] => destruct (Z.ltb_spec x y)
         | H : context [(?x <? ?y)%Z] |- _ => destruct (Z.ltb_spec x y)
         end; try lia.

Lemma bands_length {A} (g : A -> A -> A) (l : list A) :
  (2 <= length l)%nat -> length (bands g l) = length l.
Proof.
  intros Hl. unfold bands.
  rewrite !length_app, !map2_length, !slice_length_pair.
  slice_index.
Qed.

Lemma bands_nth {A} (g : A -> A -> A) (l : list A) (j : nat) (d : A) :
  (2 <= length l)%nat -> (j < length l)%nat ->
  nth j (bands g l) d
  = g (nth (next_index (length l) j) l d) (nth (prev_index j) l d).
Proof.
  intros Hl Hj. unfold bands.
  assert (L1 : length (Py.map2 g (Py.slice (Some 1%Z) (Some 2%Z) l)
                         (Py.slice (Some 0%Z) (Some 1%Z) l)) = 1%nat).
  { rewrite map2_length, !slice_length_pair. slice_index. }
  assert (L2 : length (Py.map2 g (Py.slice (Some 2%Z) None l)
                         (Py.slice None (Some (-2)%Z) l)) = (length l - 2)%nat).
  { rewrite map2_length, !slice_length_pair. slice_index. }
  destruct (Nat.eq_dec j 0) as [->|Hj0].
  - rewrite app_nth1 by (rewrite length_app; lia).
    rewrite app_nth1 by lia.
    rewrite (map2_nth g _ _ 0 d d d)
      by (rewrite slice_length_pair; slice_index).
    rewrite !slice_nth by slice_index.
    f_equal; f_equal; slice_index.
  - destruct (Nat.lt_ge_cases j (length l - 1)) as [Hin|Hlast].
    + rewrite app_nth1 by (rewrite length_app; lia).
      rewrite app_nth2 by lia. rewrite L1.
      rewrite (map2_nth g _ _ (j - 1) d d d)
        by (rewrite slice_length_pair; slice_index).
      rewrite !slice_nth by slice_index.
      f_equal; f_equal; slice_index.
    + rewrite app_nth2 by (rewrite length_app; lia).
      rewrite length_app, L1, L2.
      replace (j - (1 + (length l - 2)))%nat with 0%nat by lia.
      rewrite (map2_nth g _ _ 0 d d d)
        by (rewrite slice_length_pair; slice_index).
      rewrite !slice_nth by slice_index.
      f_equal; f_equal; slice_index.
Qed.

Lemma slice_all {A} (l : list A) : Py.slice None None l = l.
Proof.
  unfold Py.slice. rewrite Z.sub_0_r, Nat2Z.id. simpl skipn. apply firstn_all.
Qed.

Lemma sized_nth {A} (P : A -> Prop) n (l : list A) i d :
  sized P n l -> (i < n)%nat -> P (nth i l d).
Proof.
  intros [Hn HP] Hi. rewrite Forall_forall in HP. apply HP, nth_In. lia.
Qed.

Lemma axis2_bands f img :
  K.concatenate_axis2
    [K.zip_4 f (K.slice_hw K.all (K.sl 1 2) img) (K.slice_hw K.all (K.sl 0 1) img);
     K.zip_4 f (K.slice_hw K.all (K.from 2) img) (K.slice_hw K.all (K.upto (-2)) img);
     K.zip_4 f (K.slice_hw K.all (K.from (-1)) img)
               (K.slice_hw K.all (K.sl (-2) (-1)) img)]
  = map (map (bands (K.zip_1 f))) img.
Proof.
  unfold K.concatenate_axis2, K.concatenate_with. cbn [fold_left].
  unfold K.zip_4, K.zip_3, K.slice_hw, K.all, K.sl, K.from, K.upto. cbn [fst snd].
  rewrite !map2_map_same. apply map_ext. intros im.
  rewrite !slice_all, !map2_map_same. apply map_ext. intros row. reflexivity.
Qed.

Lemma axis1_bands f img :
  K.concatenate_axis1
    [K.zip_4 f (K.slice_hw (K.sl 1 2) K.all img) (K.slice_hw (K.sl 0 1) K.all img);
     K.zip_4 f (K.slice_hw (K.from 2) K.all img) (K.slice_hw (K.upto (-2)) K.all img);
     K.zip_4 f (K.slice_hw (K.from (-1)) K.all img)
               (K.slice_hw (K.sl (-2) (-1)) K.all img)]
  = map (bands (K.zip_2 f)) img.
Proof.
  unfold K.concatenate_axis1, K.concatenate_with. cbn [fold_left].
  unfold K.zip_4, K.zip_3, K.slice_hw, K.all, K.sl, K.from, K.upto. cbn [fst snd].
  rewrite !map2_map_same. apply map_ext. intros im.
  rewrite !(map_ext _ (fun x => x) (@slice_all _)), !map_id. reflexivity.
Qed.

Section BandEntries.

Variables (h w c : nat) (im : list (list (list R))).
Hypothesis Him : shape3 h w c im.
Variables (i j ch : nat).
Hypothesis Hi : (i < h)%nat.
Hypothesis Hj : (j < w)%nat.
Hypothesis Hch : (ch < c)%nat.

Lemma px_zip_3 f (im' : list (list (list R))) :
  shape3 h w c im' ->
  K.px (K.zip_3 f im im') i j ch = f (K.px im i j ch) (K.px im' i j ch).
Proof.
  intros Him'. unfold K.px, K.zip_3, K.zip_2, K.zip_1.
  pose proof (sized_nth _ _ _ i [] Him Hi) as R1.
  pose proof (sized_nth _ _ _ i [] Him' Hi) as R2.
  pose proof (sized_nth _ _ _ j [] R1 Hj) as P1.
  pose proof (sized_nth _ _ _ j [] R2 Hj) as P2.
  unfold shape1 in P1, P2.
  rewrite (map2_nth _ im im' i [] [] [])
    by (destruct Him as [L1 _], Him' as [L2 _]; lia).
  rewrite (map2_nth _ _ _ j [] [] [])
    by (destruct R1 as [L1 _], R2 as [L2 _]; lia).
  apply map2_nth; lia.
Qed.

Lemma px_axis2_bands f :
  (2 <= w)%nat ->
  K.px (map (bands (K.zip_1 f)) im) i j ch
  = f (K.px im i (next_index w j) ch) (K.px im i (prev_index j) ch).
Proof.
  intros Hw. unfold K.px.
  pose proof (sized_nth _ _ _ i [] Him Hi) as [Lr Fr].
  rewrite (nth_map_in _ _ _ []) by (destruct Him as [L1 _]; lia).
  rewrite bands_nth by lia. rewrite Lr.
  assert (Hnext : (next_index w j < w)%nat) by (unfold next_index; lia).
  assert (Hprev : (prev_index j < w)%nat) by (unfold prev_index; lia).
  pose proof (sized_nth _ _ _ (next_index w j) [] (conj Lr Fr) Hnext) as P1.
  pose proof (sized_nth _ _ _ (prev_index j) [] (conj Lr Fr) Hprev) as P2.
  unfold shape1 in P1, P2. unfold K.zip_1. apply map2_nth; lia.
Qed.

Lemma px_axis1_bands f :
  (2 <= h)%nat ->
  K.px (bands (K.zip_2 f) im) i j ch
  = f (K.px im (next_index h i) j ch) (K.px im (prev_index i) j ch).
Proof.
  intros Hh. unfold K.px. destruct Him as [Lim Fim].
  rewrite bands_nth by lia. rewrite Lim.
  assert (Hnext : (next_index h i < h)%nat) by (unfold next_index; lia).
  assert (Hprev : (prev_index i < h)%nat) by (unfold prev_index; lia).
  pose proof (sized_nth _ _ _ (next_index h i) [] (conj Lim Fim) Hnext) as R1.
  pose proof (sized_nth _ _ _ (prev_index i) [] (conj Lim Fim) Hprev) as R2.
  pose proof (sized_nth _ _ _ j [] R1 Hj) as P1.
  pose proof (sized_nth _ _ _ j [] R2 Hj) as P2.
  unfold shape1 in P1, P2. unfold K.zip_2, K.zip_1.
  rewrite (map2_nth _ _ _ j [] [] [])
    by (destruct R1 as [L1 _], R2 as [L2 _]; lia).
  apply map2_nth; lia.
Qed.

End BandEntries.

(** ** The difference operators, entry by entry *)

Section DifferenceEntries.

Variables (n h w c : nat) (img : K.T4).
Hypothesis Himg : shape4 n h w c img.
Hypothesis Hh : (2 <= h)%nat.
Hypothesis Hw : (2 <= w)%nat.
Variables (b i j ch : nat).
Hypothesis Hb : (b < n)%nat.
Hypothesis Hi : (i < h)%nat.
Hypothesis Hj : (j < w)%nat.
Hypothesis Hch : (ch < c)%nat.

Let im := nth b img [].

Lemma image_shape : shape3 h w c im.
Proof. exact (sized_nth _ _ _ b [] Himg Hb). Qed.

Lemma nth_map_image {B} (F : list (list (list R)) -> B) (d : B) :
  nth b (map F img) d = F im.
Proof. apply nth_map_in. destruct Himg as [L _]. lia. Qed.

Lemma diff_x_entry :
  K.px (nth b (GradientLoss._diff_x img) []) i j ch
  = (K.px im i (next_index w j) ch - K.px im i (prev_index j) ch) * 0.5.
Proof.
  unfold GradientLoss._diff_x; cbv zeta. unfold K.sub4. rewrite axis2_bands.
  unfold K.map_4. rewrite map_map, nth_map_image.
  rewrite px_map_3 by ring.
  now rewrite (px_axis2_bands h w c im image_shape i j ch Hi Hj Hch).
Qed.

Lemma diff_y_entry :
  K.px (nth b (GradientLoss._diff_y img) []) i j ch
  = (K.px im (next_index h i) j ch - K.px im (prev_index i) j ch) * 0.5.
Proof.
  unfold GradientLoss._diff_y; cbv zeta. unfold K.sub4. rewrite axis1_bands.
  unfold K.map_4. rewrite map_map, nth_map_image.
  rewrite px_map_3 by ring.
  now rewrite (px_axis1_bands h w c im image_shape i j ch Hi Hj Hch).
Qed.

Lemma diff_xx_entry :
  K.px (nth b (GradientLoss._diff_xx img) []) i j ch
  = K.px im i (next_index w j) ch + K.px im i (prev_index j) ch
    - 2 * K.px im i j ch.
Proof.
  unfold GradientLoss._diff_xx; cbv zeta.
  assert (Hout : shape4 n h w c
            (K.concatenate_axis2
               [K.add4 (K.slice_hw K.all (K.sl 1 2) img)
                       (K.slice_hw K.all (K.sl 0 1) img);
                K.add4 (K.slice_hw K.all (K.from 2) img)
                       (K.slice_hw K.all (K.upto (-2)) img);
                K.add4 (K.slice_hw K.all (K.from (-1)) img)
                       (K.slice_hw K.all (K.sl (-2) (-1)) img)]))
    by (unfold K.add4; diff_shape).
  unfold K.add4 in *. rewrite axis2_bands in *.
  unfold K.sub4, K.zip_4, K.map_4.
  rewrite (map2_nth _ _ _ b [] [] [])
    by (rewrite ?length_map; destruct Himg as [L _]; lia).
  rewrite !nth_map_image.
  pose proof (sized_nth _ _ _ b [] Hout Hb) as Hb'. rewrite nth_map_image in Hb'.
  rewrite (px_zip_3 h w c _ Hb' i j ch Hi Hj Hch)
    by (apply shape3_map; exact image_shape).
  rewrite px_map_3 by ring.
  now rewrite (px_axis2_bands h w c im image_shape i j ch Hi Hj Hch).
Qed.

Lemma diff_yy_entry :
  K.px (nth b (GradientLoss._diff_yy img) []) i j ch
  = K.px im (next_index h i) j ch + K.px im (prev_index i) j ch
    - 2 * K.px im i j ch.
Proof.
  unfold GradientLoss._diff_yy; cbv zeta.
  assert (Hout : shape4 n h w c
            (K.concatenate_axis1
               [K.add4 (K.slice_hw (K.sl 1 2) K.all img)
                       (K.slice_hw (K.sl 0 1) K.all img);
                K.add4 (K.slice_hw (K.from 2) K.all img)
                       (K.slice_hw (K.upto (-2)) K.all img);
                K.add4 (K.slice_hw (K.from (-1)) K.all img)
                       (K.slice_hw (K.sl (-2) (-1)) K.all img)]))
    by (unfold K.add4; diff_shape).
  unfold K.add4 in *. rewrite axis1_bands in *.
  unfold K.sub4, K.zip_4, K.map_4.
  rewrite (map2_nth _ _ _ b [] [] [])
    by (rewrite ?length_map; destruct Himg as [L _]; lia).
  rewrite !nth_map_image.
  pose proof (sized_nth _ _ _ b [] Hout Hb) as Hb'. rewrite nth_map_image in Hb'.
  rewrite (px_zip_3 h w c _ Hb' i j ch Hi Hj Hch)
    by (apply shape3_map; exact image_shape).
  rewrite px_map_3 by ring.
  now rewrite (px_axis1_bands h w c im image_shape i j ch Hi Hj Hch).
Qed.

End DifferenceEntries.

(** ** Tensors with equal entries *)

Lemma tensor4_ext n h w c (A B : K.T4) :
  shape4 n h w c A -> shape4 n h w c B ->
  (forall b i j ch, (b < n)%nat -> (i < h)%nat -> (j < w)%nat -> (ch < c)%nat ->
     K.px (nth b A []) i j ch = K.px (nth b B []) i j ch) ->
  A = B.
Proof.
  intros HA HB H.
  apply (nth_ext A B [] []).
  { destruct HA as [-> _], HB as [-> _]. reflexivity. }
  intros b Hb. assert (Hb' : (b < n)%nat) by (destruct HA as [L _]; lia).
  pose proof (sized_nth _ _ _ b [] HA Hb') as A1.
  pose proof (sized_nth _ _ _ b [] HB Hb') as B1.
  apply (nth_ext _ _ [] []).
  { destruct A1 as [-> _], B1 as [-> _]. reflexivity. }
  intros i Hi. assert (Hi' : (i < h)%nat) by (destruct A1 as [L _]; lia).
  pose proof (sized_nth _ _ _ i [] A1 Hi') as A2.
  pose proof (sized_nth _ _ _ i [] B1 Hi') as B2.
  apply (nth_ext _ _ [] []).
  { destruct A2 as [-> _], B2 as [-> _]. reflexivity. }
  intros j Hj. assert (Hj' : (j < w)%nat) by (destruct A2 as [L _]; lia).
  pose proof (sized_nth _ _ _ j [] A2 Hj') as A3.
  pose proof (sized_nth _ _ _ j [] B2 Hj') as B3.
  unfold shape1 in A3, B3.
  apply (nth_ext _ _ 0 0); [lia|].
  intros ch Hch. apply (H b i j ch); auto. lia.
Qed.

Lemma px_offset4 n h w c (y : K.T4) (k : R) b i j ch :
  shape4 n h w c y ->
  (b < n)%nat -> (i < h)%nat -> (j < w)%nat -> (ch < c)%nat ->
  K.px (nth b (offset4 k y) []) i j ch = K.px (nth b y []) i j ch + k.
Proof.
  intros Hy Hb Hi Hj Hch. unfold offset4, K.map_4, K.map_3, K.map_2, K.px.
  pose proof (sized_nth _ _ _ b [] Hy Hb) as [L1 F1].
  pose proof (sized_nth _ _ _ i [] (conj L1 F1) Hi) as [L2 F2].
  pose proof (sized_nth _ _ _ j [] (conj L2 F2) Hj) as L3. unfold shape1 in L3.
  rewrite (nth_map_in _ _ _ []) by (destruct Hy as [L _]; lia).
  rewrite (nth_map_in _ _ _ []) by lia.
  rewrite (nth_map_in _ _ _ []) by lia.
  rewrite (nth_map_in _ _ _ 0) by lia. reflexivity.
Qed.

(** ** The difference operators and a constant offset *)

Section DifferenceOffset.

Variables (n h w c : nat) (y : K.T4) (k : R).
Hypothesis Hy : shape4 n h w c y.
Hypothesis Hh : (2 <= h)%nat.
Hypothesis Hw : (2 <= w)%nat.

Lemma shape4_offset4 : shape4 n h w c (offset4 k y).
Proof. now apply shape4_map. Qed.

Ltac offset_entries lemma :=
  apply (tensor4_ext n h w c);
  [ auto using shape4_diff_x, shape4_diff_y, shape4_diff_xx, shape4_diff_yy,
      shape4_offset4
  | auto using shape4_diff_x, shape4_diff_y, shape4_diff_xx, shape4_diff_yy,
      shape4_offset4
  | intros b i j ch Hb Hi Hj Hch;
    rewrite (lemma n h w c (offset4 k y) shape4_offset4 Hh Hw b i j ch Hb Hi Hj Hch);
    rewrite (lemma n h w c y Hy Hh Hw b i j ch Hb Hi Hj Hch);
    cbv zeta;
    rewrite !(px_offset4 n h w c y k) by (unfold next_index, prev_index; auto; lia);
    ring ].

Lemma diff_x_offset : GradientLoss._diff_x (offset4 k y) = GradientLoss._diff_x y.
Proof. offset_entries diff_x_entry. Qed.

Lemma diff_y_offset : GradientLoss._diff_y (offset4 k y) = GradientLoss._diff_y y.
Proof. offset_entries diff_y_entry. Qed.

Lemma diff_xx_offset : GradientLoss._diff_xx (offset4 k y) = GradientLoss._diff_xx y.
Proof. offset_entries diff_xx_entry. Qed.

Lemma diff_yy_offset : GradientLoss._diff_yy (offset4 k y) = GradientLoss._diff_yy y.
Proof. offset_entries diff_yy_entry. Qed.

Lemma diff_xy_offset : GradientLoss._diff_xy (offset4 k y) = GradientLoss._diff_xy y.
Proof.
  rewrite (diff_xy_zero n h w c (offset4 k y) shape4_offset4 Hh Hw).
  now rewrite (diff_xy_zero n h w c y Hy Hh Hw).
Qed.

End DifferenceOffset.

(** ** [GradientLoss.__call__] *)

Lemma map_3_const x n h w (t : K.T3) :
  shape3 n h w t -> K.map_3 (fun _ => x) t = full3 x n h w.
Proof.
  apply map_const_sized. intros a. apply map_const_sized. intros v Hv.
  unfold shape1 in Hv. subst w. induction v; simpl; congruence.
Qed.

Lemma map_3_id f (t : K.T3) : (forall x, f x = x) -> K.map_3 f t = t.
Proof.
  intros H. unfold K.map_3, K.map_2.
  rewrite <- (map_id t) at 2. apply map_ext. intros a.
  rewrite <- (map_id a) at 2. apply map_ext. intros v.
  rewrite <- (map_id v) at 2. apply map_ext. exact H.
Qed.

Lemma map_3_map_3 f g (t : K.T3) :
  K.map_3 f (K.map_3 g t) = K.map_3 (fun x => f (g x)) t.
Proof.
  unfold K.map_3, K.map_2.
  rewrite map_map. apply map_ext. intros a.
  rewrite map_map. apply map_ext. intros v. apply map_map.
Qed.

Lemma zip_3_map_r f g (t : K.T3) :
  K.zip_3 f t (K.map_3 g t) = K.map_3 (fun x => f x (g x)) t.
Proof.
  unfold K.zip_3, K.zip_2, K.zip_1, K.map_3, K.map_2.
  rewrite <- (map_id t) at 1. rewrite map2_map_same. apply map_ext. intros a.
  rewrite <- (map_id a) at 1. rewrite map2_map_same. apply map_ext. intros v.
  rewrite <- (map_id v) at 1. apply map2_map_same.
Qed.

Lemma add3_zero_r n h w (t : K.T3) :
  shape3 n h w t -> K.add3 t (full3 0 n h w) = t.
Proof.
  intros Ht. rewrite <- (map_3_const 0 n h w t Ht).
  unfold K.add3. rewrite zip_3_map_r. apply map_3_id. intros; ring.
Qed.

Lemma shape3_generalized_loss self n h w c y_true y_pred :
  shape4 n h w c y_true -> shape4 n h w c y_pred ->
  shape3 n h w (GeneralizedLoss.__call__ self y_true y_pred).
Proof.
  intros Ht Hp. rewrite generalized_loss_pointwise.
  now apply shape3_robust_loss_spec with (c := c).
Qed.

Lemma shape3_zip_3 f n h w (a b : K.T3) :
  shape3 n h w a -> shape3 n h w b -> shape3 n h w (K.zip_3 f a b).
Proof.
  apply sized_map2. intros x y. apply sized_map2. intros u v Hu Hv.
  unfold shape1, K.zip_1 in *. rewrite map2_length. lia.
Qed.

Lemma gradient_call_four_terms (self : GradientLoss.t) n h w c y_true y_pred :
  shape4 n h w c y_true -> shape4 n h w c y_pred ->
  (2 <= h)%nat -> (2 <= w)%nat ->
  let loss := GeneralizedLoss.__call__ (GradientLoss.generalized_loss self) in
  GradientLoss.__call__ self y_true y_pred
  = K.map_3 (fun x => x / 2)
      (K.add3
         (K.add3 (loss (GradientLoss._diff_x y_true) (GradientLoss._diff_x y_pred))
                 (loss (GradientLoss._diff_y y_true) (GradientLoss._diff_y y_pred)))
         (K.add3 (loss (GradientLoss._diff_xx y_true) (GradientLoss._diff_xx y_pred))
                 (loss (GradientLoss._diff_yy y_true) (GradientLoss._diff_yy y_pred)))).
Proof.
  intros Ht Hp Hh Hw loss. unfold GradientLoss.__call__; cbv zeta. fold loss.
  rewrite (diff_xy_zero n h w c y_true Ht Hh Hw).
  rewrite (diff_xy_zero n h w c y_pred Hp Hh Hw).
  unfold loss at 5.
  rewrite (generalized_loss_self _ n h w c)
    by (unfold full4, full3; repeat apply sized_repeat; apply repeat_length).
  rewrite map_3_full3, Rmult_0_l.
  rewrite (add3_zero_r n h w).
  2:{ apply shape3_zip_3; apply (shape3_generalized_loss _ n h w c);
        auto using shape4_diff_xx, shape4_diff_yy. }
  rewrite !map_3_map_3.
  rewrite (map_3_id (fun x => 0 + 1 * x)) by (intros; ring).
  rewrite (map_3_id (fun x => 1 * x)) by (intros; ring).
  unfold K.map_3, K.map_2.
  apply map_ext. intros a. apply map_ext. intros v. apply map_ext. intros x.
  lra.
Qed.

Lemma gradient_call_offset (self : GradientLoss.t) n h w c y_true y_pred (k : R) :
  shape4 n h w c y_true -> shape4 n h w c y_pred ->
  (2 <= h)%nat -> (2 <= w)%nat ->
  GradientLoss.__call__ self y_true (offset4 k y_pred)
  = GradientLoss.__call__ self y_true y_pred
  /\ GradientLoss.__call__ self (offset4 k y_true) y_pred
     = GradientLoss.__call__ self y_true y_pred.
Proof.
  intros Ht Hp Hh Hw. unfold GradientLoss.__call__; cbv zeta.
  rewrite !(diff_x_offset n h w c y_pred k Hp Hh Hw),
    !(diff_y_offset n h w c y_pred k Hp Hh Hw),
    !(diff_xx_offset n h w c y_pred k Hp Hh Hw),
    !(diff_yy_offset n h w c y_pred k Hp Hh Hw),
    !(diff_xy_offset n h w c y_pred k Hp Hh Hw).
  rewrite !(diff_x_offset n h w c y_true k Ht Hh Hw),
    !(diff_y_offset n h w c y_true k Ht Hh Hw),
    !(diff_xx_offset n h w c y_true k Ht Hh Hw),
    !(diff_yy_offset n h w c y_true k Ht Hh Hw),
    !(diff_xy_offset n h w c y_true k Ht Hh Hw).
  split; reflexivity.
Qed.

(** ** Powers of a base that is at least one *)

Lemma ln_ge_0 (b : R) : 1 <= b -> 0 <= ln b.
Proof.
  intros [H| <-]; [|rewrite ln_1; lra].
  left. rewrite <- ln_1. apply ln_increasing; lra.
Qed.

Lemma exp_ge_1 (x : R) : 0 <= x -> 1 <= exp x.
Proof. intros H. pose proof (exp_ineq1_le x). lra. Qed.

Lemma exp_le_1 (x : R) : x <= 0 -> exp x <= 1.
Proof.
  intros H. pose proof (exp_ge_1 (- x) ltac:(lra)) as H1.
  rewrite exp_Ropp in H1. pose proof (exp_pos x) as Hp.
  apply Rmult_le_reg_r with (r := / exp x).
  - now apply Rinv_0_lt_compat.
  - rewrite Rinv_r by lra. lra.
Qed.

Lemma Int_part_sign (y : R) :
  (0 <= y -> (0 <= Int_part y)%Z) /\ (y <= 0 -> (IZR (Int_part y) <= 0)).
Proof.
  destruct (base_Int_part y) as [H1 H2]. split; intros H.
  - assert (H0 : IZR (-1) < IZR (Int_part y)) by lra.
    apply lt_IZR in H0. lia.
  - lra.
Qed.

Lemma pow1_ge_1 (b y : R) : 1 <= b -> 0 <= y -> 1 <= K.pow1 b y.
Proof.
  intros Hb Hy. unfold K.pow1.
  destruct (Req_dec_T y (IZR (Int_part y))) as [E|_].
  - destruct (Int_part_sign y) as [Hz _]. specialize (Hz Hy).
    destruct (Int_part y) as [|p|p]; simpl; try lia; [lra|].
    now apply pow_R1_Rle.
  - destruct (Rlt_dec 0 b) as [_|Hn]; [|lra].
    unfold Rpower. apply exp_ge_1.
    apply Rmult_le_pos; [assumption | now apply ln_ge_0].
Qed.

Lemma pow1_le_1 (b y : R) : 1 <= b -> y <= 0 -> K.pow1 b y <= 1.
Proof.
  intros Hb Hy. unfold K.pow1.
  destruct (Req_dec_T y (IZR (Int_part y))) as [E|_].
  - destruct (Int_part_sign y) as [_ Hz]. specialize (Hz Hy).
    apply le_IZR in Hz.
    destruct (Int_part y) as [|p|p]; simpl; try lia; [lra|].
    pose proof (pow_R1_Rle b (Pos.to_nat p) Hb) as H1.
    rewrite <- Rinv_1. apply Rinv_le_contravar; lra.
  - destruct (Rlt_dec 0 b) as [_|Hn]; [|lra].
    unfold Rpower. apply exp_le_1.
    pose proof (ln_ge_0 b Hb). nra.
Qed.

(** ** Sign, symmetry and the default shape of [GeneralizedLoss] *)

Lemma robust_loss_even (alpha beta d : R) :
  robust_loss alpha beta (- d) = robust_loss alpha beta d.
Proof.
  unfold robust_loss. replace (- d / beta) with (- (d / beta)) by (unfold Rdiv; ring).
  now rewrite <- Rsqr_neg.
Qed.

Lemma robust_loss_nonneg (alpha beta d : R) :
  alpha <> 0 -> alpha <> 2 -> 0 <= robust_loss alpha beta d.
Proof.
  intros H0 H2. unfold robust_loss.
  assert (Habs : 0 < Rabs (2 - alpha)) by (apply Rabs_pos_lt; lra).
  assert (Hbase : 1 <= Rsqr (d / beta) / Rabs (2 - alpha) + 1).
  { assert (0 <= Rsqr (d / beta) / Rabs (2 - alpha)).
    { apply Rmult_le_pos; [apply Rle_0_sqr | left; now apply Rinv_0_lt_compat]. }
    lra. }
  destruct (Rlt_dec 0 alpha) as [Hpos|Hneg].
  - apply Rmult_le_pos.
    + apply Rmult_le_pos; [lra | left; now apply Rinv_0_lt_compat].
    + pose proof (pow1_ge_1 _ (alpha / 2) Hbase ltac:(lra)). lra.
  - assert (Ha : alpha < 0) by lra.
    pose proof (pow1_le_1 _ (alpha / 2) Hbase ltac:(lra)) as Hp.
    assert (Hinv : / alpha < 0) by now apply Rinv_lt_0_compat.
    set (p := K.pow1 _ _) in *.
    replace (Rabs (2 - alpha) / alpha * (p - 1))
      with (Rabs (2 - alpha) * ((- / alpha) * (1 - p))) by (unfold Rdiv; ring).
    apply Rmult_le_pos; [lra | apply Rmult_le_pos; lra].
Qed.

Lemma mean1_nonneg (l : list R) : Forall (fun x => 0 <= x) l -> 0 <= K.mean1 l.
Proof.
  intros H. unfold K.mean1. apply Rmult_le_pos.
  - unfold K.sum. apply big_sum_nonneg. intros a Ha.
    rewrite Forall_forall in H. now apply H.
  - destruct l as [|x l]; [simpl; rewrite Rinv_0; lra|].
    left. apply Rinv_0_lt_compat, lt_0_INR. simpl; lia.
Qed.

Lemma map2_Forall {A B C} (P : C -> Prop) (g : A -> B -> C) l m :
  (forall a b, P (g a b)) -> Forall P (Py.map2 g l m).
Proof.
  intros H. revert m. induction l as [|a l IH]; intros [|b m]; simpl; auto.
Qed.

Lemma generalized_loss_symmetric (self : GeneralizedLoss.t) (y_true y_pred : K.T4) :
  GeneralizedLoss.__call__ self y_true y_pred
  = GeneralizedLoss.__call__ self y_pred y_true.
Proof.
  rewrite !generalized_loss_pointwise. unfold robust_loss_spec.
  rewrite map2_flip. apply map2_ext. intros a1 a2.
  rewrite map2_flip. apply map2_ext. intros r1 r2.
  rewrite map2_flip. apply map2_ext. intros v1 v2.
  f_equal. f_equal. rewrite map2_flip. apply map2_ext. intros x1 x2.
  rewrite <- robust_loss_even. f_equal. ring.
Qed.

Lemma generalized_loss_nonneg (self : GeneralizedLoss.t) (y_true y_pred : K.T4) :
  GeneralizedLoss.alpha self <> 0 -> GeneralizedLoss.alpha self <> 2 ->
  0 < GeneralizedLoss.beta self ->
  Forall (Forall (Forall (fun x => 0 <= x)))
         (GeneralizedLoss.__call__ self y_true y_pred).
Proof.
  intros H0 H2 Hb. rewrite generalized_loss_pointwise. unfold robust_loss_spec.
  apply map2_Forall. intros a1 a2.
  apply map2_Forall. intros r1 r2.
  apply map2_Forall. intros v1 v2.
  apply Rmult_le_pos; [|lra].
  apply mean1_nonneg, map2_Forall. intros x1 x2.
  now apply robust_loss_nonneg.
Qed.

Lemma pow1_half (b : R) : 0 < b -> K.pow1 b (1 / 2) = sqrt b.
Proof.
  intros Hb. unfold K.pow1.
  assert (E : Int_part (1 / 2) = 0%Z) by (symmetry; apply Int_part_spec; lra).
  rewrite E. destruct (Req_dec_T (1 / 2) 0) as [H|_]; [lra|].
  destruct (Rlt_dec 0 b) as [_|H]; [|contradiction].
  replace (1 / 2) with (/ 2) by lra. now apply Rpower_sqrt.
Qed.

Lemma robust_loss_alpha_1 (beta d : R) :
  robust_loss 1 beta d = sqrt (Rsqr (d / beta) + 1) - 1.
Proof.
  unfold robust_loss. replace (2 - 1) with 1 by ring. rewrite Rabs_R1.
  replace (Rsqr (d / beta) / 1) with (Rsqr (d / beta)) by (unfold Rdiv; field).
  rewrite pow1_half by (pose proof (Rle_0_sqr (d / beta)); lra).
  field.
Qed.

Lemma sqrt_square_plus_1 (x : R) : sqrt (Rsqr x + 1) <= Rabs x + 1.
Proof.
  pose proof (Rabs_pos x) as Hx.
  rewrite <- (sqrt_Rsqr (Rabs x + 1)) by lra.
  apply sqrt_le_1_alt. rewrite (Rsqr_abs x). unfold Rsqr. nra.
Qed.

Lemma smooth_l1_below_l1 (beta d : R) :
  0 < beta -> (sqrt (Rsqr (d / beta) + 1) - 1) * beta <= Rabs d.
Proof.
  intros Hb. pose proof (sqrt_square_plus_1 (d / beta)) as H.
  assert (E : Rabs d = Rabs (d / beta) * beta).
  { unfold Rdiv. rewrite Rabs_mult, (Rabs_right (/ beta)).
    - field. lra.
    - left. now apply Rinv_0_lt_compat. }
  rewrite E. apply Rmult_le_compat_r; lra.
Qed.

Lemma sum_map2_le {A B} (f g : A -> B -> R) l m :
  (forall a b, f a b <= g a b) ->
  K.sum (Py.map2 f l m) <= K.sum (Py.map2 g l m).
Proof.
  intros H. unfold K.sum, K.big_sum.
  revert m. induction l as [|a l IH]; intros [|b m]; simpl; try lra.
  specialize (IH m). specialize (H a b). lra.
Qed.

Lemma sum_map2_scal {A B} (f : A -> B -> R) (k : R) l m :
  K.sum (Py.map2 (fun a b => f a b * k) l m) = K.sum (Py.map2 f l m) * k.
Proof.
  unfold K.sum, K.big_sum.
  revert m. induction l as [|a l IH]; intros [|b m]; simpl; try ring.
  rewrite IH. ring.
Qed.

Lemma inv_length_nonneg {A} (l : list A) : 0 <= / INR (length l).
Proof.
  destruct l as [|x l]; [simpl; rewrite Rinv_0; lra|].
  left. apply Rinv_0_lt_compat, lt_0_INR. simpl; lia.
Qed.

Lemma generalized_loss_smooth_l1 (beta : R) (y_true y_pred : K.T4) :
  0 < beta ->
  let smooth := fun t p =>
    K.mean1 (Py.map2 (fun a b => sqrt (Rsqr ((b - a) / beta) + 1) - 1) t p)
    * beta in
  GeneralizedLoss.__call__ (GeneralizedLoss.__init__ 1 beta) y_true y_pred
  = Py.map2 (Py.map2 (Py.map2 smooth)) y_true y_pred
  /\ forall t p,
       0 <= smooth t p
       <= K.mean1 (Py.map2 (fun a b => Rabs (b - a)) t p).
Proof.
  intros Hb smooth. split.
  - rewrite generalized_loss_pointwise. unfold robust_loss_spec.
    cbn [GeneralizedLoss.alpha GeneralizedLoss.beta GeneralizedLoss.__init__].
    apply map2_ext. intros a1 a2. apply map2_ext. intros r1 r2.
    apply map2_ext. intros t p. unfold smooth. f_equal. f_equal.
    apply map2_ext. intros a b. apply robust_loss_alpha_1.
  - intros t p. unfold smooth. split.
    + apply Rmult_le_pos; [|lra]. apply mean1_nonneg, map2_Forall.
      intros a b. rewrite <- (robust_loss_alpha_1 beta).
      apply robust_loss_nonneg; lra.
    + unfold K.mean1. rewrite !map2_length.
      replace (K.sum (Py.map2 (fun a b => sqrt (Rsqr ((b - a) / beta) + 1) - 1) t p)
               / INR (Nat.min (length t) (length p)) * beta)
        with (K.sum (Py.map2 (fun a b =>
                (sqrt (Rsqr ((b - a) / beta) + 1) - 1) * beta) t p)
              / INR (Nat.min (length t) (length p)))
        by (rewrite sum_map2_scal; unfold Rdiv; ring).
      apply Rmult_le_compat_r.
      * rewrite <- (map2_length (fun a b => Rabs (b - a)) t p).
        apply inv_length_nonneg.
      * apply sum_map2_le. intros a b. now apply smooth_l1_below_l1.
Qed.

(** ** The largest entry of a list, and [LInfNorm] *)

Lemma fold_left_Rmax_init (r : list R) (x : R) : x <= fold_left Rmax r x.
Proof.
  revert x. induction r as [|y r IH]; intros x; simpl; [lra|].
  eapply Rle_trans; [apply (Rmax_l x y) | apply IH].
Qed.

Lemma fold_left_Rmax_In (r : list R) (x y : R) :
  In y r -> y <= fold_left Rmax r x.
Proof.
  revert x. induction r as [|z r IH]; intros x; simpl; [tauto|].
  intros [->|H]; [|now apply IH].
  eapply Rle_trans; [apply (Rmax_r x y) | apply fold_left_Rmax_init].
Qed.

Lemma fold_left_Rmax_attained (r : list R) (x : R) :
  In (fold_left Rmax r x) (x :: r).
Proof.
  revert x. induction r as [|z r IH]; intros x; simpl; [now left|].
  destruct (IH (Rmax x z)) as [E|H]; [|now right; right].
  unfold Rmax in E at 1. destruct (Rle_dec x z); [right|]; now left.
Qed.

Lemma list_max_ge (l : list R) (x : R) : In x l -> x <= K.list_max l.
Proof.
  destruct l as [|a l]; simpl; [tauto|].
  intros [->|H]; [apply fold_left_Rmax_init | now apply fold_left_Rmax_In].
Qed.

Lemma list_max_attained (l : list R) : l <> [] -> In (K.list_max l) l.
Proof.
  destruct l as [|a l]; [congruence|]. intros _. apply fold_left_Rmax_attained.
Qed.

Lemma px_in_channel h w c im i j ch :
  shape3 h w c im -> (i < h)%nat -> (j < w)%nat ->
  In (K.px im i j ch) (K.channel im ch).
Proof.
  intros [Lh Him] Hi Hj. unfold K.channel, K.px.
  apply in_map with (f := fun p => nth ch p 0).
  apply in_concat. exists (nth i im []). split.
  - apply nth_In. lia.
  - apply nth_In. rewrite Forall_forall in Him.
    destruct (Him (nth i im [])) as [Lw _]; [apply nth_In; lia | lia].
Qed.

Lemma channel_entry h w c im ch x :
  shape3 h w c im -> In x (K.channel im ch) ->
  exists i j, (i < h)%nat /\ (j < w)%nat /\ x = K.px im i j ch.
Proof.
  intros [Lh Him] H. unfold K.channel in H.
  apply in_map_iff in H. destruct H as [p [<- Hp]].
  apply in_concat in Hp. destruct Hp as [row [Hrow Hp]].
  destruct (In_nth _ _ [] Hrow) as [i [Hi Ei]].
  destruct (In_nth _ _ [] Hp) as [j [Hj Ej]].
  rewrite Forall_forall in Him. destruct (Him row Hrow) as [Lw _].
  exists i, j. unfold K.px. rewrite Ei, Ej. repeat split; lia.
Qed.

Lemma channel_length h w c im ch :
  shape3 h w c im -> length (K.channel im ch) = (h * w)%nat.
Proof.
  intros [Lh Him]. unfold K.channel. rewrite length_map, <- Lh.
  apply concat_rows_length. eapply Forall_impl; [|exact Him].
  intros row [Lw _]. exact Lw.
Qed.

Lemma px_abs_sub4 n h w c (y_true y_pred : K.T4) b i j ch :
  shape4 n h w c y_true -> shape4 n h w c y_pred ->
  (b < n)%nat -> (i < h)%nat -> (j < w)%nat -> (ch < c)%nat ->
  K.px (nth b (K.abs (K.sub4 y_true y_pred)) []) i j ch
  = Rabs (K.px (nth b y_true []) i j ch - K.px (nth b y_pred []) i j ch).
Proof.
  intros Ht Hp Hb Hi Hj Hch. unfold K.abs, K.sub4, K.map_4, K.zip_4.
  rewrite (nth_map_in _ _ _ [])
    by (rewrite map2_length; destruct Ht as [L1 _], Hp as [L2 _]; lia).
  rewrite (map2_nth _ _ _ _ _ [] [])
    by (destruct Ht as [L1 _], Hp as [L2 _]; lia).
  rewrite px_map_3 by apply Rabs_R0.
  rewrite (px_zip_3 h w c) by (try apply sized_nth with (n := n); assumption).
  reflexivity.
Qed.

Lemma linf_sample n h w c (y_true y_pred : K.T4) b :
  shape4 n h w c y_true -> shape4 n h w c y_pred ->
  (0 < h)%nat -> (0 < w)%nat -> (b < n)%nat ->
  nth b (LInfNorm.__call__ y_true y_pred) []
  = [[K.mean1 (map (fun ch => K.list_max
                      (K.channel (nth b (K.abs (K.sub4 y_true y_pred)) []) ch))
                   (seq 0 c))]].
Proof.
  intros Ht Hp Hh Hw Hb. unfold LInfNorm.__call__; cbv zeta.
  assert (Hd : shape4 n h w c (K.abs (K.sub4 y_true y_pred)))
    by (apply shape4_map, shape4_zip; assumption).
  set (d := K.abs (K.sub4 y_true y_pred)) in *.
  unfold K.mean_last, K.max_hw_keepdims. rewrite map_map.
  rewrite (nth_map_in _ _ _ []) by (destruct Hd as [L _]; lia).
  cbn [map].
  rewrite (shape3_channels h w c) by (try apply sized_nth with (n := n); assumption).
  reflexivity.
Qed.

Lemma linf_channel_maxima n h w c (y_true y_pred : K.T4) b :
  shape4 n h w c y_true -> shape4 n h w c y_pred ->
  (0 < h)%nat -> (0 < w)%nat -> (b < n)%nat ->
  let err := fun i j ch =>
    Rabs (K.px (nth b y_true []) i j ch - K.px (nth b y_pred []) i j ch) in
  exists m : nat -> R,
    nth b (LInfNorm.__call__ y_true y_pred) []
    = [[K.big_sum (seq 0 c) m / INR c]]
    /\ forall ch, (ch < c)%nat ->
         (forall i j, (i < h)%nat -> (j < w)%nat -> err i j ch <= m ch)
         /\ exists i j, (i < h)%nat /\ (j < w)%nat /\ m ch = err i j ch.
Proof.
  intros Ht Hp Hh Hw Hb err.
  assert (Hd : shape3 h w c (nth b (K.abs (K.sub4 y_true y_pred)) [])).
  { apply sized_nth with (n := n); [|assumption].
    apply shape4_map, shape4_zip; assumption. }
  exists (fun ch => K.list_max
            (K.channel (nth b (K.abs (K.sub4 y_true y_pred)) []) ch)).
  split.
  - rewrite (linf_sample n h w c) by assumption.
    unfold K.mean1. rewrite sum_map_big_sum, length_map, length_seq.
    reflexivity.
  - intros ch Hch. split.
    + intros i j Hi Hj. unfold err.
      rewrite <- (px_abs_sub4 n h w c) by assumption.
      apply list_max_ge. now apply (px_in_channel h w c).
    + set (im := nth b (K.abs (K.sub4 y_true y_pred)) []) in *.
      assert (Hne : K.channel im ch <> []).
      { intros E. apply (f_equal (@length R)) in E.
        rewrite (channel_length h w c) in E by exact Hd.
        simpl in E. nia. }
      destruct (channel_entry h w c im ch _ Hd (list_max_attained _ Hne))
        as [i [j [Hi [Hj E]]]].
      exists i, j. repeat split; try assumption.
      rewrite E. now apply (px_abs_sub4 n h w c).
Qed.

Lemma linf_symmetric (y_true y_pred : K.T4) :
  LInfNorm.__call__ y_true y_pred = LInfNorm.__call__ y_pred y_true.
Proof.
  unfold LInfNorm.__call__; cbv zeta. do 2 f_equal.
  unfold K.abs, K.sub4. rewrite !map_4_zip_4.
  unfold K.zip_4, K.zip_3, K.zip_2, K.zip_1.
  rewrite map2_flip. apply map2_ext. intros a1 a2.
  rewrite map2_flip. apply map2_ext. intros r1 r2.
  rewrite map2_flip. apply map2_ext. intros v1 v2.
  rewrite map2_flip. apply map2_ext. intros x1 x2.
  apply Rabs_minus_sym.
Qed.

(** ** The Gaussian kernel of [DSSIMObjective._get_kernel] *)

Lemma nth_concat_grid {A} (l : list (list A)) (cols a b : nat) (d : A) :
  Forall (fun r => length r = cols) l ->
  (a < length l)%nat -> (b < cols)%nat ->
  nth (a * cols + b) (concat l) d = nth b (nth a l []) d.
Proof.
  intros H. revert a. induction H as [|r rows Hr _ IH]; intros a Ha Hb.
  - simpl in Ha. lia.
  - destruct a as [|a]; simpl concat.
    + simpl. rewrite app_nth1 by lia. reflexivity.
    + rewrite app_nth2 by (simpl; nia).
      replace (S a * cols + b - length r)%nat with (a * cols + b)%nat
        by (simpl; nia).
      simpl in Ha. apply IH; lia.
Qed.

Lemma softmax_nth (l : list R) (i : nat) :
  (i < length l)%nat ->
  nth i (K.softmax l) 0 = exp (nth i l 0) / K.sum (map exp l).
Proof.
  intros Hi. unfold K.softmax.
  rewrite (nth_map_in _ _ _ 0) by now rewrite length_map.
  rewrite (nth_map_in _ _ _ 0) by assumption. reflexivity.
Qed.

Lemma kernel_entry (self : DSSIMObjective.t) (a b : nat) :
  (a < Z.to_nat (DSSIMObjective._filter_size self))%nat ->
  (b < Z.to_nat (DSSIMObjective._filter_size self))%nat ->
  K.kel (DSSIMObjective._get_kernel self) a b 0 = kernel_weight self a b.
Proof.
  intros Ha Hb. unfold K.kel, kernel_weight.
  rewrite get_kernel_eq.
  set (k := Z.to_nat (DSSIMObjective._filter_size self)) in *.
  assert (La : length (K.chunk k k (flat_kernel self)) = k)
    by (unfold K.chunk; now rewrite length_map, length_seq).
  rewrite (nth_map_in _ _ _ []) by lia.
  assert (Lb : length (nth a (K.chunk k k (flat_kernel self)) []) = k).
  { unfold K.chunk. rewrite (nth_map_in _ _ _ 0%nat) by now rewrite length_seq.
    rewrite length_firstn, length_skipn, flat_kernel_length. fold k.
    rewrite seq_nth by assumption. simpl. nia. }
  rewrite (nth_map_in _ _ _ 0) by lia.
  rewrite chunk_nth by assumption. reflexivity.
Qed.

Lemma shape4_get_kernel (self : DSSIMObjective.t) :
  let k := Z.to_nat (DSSIMObjective._filter_size self) in
  shape4 k k 1 1 (DSSIMObjective._get_kernel self).
Proof.
  intros k. rewrite get_kernel_eq. fold k.
  apply sized_map with (P := fun r : list R => length r = k).
  - intros r Hr. split; [now rewrite length_map|].
    apply Forall_map, Forall_forall. intros x _.
    split; [reflexivity|]. repeat constructor.
  - split; [unfold K.chunk; now rewrite length_map, length_seq|].
    unfold K.chunk. apply Forall_map, Forall_forall. intros i Hi.
    apply in_seq in Hi.
    rewrite length_firstn, length_skipn, flat_kernel_length. fold k. nia.
Qed.

Lemma kernel_weight_gaussian (self : DSSIMObjective.t) (a b : nat) :
  let k := Z.to_nat (DSSIMObjective._filter_size self) in
  (a < k)%nat -> (b < k)%nat ->
  kernel_weight self a b
  = gaussian_weight self a b
    / K.big_sum (seq 0 k) (fun a' =>
        K.big_sum (seq 0 k) (fun b' => gaussian_weight self a' b')).
Proof.
  intros k Ha Hb. unfold kernel_weight, flat_kernel; cbv zeta. fold k.
  set (q := map (fun x => x * (-0.5 / Rsqr (DSSIMObjective._filter_sigma self)))
              (map Rsqr
                 (map (fun x => x - (IZR (DSSIMObjective._filter_size self) - 1) / 2)
                    (map INR (seq 0 k))))).
  set (grid := map (fun col => map (fun row => row + col) q) q).
  assert (Lq : length q = k) by (unfold q; now rewrite !length_map, length_seq).
  assert (Hq : forall x, (x < k)%nat ->
            nth x q 0 = Rsqr (INR x - (IZR (DSSIMObjective._filter_size self) - 1) / 2)
                        * (-0.5 / Rsqr (DSSIMObjective._filter_sigma self))).
  { intros x Hx. unfold q.
    rewrite (nth_map_in _ _ _ 0) by now rewrite !length_map, length_seq.
    rewrite (nth_map_in _ _ _ 0) by now rewrite !length_map, length_seq.
    rewrite (nth_map_in _ _ _ 0) by now rewrite !length_map, length_seq.
    rewrite (nth_map_in _ _ _ 0%nat) by now rewrite length_seq.
    rewrite seq_nth by assumption. reflexivity. }
  assert (Hrows : Forall (fun r : list R => length r = k) grid).
  { unfold grid. apply Forall_map, Forall_forall. intros x _.
    now rewrite length_map. }
  assert (Lg : length grid = k) by (unfold grid; now rewrite length_map).
  assert (Hg : forall x y, (x < k)%nat -> (y < k)%nat ->
            exp (nth (x * k + y) (concat grid) 0) = gaussian_weight self x y).
  { intros x y Hx Hy. rewrite nth_concat_grid by (assumption || lia).
    unfold grid. rewrite (nth_map_in _ _ _ 0) by lia.
    rewrite (nth_map_in _ _ _ 0) by lia.
    rewrite !Hq by assumption. unfold gaussian_weight; cbv zeta.
    f_equal. ring. }
  assert (Lc : length (concat grid) = (k * k)%nat)
    by now apply concat_square_length.
  rewrite softmax_nth by (rewrite Lc; nia).
  rewrite Hg by assumption. f_equal.
  rewrite <- (sum_grid k k) by now rewrite length_map.
  apply big_sum_ext. intros x Hx. apply big_sum_ext. intros y Hy.
  apply in_seq in Hx, Hy.
  rewrite (nth_map_in _ _ _ 0) by (rewrite Lc; nia).
  apply Hg; lia.
Qed.

Lemma kernel_weight_pos (self : DSSIMObjective.t) (a b : nat) :
  let k := Z.to_nat (DSSIMObjective._filter_size self) in
  (a < k)%nat -> (b < k)%nat -> 0 < kernel_weight self a b.
Proof.
  intros k Ha Hb. unfold kernel_weight. fold k.
  eapply Forall_forall; [unfold flat_kernel; cbv zeta; apply softmax_pos|].
  apply nth_In. fold (flat_kernel self). rewrite flat_kernel_length. fold k. nia.
Qed.

(** ** Entries of tensors built by the backend operations *)

Lemma px_map_4 f n h w c (y : K.T4) b i j ch :
  shape4 n h w c y ->
  (b < n)%nat -> (i < h)%nat -> (j < w)%nat -> (ch < c)%nat ->
  K.px (nth b (K.map_4 f y) []) i j ch = f (K.px (nth b y []) i j ch).
Proof.
  intros Hy Hb Hi Hj Hch. unfold K.map_4, K.map_3, K.map_2, K.px.
  pose proof (sized_nth _ _ _ b [] Hy Hb) as [L1 F1].
  pose proof (sized_nth _ _ _ i [] (conj L1 F1) Hi) as [L2 F2].
  pose proof (sized_nth _ _ _ j [] (conj L2 F2) Hj) as L3. unfold shape1 in L3.
  rewrite (nth_map_in _ _ _ []) by (destruct Hy as [L _]; lia).
  rewrite (nth_map_in _ _ _ []) by lia.
  rewrite (nth_map_in _ _ _ []) by lia.
  apply nth_map_in. lia.
Qed.

Lemma px_zip_4 f n h w c (y z : K.T4) b i j ch :
  shape4 n h w c y -> shape4 n h w c z ->
  (b < n)%nat -> (i < h)%nat -> (j < w)%nat -> (ch < c)%nat ->
  K.px (nth b (K.zip_4 f y z) []) i j ch
  = f (K.px (nth b y []) i j ch) (K.px (nth b z []) i j ch).
Proof.
  intros Hy Hz Hb Hi Hj Hch. unfold K.zip_4.
  rewrite (map2_nth _ _ _ _ _ [] [])
    by (destruct Hy as [L1 _], Hz as [L2 _]; lia).
  apply (px_zip_3 h w c); try assumption; now apply sized_nth with (n := n).
Qed.

Lemma px_depthwise_conv2d n h w c (y ker : K.T4) b i j ch :
  shape4 n h w c y -> (0 < h)%nat -> (0 < w)%nat ->
  (b < n)%nat -> (i < h + 1 - length ker)%nat ->
  (j < w + 1 - length (hd [] ker))%nat -> (ch < c)%nat ->
  K.px (nth b (K.depthwise_conv2d y ker) []) i j ch
  = K.conv_at ker (nth b y []) i j ch.
Proof.
  intros Hy Hh Hw Hb Hi Hj Hch. unfold K.depthwise_conv2d, K.px.
  pose proof (sized_nth _ _ _ b [] Hy Hb) as Him.
  rewrite (nth_map_in _ _ _ []) by (destruct Hy as [L _]; lia).
  rewrite (shape3_width h w c _ Him Hh), (shape3_channels h w c _ Him Hh Hw).
  destruct Him as [Lh _]. rewrite Lh.
  rewrite (nth_map_in _ _ _ 0%nat) by now rewrite length_seq.
  rewrite (nth_map_in _ _ _ 0%nat) by now rewrite length_seq.
  rewrite (nth_map_in _ _ _ 0%nat) by now rewrite length_seq.
  rewrite !seq_nth by assumption. reflexivity.
Qed.

Lemma ratio_bounds (num den : R) :
  0 < den -> - den <= num <= den -> -1 <= num / den <= 1.
Proof.
  intros Hd [H1 H2]. pose proof (Rinv_0_lt_compat den Hd) as Hi.
  assert (E : den * / den = 1) by (apply Rinv_r; lra).
  unfold Rdiv. split; nra.
Qed.

Lemma ssim_point_bounds (mx my exy esq c1 c2 : R) :
  0 < c1 -> 0 < c2 ->
  Rsqr (mx - my) <= esq - 2 * exy -> Rsqr (mx + my) <= esq + 2 * exy ->
  -1 <= (mx * my * 2 + c1) / (Rsqr mx + Rsqr my + c1)
        * ((exy * 2 - mx * my * 2 + c2) / (esq - (Rsqr mx + Rsqr my) + c2))
     <= 1.
Proof.
  intros H1 H2 Hm Hp.
  pose proof (Rle_0_sqr (mx - my)) as Sm. pose proof (Rle_0_sqr (mx + my)) as Sp.
  pose proof (Rle_0_sqr mx) as Sx. pose proof (Rle_0_sqr my) as Sy.
  unfold Rsqr in *.
  assert (L : -1 <= (mx * my * 2 + c1) / (mx * mx + my * my + c1) <= 1)
    by (apply ratio_bounds; [lra | split; lra]).
  assert (C : -1 <= (exy * 2 - mx * my * 2 + c2)
                    / (esq - (mx * mx + my * my) + c2) <= 1)
    by (apply ratio_bounds; [lra | split; lra]).
  split; nra.
Qed.

Lemma contrast_point_bounds (mx my exy esq c2 : R) :
  0 < c2 ->
  Rsqr (mx - my) <= esq - 2 * exy -> Rsqr (mx + my) <= esq + 2 * exy ->
  -1 <= (exy * 2 - mx * my * 2 + c2) / (esq - (Rsqr mx + Rsqr my) + c2) <= 1.
Proof.
  intros H2 Hm Hp. unfold Rsqr in *.
  apply ratio_bounds; [lra | split; lra].
Qed.

Lemma big_sum2_combine (la lb : list nat) (f g : nat -> nat -> R) (k1 : R) :
  K.big_sum la (fun a => K.big_sum lb (fun b => f a b + k1 * g a b))
  = K.big_sum la (fun a => K.big_sum lb (fun b => f a b))
    + k1 * K.big_sum la (fun a => K.big_sum lb (fun b => g a b)).
Proof.
  rewrite <- !big_sum_scal, <- !big_sum_plus.
  apply big_sum_ext. intros a _.
  now rewrite !big_sum_plus, !big_sum_scal.
Qed.

(** Two windows under the same weights: the squares of the difference and
    of the sum of their weighted means against the weighted second
    moments. *)
Lemma weighted_moments (la lb : list nat) (wt x y : nat -> nat -> R) :
  (forall a b, 0 <= wt a b) ->
  K.big_sum la (fun a => K.big_sum lb (fun b => wt a b)) = 1 ->
  let mx := K.big_sum la (fun a => K.big_sum lb (fun b => x a b * wt a b)) in
  let my := K.big_sum la (fun a => K.big_sum lb (fun b => y a b * wt a b)) in
  let exy := K.big_sum la (fun a => K.big_sum lb (fun b =>
               x a b * y a b * wt a b)) in
  let esq := K.big_sum la (fun a => K.big_sum lb (fun b =>
               (Rsqr (x a b) + Rsqr (y a b)) * wt a b)) in
  Rsqr (mx - my) <= esq - 2 * exy /\ Rsqr (mx + my) <= esq + 2 * exy.
Proof.
  intros Hpos Hone mx my exy esq. split.
  - pose proof (weighted_square_mean la lb wt (fun a b => x a b - y a b)
                  Hpos Hone) as J. cbv beta in J.
    replace (mx - my)
      with (K.big_sum la (fun a => K.big_sum lb (fun b =>
              (x a b - y a b) * wt a b))).
    2:{ unfold mx, my.
        replace (K.big_sum la (fun a => K.big_sum lb (fun b => x a b * wt a b))
                 - K.big_sum la (fun a => K.big_sum lb (fun b => y a b * wt a b)))
          with (K.big_sum la (fun a => K.big_sum lb (fun b => x a b * wt a b))
                + (-1) * K.big_sum la (fun a => K.big_sum lb (fun b =>
                           y a b * wt a b))) by ring.
        rewrite <- big_sum2_combine.
        apply big_sum_ext. intros a _. apply big_sum_ext. intros b _. ring. }
    replace (esq - 2 * exy)
      with (K.big_sum la (fun a => K.big_sum lb (fun b =>
              Rsqr (x a b - y a b) * wt a b))); [exact J|].
    unfold esq, exy.
    replace (K.big_sum la (fun a => K.big_sum lb (fun b =>
               (Rsqr (x a b) + Rsqr (y a b)) * wt a b))
             - 2 * K.big_sum la (fun a => K.big_sum lb (fun b =>
                      x a b * y a b * wt a b)))
      with (K.big_sum la (fun a => K.big_sum lb (fun b =>
               (Rsqr (x a b) + Rsqr (y a b)) * wt a b))
            + (-2) * K.big_sum la (fun a => K.big_sum lb (fun b =>
                       x a b * y a b * wt a b))) by ring.
    rewrite <- big_sum2_combine.
    apply big_sum_ext. intros a _. apply big_sum_ext. intros b _.
    unfold Rsqr. ring.
  - pose proof (weighted_square_mean la lb wt (fun a b => x a b + y a b)
                  Hpos Hone) as J. cbv beta in J.
    replace (mx + my)
      with (K.big_sum la (fun a => K.big_sum lb (fun b =>
              (x a b + y a b) * wt a b))).
    2:{ unfold mx, my.
        replace (K.big_sum la (fun a => K.big_sum lb (fun b => x a b * wt a b))
                 + K.big_sum la (fun a => K.big_sum lb (fun b => y a b * wt a b)))
          with (K.big_sum la (fun a => K.big_sum lb (fun b => x a b * wt a b))
                + 1 * K.big_sum la (fun a => K.big_sum lb (fun b =>
                        y a b * wt a b))) by ring.
        rewrite <- big_sum2_combine.
        apply big_sum_ext. intros a _. apply big_sum_ext. intros b _. ring. }
    replace (esq + 2 * exy)
      with (K.big_sum la (fun a => K.big_sum lb (fun b =>
              Rsqr (x a b + y a b) * wt a b))); [exact J|].
    unfold esq, exy.
    rewrite <- big_sum2_combine.
    apply big_sum_ext. intros a _. apply big_sum_ext. intros b _.
    unfold Rsqr. ring.
Qed.

Lemma sum_bounds (lo hi : R) (l : list R) :
  Forall (fun x => lo <= x <= hi) l ->
  INR (length l) * lo <= K.sum l <= INR (length l) * hi.
Proof.
  unfold K.sum, K.big_sum.
  induction 1 as [|x l [H1 H2] _ IH].
  - simpl. lra.
  - change (length (x :: l)) with (S (length l)). rewrite S_INR. simpl. lra.
Qed.

Lemma mean1_bounds (lo hi : R) (l : list R) :
  lo <= 0 <= hi -> Forall (fun x => lo <= x <= hi) l ->
  lo <= K.mean1 l <= hi.
Proof.
  intros H0 H. unfold K.mean1. destruct l as [|x l].
  - simpl. unfold Rdiv. rewrite Rinv_0. lra.
  - pose proof (sum_bounds lo hi _ H) as [S1 S2].
    assert (Hn : 0 < INR (length (x :: l))) by (apply lt_0_INR; simpl; lia).
    pose proof (Rinv_0_lt_compat _ Hn) as Hi.
    assert (E : INR (length (x :: l)) * / INR (length (x :: l)) = 1)
      by (apply Rinv_r; lra).
    unfold Rdiv. split; nra.
Qed.

Lemma mean_hw_bounds (lo hi : R) n h w c (t : K.T4) :
  shape4 n h w c t -> (0 < h)%nat -> (0 < w)%nat -> lo <= 0 <= hi ->
  (forall b i j ch, (b < n)%nat -> (i < h)%nat -> (j < w)%nat -> (ch < c)%nat ->
     lo <= K.px (nth b t []) i j ch <= hi) ->
  Forall (Forall (fun x => lo <= x <= hi)) (K.mean_hw t).
Proof.
  intros Ht Hh Hw H0 H. unfold K.mean_hw.
  apply Forall_map, Forall_forall. intros im Him.
  destruct (In_nth _ _ [] Him) as [b [Hb Eb]].
  assert (Hb' : (b < n)%nat) by (destruct Ht as [L _]; lia).
  pose proof (sized_nth _ _ _ b [] Ht Hb') as Sim. rewrite Eb in Sim.
  rewrite (shape3_channels h w c im Sim Hh Hw).
  apply Forall_map, Forall_forall. intros ch Hch. apply in_seq in Hch.
  apply mean1_bounds; [assumption|].
  apply Forall_forall. intros x Hx.
  destruct (channel_entry h w c im ch x Sim Hx) as [i [j [Hi [Hj ->]]]].
  rewrite <- Eb. apply H; lia.
Qed.

(** ** The range of the structural similarity *)

Section SimilarityRange.

Variable self : DSSIMObjective.t.
Let k := Z.to_nat (DSSIMObjective._filter_size self).
Hypothesis Hbuilt : kernel_built self.
Hypothesis Hk : (0 < k)%nat.
Hypothesis Hc1 : 0 < DSSIMObjective._c1 self.
Hypothesis Hc2 : 0 < DSSIMObjective._c2 self.

Variables (n h w c : nat) (y_true y_pred : K.T4).
Hypothesis Ht : shape4 n h w c y_true.
Hypothesis Hp : shape4 n h w c y_pred.
Hypothesis Hn : (0 < n)%nat.
Hypothesis Hh : (k <= h)%nat.
Hypothesis Hw : (k <= w)%nat.

Let ker := K.tile_axis2 (DSSIMObjective._get_kernel self) c.

Lemma shape4_window_means y :
  shape4 n h w c y ->
  shape4 n (h + 1 - k) (w + 1 - k) c (K.depthwise_conv2d y ker).
Proof.
  intros Hy.
  pose proof (shape4_depthwise_conv2d n h w c y ker Hy) as H.
  unfold ker in H at 1 2.
  rewrite tiled_kernel_length, tiled_kernel_width in H by exact Hk.
  apply H; lia.
Qed.

Lemma px_window_mean y b i j ch :
  shape4 n h w c y ->
  (b < n)%nat -> (i < h + 1 - k)%nat -> (j < w + 1 - k)%nat -> (ch < c)%nat ->
  K.px (nth b (K.depthwise_conv2d y ker) []) i j ch
  = K.big_sum (seq 0 k) (fun a => K.big_sum (seq 0 k) (fun b' =>
      K.px (nth b y []) (i + a) (j + b') ch * kernel_weight self a b')).
Proof.
  intros Hy Hb Hi Hj Hch.
  rewrite (px_depthwise_conv2d n h w c) ; try assumption; try lia.
  - unfold ker. now apply conv_at_tiled.
  - unfold ker. rewrite tiled_kernel_length. exact Hi.
  - unfold ker. rewrite tiled_kernel_width by exact Hk. exact Hj.
Qed.

Lemma get_ssim_range :
  Forall (Forall (fun s => -1 <= s <= 1))
         (fst (DSSIMObjective._get_ssim self y_true y_pred)).
Proof.
  unfold DSSIMObjective._get_ssim; cbv zeta. cbn [fst].
  rewrite (last_int_shape n h w c y_pred Hp) by lia.
  rewrite Hbuilt. unfold DSSIMObjective._depthwise_conv2d. fold ker.
  unfold K.mul4, K.add4, K.sub4, K.div4, K.square.
  assert (Sq : forall y, shape4 n h w c y -> shape4 n h w c (K.map_4 Rsqr y))
    by (intros; now apply shape4_map).
  assert (Sz : forall f, shape4 n h w c (K.zip_4 f y_true y_pred))
    by (intros; now apply shape4_zip).
  pose proof (shape4_window_means y_true Ht) as St.
  pose proof (shape4_window_means y_pred Hp) as Sp.
  pose proof (shape4_window_means _ (Sz Rmult)) as Sxy.
  pose proof (shape4_window_means _
                (shape4_zip Rplus n h w c _ _ (Sq _ Ht) (Sq _ Hp))) as Ssq.
  apply (mean_hw_bounds (-1) 1 n (h + 1 - k) (w + 1 - k) c); try lia; try lra.
  { repeat first [assumption | apply shape4_zip | apply shape4_map]. }
  intros b i j ch Hb Hi Hj Hch.
  repeat first
    [ rewrite (px_zip_4 _ n (h + 1 - k) (w + 1 - k) c)
        by (try assumption;
            repeat first [assumption | apply shape4_zip | apply shape4_map])
    | rewrite (px_map_4 _ n (h + 1 - k) (w + 1 - k) c)
        by (try assumption;
            repeat first [assumption | apply shape4_zip | apply shape4_map]) ].
  rewrite !px_window_mean
    by (try assumption; try apply Sz; apply shape4_zip; now apply Sq).
  set (X := fun a b' => K.px (nth b y_true []) (i + a) (j + b') ch).
  set (Y := fun a b' => K.px (nth b y_pred []) (i + a) (j + b') ch).
  pose proof (weighted_moments (seq 0 k) (seq 0 k) (kernel_weight self) X Y
                (kernel_weight_nonneg self) (kernel_weight_total self Hk))
    as [Jm Jp]. cbv zeta in Jm, Jp.
  assert (Exy : K.big_sum (seq 0 k) (fun a => K.big_sum (seq 0 k) (fun b' =>
                  K.px (nth b (K.zip_4 Rmult y_true y_pred) []) (i + a) (j + b') ch
                  * kernel_weight self a b'))
                = K.big_sum (seq 0 k) (fun a => K.big_sum (seq 0 k) (fun b' =>
                    X a b' * Y a b' * kernel_weight self a b'))).
  { apply big_sum_ext. intros a Ha. apply big_sum_ext. intros b' Hb'.
    apply in_seq in Ha, Hb'.
    rewrite (px_zip_4 _ n h w c) by (try assumption; lia). reflexivity. }
  assert (Esq : K.big_sum (seq 0 k) (fun a => K.big_sum (seq 0 k) (fun b' =>
                  K.px (nth b (K.zip_4 Rplus (K.map_4 Rsqr y_true)
                                 (K.map_4 Rsqr y_pred)) []) (i + a) (j + b') ch
                  * kernel_weight self a b'))
                = K.big_sum (seq 0 k) (fun a => K.big_sum (seq 0 k) (fun b' =>
                    (Rsqr (X a b') + Rsqr (Y a b')) * kernel_weight self a b'))).
  { apply big_sum_ext. intros a Ha. apply big_sum_ext. intros b' Hb'.
    apply in_seq in Ha, Hb'.
    rewrite (px_zip_4 _ n h w c) by (try apply Sq; try assumption; lia).
    rewrite !(px_map_4 _ n h w c) by (try assumption; lia). reflexivity. }
  rewrite Exy, Esq.
  fold (X) (Y).
  apply ssim_point_bounds; assumption.
Qed.

Lemma get_contrast_range :
  Forall (Forall (fun s => -1 <= s <= 1))
         (snd (DSSIMObjective._get_ssim self y_true y_pred)).
Proof.
  unfold DSSIMObjective._get_ssim; cbv zeta. cbn [snd].
  rewrite (last_int_shape n h w c y_pred Hp) by lia.
  rewrite Hbuilt. unfold DSSIMObjective._depthwise_conv2d. fold ker.
  unfold K.mul4, K.add4, K.sub4, K.div4, K.square.
  assert (Sq : forall y, shape4 n h w c y -> shape4 n h w c (K.map_4 Rsqr y))
    by (intros; now apply shape4_map).
  assert (Sz : forall f, shape4 n h w c (K.zip_4 f y_true y_pred))
    by (intros; now apply shape4_zip).
  pose proof (shape4_window_means y_true Ht) as St.
  pose proof (shape4_window_means y_pred Hp) as Sp.
  pose proof (shape4_window_means _ (Sz Rmult)) as Sxy.
  pose proof (shape4_window_means _
                (shape4_zip Rplus n h w c _ _ (Sq _ Ht) (Sq _ Hp))) as Ssq.
  apply (mean_hw_bounds (-1) 1 n (h + 1 - k) (w + 1 - k) c); try lia; try lra.
  { repeat first [assumption | apply shape4_zip | apply shape4_map]. }
  intros b i j ch Hb Hi Hj Hch.
  repeat first
    [ rewrite (px_zip_4 _ n (h + 1 - k) (w + 1 - k) c)
        by (try assumption;
            repeat first [assumption | apply shape4_zip | apply shape4_map])
    | rewrite (px_map_4 _ n (h + 1 - k) (w + 1 - k) c)
        by (try assumption;
            repeat first [assumption | apply shape4_zip | apply shape4_map]) ].
  rewrite !px_window_mean
    by (try assumption; try apply Sz; apply shape4_zip; now apply Sq).
  set (X := fun a b' => K.px (nth b y_true []) (i + a) (j + b') ch).
  set (Y := fun a b' => K.px (nth b y_pred []) (i + a) (j + b') ch).
  pose proof (weighted_moments (seq 0 k) (seq 0 k) (kernel_weight self) X Y
                (kernel_weight_nonneg self) (kernel_weight_total self Hk))
    as [Jm Jp]. cbv zeta in Jm, Jp.
  assert (Exy : K.big_sum (seq 0 k) (fun a => K.big_sum (seq 0 k) (fun b' =>
                  K.px (nth b (K.zip_4 Rmult y_true y_pred) []) (i + a) (j + b') ch
                  * kernel_weight self a b'))
                = K.big_sum (seq 0 k) (fun a => K.big_sum (seq 0 k) (fun b' =>
                    X a b' * Y a b' * kernel_weight self a b'))).
  { apply big_sum_ext. intros a Ha. apply big_sum_ext. intros b' Hb'.
    apply in_seq in Ha, Hb'.
    rewrite (px_zip_4 _ n h w c) by (try assumption; lia). reflexivity. }
  assert (Esq : K.big_sum (seq 0 k) (fun a => K.big_sum (seq 0 k) (fun b' =>
                  K.px (nth b (K.zip_4 Rplus (K.map_4 Rsqr y_true)
                                 (K.map_4 Rsqr y_pred)) []) (i + a) (j + b') ch
                  * kernel_weight self a b'))
                = K.big_sum (seq 0 k) (fun a => K.big_sum (seq 0 k) (fun b' =>
                    (Rsqr (X a b') + Rsqr (Y a b')) * kernel_weight self a b'))).
  { apply big_sum_ext. intros a Ha. apply big_sum_ext. intros b' Hb'.
    apply in_seq in Ha, Hb'.
    rewrite (px_zip_4 _ n h w c) by (try apply Sq; try assumption; lia).
    rewrite !(px_map_4 _ n h w c) by (try assumption; lia). reflexivity. }
  rewrite Exy, Esq.
  fold (X) (Y).
  apply contrast_point_bounds; assumption.
Qed.

Lemma dssim_range : 0 <= DSSIMObjective.__call__ self y_true y_pred <= 1.
Proof.
  unfold DSSIMObjective.__call__; cbv zeta. unfold K.mean_all2, K.map_2.
  apply mean1_bounds; [lra|].
  apply Forall_forall. intros x Hx.
  apply in_concat in Hx. destruct Hx as [row [Hrow Hx]].
  apply in_map_iff in Hrow. destruct Hrow as [r [<- Hr]].
  apply in_map_iff in Hx. destruct Hx as [s [<- Hs]].
  pose proof get_ssim_range as R. rewrite Forall_forall in R.
  specialize (R r Hr). rewrite Forall_forall in R. specialize (R s Hs). lra.
Qed.

End SimilarityRange.

Lemma zip_4_comm f (a b : K.T4) :
  (forall x y, f x y = f y x) -> K.zip_4 f a b = K.zip_4 f b a.
Proof.
  intros H. unfold K.zip_4, K.zip_3, K.zip_2, K.zip_1.
  rewrite map2_flip. apply map2_ext. intros a1 a2.
  rewrite map2_flip. apply map2_ext. intros r1 r2.
  rewrite map2_flip. apply map2_ext. intros v1 v2.
  rewrite map2_flip. apply map2_ext. intros x1 x2. apply H.
Qed.

Lemma get_ssim_symmetric (self : DSSIMObjective.t) (y_true y_pred : K.T4) :
  last (K.int_shape y_true) 0%nat = last (K.int_shape y_pred) 0%nat ->
  DSSIMObjective._get_ssim self y_true y_pred
  = DSSIMObjective._get_ssim self y_pred y_true.
Proof.
  intros H. unfold DSSIMObjective._get_ssim; cbv zeta. rewrite H.
  set (ker := K.tile_axis2 _ _).
  unfold K.mul4, K.add4.
  rewrite (zip_4_comm Rmult (DSSIMObjective._depthwise_conv2d y_true ker))
    by (intros; ring).
  rewrite (zip_4_comm Rplus
             (K.square (DSSIMObjective._depthwise_conv2d y_true ker)))
    by (intros; ring).
  rewrite (zip_4_comm Rmult y_true) by (intros; ring).
  rewrite (zip_4_comm Rplus (K.square y_true)) by (intros; ring).
  reflexivity.
Qed.

(** ** The scales of [MSSIMLoss] *)

Lemma smallest_size_closed_form (size idx : Z) :
  MSSIMLoss._get_smallest_size size idx = (size / 2 ^ Z.max idx 0)%Z.
Proof.
  destruct (Z.le_gt_cases idx 0) as [H|H].
  - rewrite smallest_size_stop by assumption.
    rewrite Z.max_r by assumption. simpl. now rewrite Z.div_1_r.
  - rewrite Z.max_l by lia.
    rewrite <- (Z2Nat.id idx) by lia. apply smallest_size_pow.
Qed.

Lemma shrink_filter_idempotent self im_size :
  MSSIMLoss.shrink_filter (MSSIMLoss.shrink_filter self im_size) im_size
  = MSSIMLoss.shrink_filter self im_size.
Proof.
  pose proof (shrink_filter_size self im_size) as Hs.
  destruct (shrink_filter_frame self im_size) as [_ [_ [_ Hp]]].
  set (self' := MSSIMLoss.shrink_filter self im_size) in *.
  unfold MSSIMLoss.shrink_filter at 1; cbv zeta. rewrite Hp.
  destruct (Z.ltb_spec
              (MSSIMLoss._get_smallest_size im_size
                 (Z.of_nat (length (MSSIMLoss._power_factors self)) - 1))
              (DSSIMObjective._filter_size (MSSIMLoss.super self')))
    as [Hlt|Hge]; [lia | reflexivity].
Qed.

Lemma shrink_images_shape n h w c (y_true y_pred : K.T4) :
  shape4 n h w c y_true -> shape4 n h w c y_pred ->
  (0 < n)%nat -> (2 <= h)%nat -> (2 <= w)%nat ->
  let w' := if Nat.even h then (w / 2)%nat else ((w + 1) / 2)%nat in
  shape4 n ((h + 1) / 2) w' c (fst (MSSIMLoss._shrink_images (y_true, y_pred)))
  /\ shape4 n ((h + 1) / 2) w' c (snd (MSSIMLoss._shrink_images (y_true, y_pred))).
Proof.
  intros Ht Hp Hn Hh Hw w'. unfold MSSIMLoss._shrink_images; cbv zeta.
  cbn [fst snd].
  assert (E : Py.slice (Some 1%Z) (Some 2%Z) (K.int_shape y_pred) = [h]).
  { unfold K.int_shape.
    destruct (sized_hd _ _ _ [] Hp Hn) as [-> _]. reflexivity. }
  rewrite E. cbn [existsb]. rewrite orb_false_r.
  assert (Eodd : negb (h mod 2 =? 0)%nat = negb (Nat.even h)).
  { f_equal. destruct (Nat.even h) eqn:Ev.
    - apply Nat.even_spec in Ev. destruct Ev as [q ->].
      apply Nat.eqb_eq. rewrite Nat.mul_comm. apply Nat.Div0.mod_mul.
    - apply Nat.eqb_neq. intros Hm.
      assert (Nat.even h = true); [|congruence].
      apply Nat.even_spec. exists (h / 2)%nat.
      pose proof (Nat.div_mod_eq h 2). lia. }
  rewrite Eodd. unfold w'.
  destruct (Nat.even h) eqn:Ev; cbn [negb fst snd].
  - assert (Eh : ((h + 1) / 2 = h / 2)%nat).
    { apply Nat.even_spec in Ev. destruct Ev as [q ->].
      rewrite (Nat.mul_comm 2 q), Nat.div_add_l, Nat.div_mul by lia.
      simpl. lia. }
    rewrite Eh. split; now apply shape4_pool.
  - split; apply shape4_pool; now apply shape4_pad.
Qed.

(** ** The range of the multi-scale similarity *)

Lemma map2_Forall_both {A B C} (P : A -> Prop) (Q : B -> Prop) (S : C -> Prop)
    (g : A -> B -> C) l m :
  (forall a b, P a -> Q b -> S (g a b)) ->
  Forall P l -> Forall Q m -> Forall S (Py.map2 g l m).
Proof.
  intros H Hl. revert m. induction Hl as [|a l Ha _ IH]; intros m Hm.
  - constructor.
  - destruct Hm as [|b m Hb Hm]; simpl; constructor; auto.
Qed.

Lemma pow1_unit (x y : R) : 0 <= x <= 1 -> 0 <= y -> 0 <= K.pow1 x y <= 1.
Proof.
  intros [Hx0 Hx1] Hy. unfold K.pow1.
  destruct (Req_dec_T y (IZR (Int_part y))) as [E|_].
  - destruct (Int_part_sign y) as [Hz _]. specialize (Hz Hy).
    destruct (Int_part y) as [|p|p]; simpl; try lia; [lra|].
    split; [now apply pow_le|].
    rewrite <- (pow1 (Pos.to_nat p)). apply pow_incr. lra.
  - destruct (Rlt_dec 0 x) as [Hpos|_]; [|lra].
    unfold Rpower. split; [left; apply exp_pos|].
    apply exp_le_1.
    assert (Hln : ln x <= 0).
    { destruct Hx1 as [Hlt| ->]; [|rewrite ln_1; lra].
      left. rewrite <- ln_1. now apply ln_increasing. }
    nra.
Qed.

Lemma relu_expand_unit (t : K.T2) :
  Forall (Forall (fun x => -1 <= x <= 1)) t ->
  Forall (Forall (Forall (fun x => 0 <= x <= 1)))
         (K.map_3 K.relu1 (K.expand_dims2 t)).
Proof.
  intros H. unfold K.map_3, K.map_2, K.expand_dims2.
  rewrite map_map. apply Forall_map. eapply Forall_impl; [|exact H].
  intros row Hrow. rewrite map_map. apply Forall_map.
  eapply Forall_impl; [|exact Hrow].
  intros x [H1 H2]. simpl. constructor; [|constructor]. unfold K.relu1.
  split; [apply Rmax_r | apply Rmax_lub; lra].
Qed.

Lemma concatenate_last3_unit (ts : list K.T3) :
  Forall (Forall (Forall (Forall (fun x => 0 <= x <= 1)))) ts ->
  Forall (Forall (Forall (fun x => 0 <= x <= 1))) (K.concatenate_last3 ts).
Proof.
  unfold K.concatenate_last3, K.concatenate_with.
  intros [|t rest Ht Hrest]; [constructor|].
  revert t Ht. induction Hrest as [|u rest Hu _ IH]; intros t Ht; [exact Ht|].
  cbn [fold_left]. apply IH.
  apply map2_Forall_both with (P := Forall (Forall (fun x => 0 <= x <= 1)))
                              (Q := Forall (Forall (fun x => 0 <= x <= 1)));
    try assumption.
  intros a b Ha Hb.
  apply map2_Forall_both with (P := Forall (fun x => 0 <= x <= 1))
                              (Q := Forall (fun x => 0 <= x <= 1));
    try assumption.
  intros v1 v2 H1 H2. apply Forall_app. now split.
Qed.

Lemma nth_unit (v : list R) (idx : nat) :
  Forall (fun x => 0 <= x <= 1) v -> 0 <= nth idx v 0 <= 1.
Proof.
  intros H. destruct (nth_in_or_default idx v 0) as [Hin| ->]; [|lra].
  rewrite Forall_forall in H. now apply H.
Qed.

Lemma scale_product_unit (pf : list R) (mcs_and_ssim : K.T3) (idxs : list nat) :
  Forall (fun p => 0 <= p) pf ->
  Forall (Forall (Forall (fun x => 0 <= x <= 1))) mcs_and_ssim ->
  let ms_ssim := map (map (fun v => Py.map2 K.pow1 v pf)) mcs_and_ssim in
  let out := map (map (fun v => nth 0 v 0)) ms_ssim in
  Forall (Forall (fun x => 0 <= x <= 1))
    (fold_left (fun out idx =>
                  K.zip_2 Rmult out (map (map (fun v => nth idx v 0)) ms_ssim))
               idxs out).
Proof.
  intros Hpf Hm ms_ssim out.
  assert (Hms : Forall (Forall (Forall (fun x => 0 <= x <= 1))) ms_ssim).
  { unfold ms_ssim. apply Forall_map. eapply Forall_impl; [|exact Hm].
    intros a Ha. apply Forall_map. eapply Forall_impl; [|exact Ha].
    intros v Hv.
    apply map2_Forall_both with (P := fun x => 0 <= x <= 1) (Q := fun p => 0 <= p);
      try assumption.
    intros x p Hx Hp. now apply pow1_unit. }
  assert (Hsel : forall idx, Forall (Forall (fun x => 0 <= x <= 1))
                   (map (map (fun v => nth idx v 0)) ms_ssim)).
  { intros idx. apply Forall_map. eapply Forall_impl; [|exact Hms].
    intros a Ha. apply Forall_map. eapply Forall_impl; [|exact Ha].
    intros v Hv. now apply nth_unit. }
  assert (Hout : Forall (Forall (fun x => 0 <= x <= 1)) out) by apply Hsel.
  clearbody out. revert out Hout.
  induction idxs as [|idx idxs IH]; intros out Hout; [exact Hout|].
  cbn [fold_left]. apply IH. unfold K.zip_2, K.zip_1.
  apply map2_Forall_both with (P := Forall (fun x => 0 <= x <= 1))
                              (Q := Forall (fun x => 0 <= x <= 1));
    try assumption; [|apply Hsel].
  intros r1 r2 H1 H2.
  apply map2_Forall_both with (P := fun x => 0 <= x <= 1)
                              (Q := fun x => 0 <= x <= 1);
    try assumption.
  intros x y Hx Hy. split; nra.
Qed.

Section MultiScaleRange.

Variable self : MSSIMLoss.t.
Let k := Z.to_nat (DSSIMObjective._filter_size (MSSIMLoss.super self)).
Let scales := length (MSSIMLoss._power_factors self).
Hypothesis Hbuilt : kernel_built (MSSIMLoss.super self).
Hypothesis Hk : (0 < k)%nat.
Hypothesis Hc1 : 0 < DSSIMObjective._c1 (MSSIMLoss.super self).
Hypothesis Hc2 : 0 < DSSIMObjective._c2 (MSSIMLoss.super self).

Variables n c : nat.
Hypothesis Hn : (0 < n)%nat.

Let signed (t : K.T2) : Prop := Forall (Forall (fun x => -1 <= x <= 1)) t.
Let unit (t : K.T3) : Prop := Forall (Forall (Forall (fun x => 0 <= x <= 1))) t.

Lemma scale_step_range idx s a b contrasts ssim0 :
  shape4 n s s c a -> shape4 n s s c b -> Forall unit contrasts ->
  (idx = 0%nat -> (k <= s)%nat) ->
  ((0 < idx)%nat -> (2 <= s)%nat /\ (k <= (s + 1) / 2)%nat) ->
  exists a' b' contrasts' ssim,
    MSSIMLoss.scale_step self scales ((a, b), contrasts, ssim0) idx
    = ((a', b'), contrasts', Some ssim)
    /\ (let s' := if Nat.eqb idx 0 then s else ((s + 1) / 2)%nat in
        shape4 n s' s' c a' /\ shape4 n s' s' c b')
    /\ Forall unit contrasts' /\ signed ssim.
Proof.
  intros Ha Hb Hcs H0 Hpos. unfold MSSIMLoss.scale_step.
  set (images := if (0 <? idx)%nat then MSSIMLoss._shrink_images (a, b) else (a, b)).
  set (s' := if Nat.eqb idx 0 then s else ((s + 1) / 2)%nat).
  assert (Hs' : shape4 n s' s' c (fst images) /\ shape4 n s' s' c (snd images)
                /\ (k <= s')%nat).
  { unfold images, s'. destruct idx as [|idx]; cbn [Nat.ltb Nat.leb Nat.eqb fst snd].
    - split; [exact Ha | split; [exact Hb | now apply H0]].
    - destruct (Hpos ltac:(lia)) as [H2 Hks].
      destruct (shrink_images_shape n s s c a b Ha Hb Hn H2 H2) as [S1 S2].
      cbv zeta in S1, S2.
      assert (E : (if Nat.even s then (s / 2)%nat else ((s + 1) / 2)%nat)
                  = ((s + 1) / 2)%nat).
      { destruct (Nat.even s) eqn:Ev; [|reflexivity].
        apply Nat.even_spec in Ev. destruct Ev as [q ->].
        rewrite (Nat.mul_comm 2 q), Nat.div_add_l, Nat.div_mul by lia.
        simpl. lia. }
      rewrite E in S1, S2. split; [exact S1 | split; [exact S2 | exact Hks]]. }
  destruct Hs' as [S1 [S2 Hks]].
  pose proof (get_ssim_range _ Hbuilt Hk Hc1 Hc2 n s' s' c _ _ S1 S2 Hn Hks Hks)
    as Rs.
  pose proof (get_contrast_range _ Hbuilt Hk Hc2 n s' s' c _ _ S1 S2 Hn Hks Hks)
    as Rc.
  destruct (DSSIMObjective._get_ssim (MSSIMLoss.super self) (fst images) (snd images))
    as [ssim contrast]. cbn [fst snd] in Rs, Rc.
  exists (fst images), (snd images). eexists. exists ssim.
  split; [rewrite <- surjective_pairing; reflexivity|].
  split; [split; assumption|]. split; [|exact Rs].
  destruct (Z.of_nat idx <? Z.of_nat scales - 1)%Z; [|assumption].
  apply Forall_app. split; [assumption|].
  constructor; [|constructor]. now apply relu_expand_unit.
Qed.

Lemma scales_tail_range len : forall idx s a b contrasts ssim0,
  (0 < idx)%nat ->
  shape4 n s s c a -> shape4 n s s c b -> Forall unit contrasts ->
  ((0 < len)%nat -> (k <= s / 2 / 2 ^ (len - 1))%nat) ->
  exists images contrasts' ssim',
    fold_left (MSSIMLoss.scale_step self scales) (seq idx len)
              ((a, b), contrasts, ssim0)
    = (images, contrasts', ssim')
    /\ Forall unit contrasts'
    /\ (len = 0%nat -> ssim' = ssim0)
    /\ ((0 < len)%nat -> exists ssim, ssim' = Some ssim /\ signed ssim).
Proof.
  induction len as [|len IH]; intros idx s a b contrasts ssim0 Hidx Ha Hb Hcs Hks.
  - exists (a, b), contrasts, ssim0. simpl. repeat split; auto. lia.
  - specialize (Hks ltac:(lia)).
    replace (S len - 1)%nat with len in * by lia.
    assert (Hfloor : (s / 2 / 2 ^ len <= s / 2)%nat) by apply div_le_self.
    assert (Hup : (s / 2 <= (s + 1) / 2)%nat)
      by (apply Nat.Div0.div_le_mono; lia).
    assert (Hs : (2 <= s)%nat).
    { destruct (Nat.lt_ge_cases s 2) as [Hlt|]; [|assumption].
      rewrite (Nat.div_small s 2), Nat.Div0.div_0_l in Hks by assumption. lia. }
    destruct (scale_step_range idx s a b contrasts ssim0 Ha Hb Hcs
                ltac:(lia) ltac:(intros _; split; lia))
      as [a' [b' [contrasts' [ssim [E [[Ha' Hb'] [Hcs' Hss]]]]]]].
    destruct idx as [|idx]; [lia|]. cbn [Nat.eqb] in Ha', Hb'.
    rewrite <- cons_seq. cbn [fold_left]. rewrite E.
    destruct (IH (S (S idx)) ((s + 1) / 2)%nat a' b' contrasts' (Some ssim)
                ltac:(lia) Ha' Hb' Hcs')
      as [images [contrasts'' [ssim' [E' [Hcs'' [Hz Hp]]]]]].
    { intros Hlen. destruct len as [|len']; [lia|].
      replace (S len' - 1)%nat with len' by lia.
      rewrite Nat.Div0.div_div.
      replace (2 * 2 ^ len')%nat with (2 ^ S len')%nat by (simpl; lia).
      eapply Nat.le_trans; [exact Hks|].
      apply Nat.Div0.div_le_mono. exact Hup. }
    exists images, contrasts'', ssim'. split; [exact E'|].
    split; [exact Hcs''|]. split; [lia|]. intros _.
    destruct len as [|len'].
    + exists ssim. split; [now apply Hz | exact Hss].
    + apply Hp. lia.
Qed.

Lemma scales_range s y_true y_pred :
  (0 < scales)%nat ->
  shape4 n s s c y_true -> shape4 n s s c y_pred ->
  (k <= s / 2 ^ (scales - 1))%nat ->
  exists images contrasts ssim,
    fold_left (MSSIMLoss.scale_step self scales) (seq 0 scales)
              ((y_true, y_pred), [], None)
    = (images, contrasts, Some ssim)
    /\ Forall unit contrasts /\ signed ssim.
Proof.
  intros Hsc Ht Hp Hks.
  destruct scales as [|len] eqn:Esc; [lia|].
  replace (S len - 1)%nat with len in * by lia.
  assert (Hs : (k <= s)%nat).
  { eapply Nat.le_trans; [exact Hks|]. apply div_le_self. }
  rewrite <- cons_seq. cbn [fold_left]. rewrite <- Esc.
  destruct (scale_step_range 0 s y_true y_pred [] None Ht Hp
              ltac:(constructor) ltac:(auto) ltac:(lia))
    as [a' [b' [contrasts' [ssim [E [[Ha' Hb'] [Hcs' Hss]]]]]]].
  cbn [Nat.eqb] in Ha', Hb'. rewrite E.
  destruct (scales_tail_range len 1 s a' b' contrasts' (Some ssim)
              ltac:(lia) Ha' Hb' Hcs')
    as [images [contrasts'' [ssim' [E' [Hcs'' [Hz Hpos]]]]]].
  { intros Hlen. destruct len as [|len']; [lia|].
    replace (S len' - 1)%nat with len' by lia.
    rewrite Nat.Div0.div_div.
    replace (2 * 2 ^ len')%nat with (2 ^ S len')%nat by (simpl; lia).
    exact Hks. }
  destruct len as [|len'].
  - exists images, contrasts'', ssim. rewrite E', (Hz eq_refl). auto.
  - destruct (Hpos ltac:(lia)) as [ssim'' [-> Hss'']].
    exists images, contrasts'', ssim''. auto.
Qed.

End MultiScaleRange.

Lemma mssim_range (self : MSSIMLoss.t) n s c (y_true y_pred : K.T4) :
  kernel_built (MSSIMLoss.super self) ->
  (1 <= DSSIMObjective._filter_size (MSSIMLoss.super self))%Z ->
  0 < DSSIMObjective._c1 (MSSIMLoss.super self) ->
  0 < DSSIMObjective._c2 (MSSIMLoss.super self) ->
  MSSIMLoss._power_factors self <> [] ->
  Forall (fun p => 0 <= p) (MSSIMLoss._power_factors self) ->
  shape4 n s s c y_true -> shape4 n s s c y_pred ->
  (0 < n)%nat -> (0 < c)%nat ->
  (2 ^ (length (MSSIMLoss._power_factors self) - 1) <= s)%nat ->
  exists loss,
    snd (MSSIMLoss.__call__ self y_true y_pred) = Py.Ok loss /\ 0 <= loss <= 1.
Proof.
  intros Hbuilt Hfs Hc1 Hc2 Hpf Hpos Ht Hp Hn Hc Hs.
  unfold MSSIMLoss.__call__, MSSIMLoss._get_ms_ssim; cbv zeta.
  rewrite (nth_1_int_shape n s s c y_pred Hp Hn).
  set (self' := MSSIMLoss.shrink_filter self (Z.of_nat s)).
  destruct (shrink_filter_frame self (Z.of_nat s)) as [_ [E1 [E2 Epf]]].
  fold self' in E1, E2, Epf.
  pose proof (shrink_filter_size self (Z.of_nat s)) as Esize. fold self' in Esize.
  assert (Hlen : (0 < length (MSSIMLoss._power_factors self))%nat)
    by (destruct (MSSIMLoss._power_factors self); [congruence | simpl; lia]).
  replace (Z.of_nat (length (MSSIMLoss._power_factors self)) - 1)%Z
    with (Z.of_nat (length (MSSIMLoss._power_factors self) - 1)) in Esize by lia.
  rewrite smallest_size_nat in Esize.
  set (m := (length (MSSIMLoss._power_factors self) - 1)%nat) in *.
  assert (Hsmall : (1 <= s / 2 ^ m)%nat).
  { apply Nat.div_le_lower_bound; [apply Nat.pow_nonzero; lia | lia]. }
  destruct (scales_range self' (shrink_filter_built self (Z.of_nat s) Hbuilt)
              ltac:(lia) ltac:(rewrite E1; exact Hc1) ltac:(rewrite E2; exact Hc2)
              n c Hn s y_true y_pred)
    as [images [contrasts [ssim [E [Hcs Hss]]]]].
  - rewrite Epf. exact Hlen.
  - exact Ht.
  - exact Hp.
  - rewrite Epf. fold m. lia.
  - rewrite Epf in E. rewrite Epf, E. cbn [snd Py.bind].
    eexists. split; [reflexivity|].
    unfold K.mean_all2, K.map_2.
    apply mean1_bounds; [lra|].
    apply Forall_forall. intros x Hx.
    apply in_concat in Hx. destruct Hx as [row [Hrow Hx]].
    apply in_map_iff in Hrow. destruct Hrow as [r [<- Hr]].
    apply in_map_iff in Hx. destruct Hx as [v [<- Hv]].
    pose proof (scale_product_unit (MSSIMLoss._power_factors self)
                  (K.concatenate_last3
                     (contrasts ++ [K.map_3 K.relu1 (K.expand_dims2 ssim)]))
                  (seq 1 (length (MSSIMLoss._power_factors self) - 1)) Hpos) as U.
    cbv zeta in U.
    assert (Hm : Forall (Forall (Forall (fun x => 0 <= x <= 1)))
                   (K.concatenate_last3
                      (contrasts ++ [K.map_3 K.relu1 (K.expand_dims2 ssim)]))).
    { apply concatenate_last3_unit. apply Forall_app. split; [exact Hcs|].
      constructor; [|constructor]. now apply relu_expand_unit. }
    specialize (U Hm). rewrite Forall_forall in U. specialize (U r Hr).
    rewrite Forall_forall in U. specialize (U v Hv). lra.
Qed.

(** ** Registrations of [LossWrapper] *)

Lemma combine_app {A B} (l1 l2 : list A) (m1 m2 : list B) :
  length l1 = length m1 ->
  combine (l1 ++ l2) (m1 ++ m2) = combine l1 m1 ++ combine l2 m2.
Proof.
  revert m1. induction l1 as [|a l1 IH]; intros [|b m1] H;
    simpl in *; try discriminate; [reflexivity|].
  rewrite IH by lia. reflexivity.
Qed.

Lemma registrations_add_loss self function weight mask_channel :
  aligned self ->
  aligned (LossWrapper.add_loss self function weight mask_channel)
  /\ registrations (LossWrapper.add_loss self function weight mask_channel)
     = registrations self ++ [(function, (weight, mask_channel))].
Proof.
  intros [Hw Hm]. split.
  - unfold aligned, LossWrapper.add_loss. simpl. rewrite !length_app. simpl. lia.
  - unfold registrations, LossWrapper.add_loss. simpl.
    rewrite !combine_app by (rewrite ?length_combine; lia). reflexivity.
Qed.

Lemma registrations_fold regs : forall self,
  aligned self ->
  aligned (fold_left register regs self)
  /\ registrations (fold_left register regs self) = registrations self ++ regs.
Proof.
  induction regs as [|[f [w m]] regs IH]; intros self Hal.
  - simpl. now rewrite app_nil_r.
  - cbn [fold_left]. unfold register at 2 4. cbn [fst snd].
    destruct (registrations_add_loss self f w m Hal) as [Hal' E].
    destruct (IH _ Hal') as [Hal'' E'].
    split; [exact Hal''|]. rewrite E', E, <- app_assoc. reflexivity.
Qed.

Lemma call_of_run self y_true y_pred :
  LossWrapper.__call__ self y_true y_pred
  = (LossWrapper.mk
       (fst (LossWrapper.run (LossWrapper._loss_functions self)
               (LossWrapper._loss_weights self) (LossWrapper._mask_channels self)
               y_true y_pred (LossWrapper.PyFloat 0)))
       (LossWrapper._loss_weights self) (LossWrapper._mask_channels self),
     snd (LossWrapper.run (LossWrapper._loss_functions self)
            (LossWrapper._loss_weights self) (LossWrapper._mask_channels self)
            y_true y_pred (LossWrapper.PyFloat 0))).
Proof.
  unfold LossWrapper.__call__.
  now destruct (LossWrapper.run _ _ _ _ _ _).
Qed.

Lemma call_add_loss self function weight mask_channel y_true y_pred
    self' loss n_true n_pred function' this_loss :
  aligned self ->
  LossWrapper.__call__ self y_true y_pred = (self', Py.Ok loss) ->
  LossWrapper.arguments function y_true y_pred mask_channel
  = Py.Ok (n_true, n_pred) ->
  LossWrapper.call function n_true n_pred = (function', Py.Ok this_loss) ->
  LossWrapper.__call__
    (LossWrapper.add_loss self function weight mask_channel) y_true y_pred
  = (LossWrapper.add_loss self' function' weight mask_channel,
     Py.Ok (LossWrapper.iadd loss
              (LossWrapper.scale (LossWrapper.mean_trailing this_loss) weight))).
Proof.
  intros [Hw Hm] Hcall Harg Hfun.
  rewrite call_of_run in Hcall. injection Hcall as Eself Eloss.
  destruct (LossWrapper.run (LossWrapper._loss_functions self)
              (LossWrapper._loss_weights self) (LossWrapper._mask_channels self)
              y_true y_pred (LossWrapper.PyFloat 0)) as [pre' r] eqn:Erun.
  cbn [fst snd] in Eself, Eloss. subst r self'.
  rewrite call_of_run. unfold LossWrapper.add_loss.
  cbn [LossWrapper._loss_functions LossWrapper._loss_weights
       LossWrapper._mask_channels].
  rewrite (run_app _ _ _ [function] [weight] [mask_channel] y_true y_pred
             _ pre' loss Hw Hm Erun).
  cbn [LossWrapper.run]. rewrite Harg, Hfun. reflexivity.
Qed.

(** ** One value for each sample *)

Section PerSample.

Variables (n h w c : nat) (y_true y_pred : K.T4).
Hypothesis Ht : shape4 n h w c y_true.
Hypothesis Hp : shape4 n h w c y_pred.
Hypothesis Hc : (3 <= c)%nat.
Hypothesis Hh : (2 <= h)%nat.
Hypothesis Hw : (2 <= w)%nat.




End PerSample.

(** ** The landmark worker *)

Lemma process_landmarks_acc {face} (model : Align.image -> face -> list Align.point)
    image detected_faces : forall retval,
  fold_left (fun retval detected_face =>
               let pts := model image detected_face in
               let landmarks :=
                 map (fun point => (Align.x point, Align.y point)) pts in
               retval ++ [(detected_face, landmarks)])
            detected_faces retval
  = retval ++ map (fun f => (f, Align.landmarks_of face model image f))
                  detected_faces.
Proof.
  induction detected_faces as [|f faces IH]; intros retval.
  - simpl. now rewrite app_nil_r.
  - cbn [fold_left map]. rewrite IH, <- app_assoc. reflexivity.
Qed.

Lemma process_landmarks_map {face} (model : Align.image -> face -> list Align.point)
    image detected_faces :
  Align.process_landmarks face model image detected_faces
  = map (fun f => (f, Align.landmarks_of face model image f)) detected_faces.
Proof. exact (process_landmarks_acc model image detected_faces []). Qed.

Lemma align_frame {face} (model : Align.image -> face -> list Align.point)
    (i : Align.item face) queue :
  Align.frame face i ->
  Align.align face model (Align.Item face i :: queue)
  = (Align.finalized face model i :: fst (Align.align face model queue),
     snd (Align.align face model queue)).
Proof.
  intros [He [Hi Hf]]. cbn [Align.align]. rewrite He.
  unfold Align.finalized.
  destruct (Align.image_ face i) as [array|]; [|congruence].
  destruct (Align.detected_faces face i) as [faces|]; [|congruence].
  rewrite process_landmarks_map.
  now destruct (Align.align face model queue).
Qed.

Lemma align_frames {face} (model : Align.image -> face -> list Align.point)
    (frames : list (Align.item face)) queue :
  Forall (Align.frame face) frames ->
  Align.align face model (map (Align.Item face) frames ++ queue)
  = (map (Align.finalized face model) frames ++ fst (Align.align face model queue),
     snd (Align.align face model queue)).
Proof.
  induction 1 as [|i frames Hi _ IH].
  - simpl. now destruct (Align.align face model queue).
  - cbn [map app]. rewrite (align_frame model i _ Hi), IH. reflexivity.
Qed.

(** * Further theorems *)

(** ** [GradientLoss] *)

(** X1.  On a batch with at least two rows and two columns, [_diff_x] and
    [_diff_y] are the central differences halved, along the width and along
    the height: the entry at position [j] is half of the entry after [j]
    minus the entry before [j], and at the two borders the missing
    neighbour is replaced by the border entry itself. *)
Theorem X1_first_differences (n h w c : nat) (img : K.T4) (b i j ch : nat) :
  shape4 n h w c img -> (2 <= h)%nat -> (2 <= w)%nat ->
  (b < n)%nat -> (i < h)%nat -> (j < w)%nat -> (ch < c)%nat ->
  let im := nth b img [] in
  K.px (nth b (GradientLoss._diff_x img) []) i j ch
  = (K.px im i (next_index w j) ch - K.px im i (prev_index j) ch) * 0.5
  /\ K.px (nth b (GradientLoss._diff_y img) []) i j ch
     = (K.px im (next_index h i) j ch - K.px im (prev_index i) j ch) * 0.5.
Proof.
  intros Himg Hh Hw Hb Hi Hj Hch im. split.
  - now apply (diff_x_entry n h w c).
  - now apply (diff_y_entry n h w c).
Qed.

Lemma X1_first_differences_witness :
  K.px (nth 0 (GradientLoss._diff_x example_image) []) 0 2 0 = (4 - 2) * 0.5
  /\ K.px (nth 0 (GradientLoss._diff_y example_image) []) 0 2 0 = (32 - 4) * 0.5.
Proof.
  apply (X1_first_differences 1 2 3 1 example_image 0 0 2 0).
  - repeat constructor.
  - lia.
  - lia.
  - lia.
  - lia.
  - lia.
  - lia.
Defined.

(** X2.  Under the same conditions [_diff_xx] and [_diff_yy] are the second
    differences: the entry after plus the entry before minus twice the entry
    itself, with the same replacement at the borders. *)
Theorem X2_second_differences (n h w c : nat) (img : K.T4) (b i j ch : nat) :
  shape4 n h w c img -> (2 <= h)%nat -> (2 <= w)%nat ->
  (b < n)%nat -> (i < h)%nat -> (j < w)%nat -> (ch < c)%nat ->
  let im := nth b img [] in
  K.px (nth b (GradientLoss._diff_xx img) []) i j ch
  = K.px im i (next_index w j) ch + K.px im i (prev_index j) ch
    - 2 * K.px im i j ch
  /\ K.px (nth b (GradientLoss._diff_yy img) []) i j ch
     = K.px im (next_index h i) j ch + K.px im (prev_index i) j ch
       - 2 * K.px im i j ch.
Proof.
  intros Himg Hh Hw Hb Hi Hj Hch im. split.
  - now apply (diff_xx_entry n h w c).
  - now apply (diff_yy_entry n h w c).
Qed.

Lemma X2_second_differences_witness :
  K.px (nth 0 (GradientLoss._diff_xx example_image) []) 1 1 0 = 32 + 8 - 2 * 16
  /\ K.px (nth 0 (GradientLoss._diff_yy example_image) []) 1 1 0
     = 16 + 2 - 2 * 16.
Proof.
  apply (X2_second_differences 1 2 3 1 example_image 0 1 1 0).
  - repeat constructor.
  - lia.
  - lia.
  - lia.
  - lia.
  - lia.
  - lia.
Defined.

(** X3.  The gradient loss of two batches of one shape is half of the sum of
    four generalized losses, those of the two first and of the two second
    differences: the mixed differences, which the call computes as well,
    contribute nothing.  The generalized loss inside is one that divides by
    nothing that is zero, as the constructor makes it. *)
Theorem X3_gradient_loss_four_terms (self : GradientLoss.t) (n h w c : nat)
    (y_true y_pred : K.T4) :
  GeneralizedLoss.alpha (GradientLoss.generalized_loss self) <> 0 ->
  GeneralizedLoss.alpha (GradientLoss.generalized_loss self) <> 2 ->
  GeneralizedLoss.beta (GradientLoss.generalized_loss self) <> 0 ->
  shape4 n h w c y_true -> shape4 n h w c y_pred ->
  (2 <= h)%nat -> (2 <= w)%nat ->
  let loss := GeneralizedLoss.__call__ (GradientLoss.generalized_loss self) in
  GradientLoss.__call__ self y_true y_pred
  = K.map_3 (fun x => x / 2)
      (K.add3
         (K.add3 (loss (GradientLoss._diff_x y_true) (GradientLoss._diff_x y_pred))
                 (loss (GradientLoss._diff_y y_true) (GradientLoss._diff_y y_pred)))
         (K.add3 (loss (GradientLoss._diff_xx y_true) (GradientLoss._diff_xx y_pred))
                 (loss (GradientLoss._diff_yy y_true) (GradientLoss._diff_yy y_pred)))).
Proof. intros _ _ _. apply gradient_call_four_terms. Qed.

Lemma X3_gradient_loss_four_terms_witness :
  let loss :=
    GeneralizedLoss.__call__ (GradientLoss.generalized_loss GradientLoss.__init__) in
  GradientLoss.__call__ GradientLoss.__init__ example_true example_pred
  = K.map_3 (fun x => x / 2)
      (K.add3
         (K.add3 (loss (GradientLoss._diff_x example_true)
                       (GradientLoss._diff_x example_pred))
                 (loss (GradientLoss._diff_y example_true)
                       (GradientLoss._diff_y example_pred)))
         (K.add3 (loss (GradientLoss._diff_xx example_true)
                       (GradientLoss._diff_xx example_pred))
                 (loss (GradientLoss._diff_yy example_true)
                       (GradientLoss._diff_yy example_pred)))).
Proof.
  apply (X3_gradient_loss_four_terms GradientLoss.__init__ 2 2 2 1).
  - simpl. lra.
  - simpl. lra.
  - simpl. lra.
  - repeat constructor.
  - repeat constructor.
  - lia.
  - lia.
Defined.

(** X4.  The gradient loss does not see a constant added to every entry of
    one of its two arguments: a uniform change of brightness of the
    prediction, or of the ground truth, leaves the loss as it is. *)
Theorem X4_gradient_loss_ignores_offset (self : GradientLoss.t) (n h w c : nat)
    (y_true y_pred : K.T4) (k : R) :
  shape4 n h w c y_true -> shape4 n h w c y_pred ->
  (2 <= h)%nat -> (2 <= w)%nat ->
  GradientLoss.__call__ self y_true (offset4 k y_pred)
  = GradientLoss.__call__ self y_true y_pred
  /\ GradientLoss.__call__ self (offset4 k y_true) y_pred
     = GradientLoss.__call__ self y_true y_pred.
Proof. apply gradient_call_offset. Qed.

Lemma X4_gradient_loss_ignores_offset_witness :
  GradientLoss.__call__ GradientLoss.__init__ example_true
    (offset4 0.25 example_pred)
  = GradientLoss.__call__ GradientLoss.__init__ example_true example_pred.
Proof.
  refine (proj1 (X4_gradient_loss_ignores_offset GradientLoss.__init__ 2 2 2 1
                   example_true example_pred 0.25 _ _ _ _)).
  - repeat constructor.
  - repeat constructor.
  - lia.
  - lia.
Defined.

(** ** [GeneralizedLoss] *)

(** X5.  The generalized loss is symmetric: exchanging the ground truth and
    the prediction does not change it, for every [alpha] and [beta] and for
    all inputs. *)
Theorem X5_generalized_loss_symmetric (self : GeneralizedLoss.t)
    (y_true y_pred : K.T4) :
  GeneralizedLoss.__call__ self y_true y_pred
  = GeneralizedLoss.__call__ self y_pred y_true.
Proof. apply generalized_loss_symmetric. Qed.

(** X6.  For [alpha] other than 0 and 2 and a positive [beta], no entry of
    the generalized loss is negative, also for negative [alpha]. *)
Theorem X6_generalized_loss_nonnegative (self : GeneralizedLoss.t)
    (y_true y_pred : K.T4) :
  GeneralizedLoss.alpha self <> 0 -> GeneralizedLoss.alpha self <> 2 ->
  0 < GeneralizedLoss.beta self ->
  Forall (Forall (Forall (fun x => 0 <= x)))
         (GeneralizedLoss.__call__ self y_true y_pred).
Proof. apply generalized_loss_nonneg. Qed.

Lemma X6_generalized_loss_nonnegative_witness :
  Forall (Forall (Forall (fun x => 0 <= x)))
         (GeneralizedLoss.__call__ (GeneralizedLoss.__init__ (-2) (1 / 255))
            example_true example_pred).
Proof.
  apply X6_generalized_loss_nonnegative.
  - simpl. lra.
  - simpl. lra.
  - simpl. lra.
Defined.

(** X7.  With [alpha = 1], the default, the generalized loss is the smooth
    L1 loss: at every pixel it is [beta] times the mean over the channels of
    [sqrt ((d / beta)^2 + 1) - 1] for the differences [d] of the channels.
    For a positive [beta] this value lies between zero and the mean absolute
    difference of the pixel. *)
Theorem X7_generalized_loss_default_shape (beta : R) (y_true y_pred : K.T4) :
  0 < beta ->
  let smooth := fun t p =>
    K.mean1 (Py.map2 (fun a b => sqrt (Rsqr ((b - a) / beta) + 1) - 1) t p)
    * beta in
  GeneralizedLoss.__call__ (GeneralizedLoss.__init__ 1 beta) y_true y_pred
  = Py.map2 (Py.map2 (Py.map2 smooth)) y_true y_pred
  /\ forall t p,
       0 <= smooth t p
       <= K.mean1 (Py.map2 (fun a b => Rabs (b - a)) t p).
Proof. apply generalized_loss_smooth_l1. Qed.

Lemma X7_generalized_loss_default_shape_witness :
  GeneralizedLoss.__call__ GeneralizedLoss.default example_true example_pred
  = Py.map2 (Py.map2 (Py.map2 (fun t p =>
      K.mean1 (Py.map2 (fun a b => sqrt (Rsqr ((b - a) / (1 / 255)) + 1) - 1) t p)
      * (1 / 255)))) example_true example_pred.
Proof.
  refine (proj1 (X7_generalized_loss_default_shape (1 / 255)
                   example_true example_pred _)).
  lra.
Defined.

(** ** [LInfNorm] *)

(** X8.  For each sample of two batches of one shape, the L-infinity loss is
    the single value [[[v]]], where [v] is the mean over the channels of the
    largest absolute difference of the channel: a value [m ch] that no pixel
    of the channel exceeds and that one of its pixels attains. *)
Theorem X8_linf_norm_is_mean_of_channel_maxima (n h w c : nat)
    (y_true y_pred : K.T4) (b : nat) :
  shape4 n h w c y_true -> shape4 n h w c y_pred ->
  (0 < h)%nat -> (0 < w)%nat -> (0 < c)%nat -> (b < n)%nat ->
  let err := fun i j ch =>
    Rabs (K.px (nth b y_true []) i j ch - K.px (nth b y_pred []) i j ch) in
  exists m : nat -> R,
    nth b (LInfNorm.__call__ y_true y_pred) []
    = [[K.big_sum (seq 0 c) m / INR c]]
    /\ forall ch, (ch < c)%nat ->
         (forall i j, (i < h)%nat -> (j < w)%nat -> err i j ch <= m ch)
         /\ exists i j, (i < h)%nat /\ (j < w)%nat /\ m ch = err i j ch.
Proof. intros Ht Hp Hh Hw _. now apply linf_channel_maxima. Qed.

Lemma X8_linf_norm_is_mean_of_channel_maxima_witness :
  exists m : nat -> R,
    nth 1 (LInfNorm.__call__ example_true example_pred) []
    = [[K.big_sum (seq 0 1) m / INR 1]].
Proof.
  destruct (X8_linf_norm_is_mean_of_channel_maxima 2 2 2 1
              example_true example_pred 1) as [m [E _]].
  - repeat constructor.
  - repeat constructor.
  - lia.
  - lia.
  - lia.
  - lia.
  - exists m. exact E.
Defined.

(** X9.  The L-infinity loss is symmetric in its two arguments. *)
Theorem X9_linf_norm_symmetric (y_true y_pred : K.T4) :
  LInfNorm.__call__ y_true y_pred = LInfNorm.__call__ y_pred y_true.
Proof. apply linf_symmetric. Qed.

(** ** [DSSIMObjective] *)

(** X10.  For a filter size [k >= 1] and a sigma other than zero,
    [_get_kernel] returns a tensor of shape [(k, k, 1, 1)] that holds the
    normalised Gaussian window: the entry at row [a] and column [b] is the
    Gaussian weight of the position divided by the sum of the weights of all
    positions.  Every entry is positive, the window is symmetric in rows and
    columns, and its entries add up to one. *)
Theorem X10_kernel_is_normalised_gaussian (self : DSSIMObjective.t) :
  (1 <= DSSIMObjective._filter_size self)%Z ->
  DSSIMObjective._filter_sigma self <> 0 ->
  let k := Z.to_nat (DSSIMObjective._filter_size self) in
  let kernel := DSSIMObjective._get_kernel self in
  let total := K.big_sum (seq 0 k) (fun a =>
                 K.big_sum (seq 0 k) (fun b => gaussian_weight self a b)) in
  shape4 k k 1 1 kernel
  /\ (forall a b, (a < k)%nat -> (b < k)%nat ->
        K.kel kernel a b 0 = gaussian_weight self a b / total
        /\ 0 < K.kel kernel a b 0
        /\ K.kel kernel a b 0 = K.kel kernel b a 0)
  /\ K.big_sum (seq 0 k) (fun a =>
       K.big_sum (seq 0 k) (fun b => K.kel kernel a b 0)) = 1.
Proof.
  intros Hsize _ k kernel total.
  assert (Hk : (0 < k)%nat) by (unfold k; lia).
  split; [apply shape4_get_kernel|]. split.
  - intros a b Ha Hb. unfold kernel.
    rewrite !kernel_entry by assumption. split; [|split].
    + now apply kernel_weight_gaussian.
    + now apply kernel_weight_pos.
    + rewrite !kernel_weight_gaussian by assumption. f_equal.
      unfold gaussian_weight; cbv zeta. f_equal. ring.
  - rewrite <- (kernel_weight_total self Hk). fold k.
    apply big_sum_ext. intros a Ha. apply big_sum_ext. intros b Hb.
    apply in_seq in Ha, Hb. apply kernel_entry; lia.
Qed.

Lemma X10_kernel_is_normalised_gaussian_witness :
  shape4 2 2 1 1 (DSSIMObjective._get_kernel example_dssim)
  /\ K.big_sum (seq 0 2) (fun a =>
       K.big_sum (seq 0 2) (fun b =>
         K.kel (DSSIMObjective._get_kernel example_dssim) a b 0)) = 1.
Proof.
  destruct (X10_kernel_is_normalised_gaussian example_dssim) as [S [_ T]].
  - simpl. lia.
  - simpl. lra.
  - split; [exact S | exact T].
Defined.

(** X11.  When the filter fits into the images, the kernel is the one of the
    filter size and both constants are positive, every mean SSIM and every
    mean contrast that [_get_ssim] returns lies between -1 and 1, and the
    DSSIM loss of two batches of one shape lies between 0 and 1. *)
Theorem X11_dssim_range (self : DSSIMObjective.t) (n h w c : nat)
    (y_true y_pred : K.T4) :
  kernel_built self ->
  (1 <= DSSIMObjective._filter_size self)%Z ->
  0 < DSSIMObjective._c1 self -> 0 < DSSIMObjective._c2 self ->
  shape4 n h w c y_true -> shape4 n h w c y_pred ->
  (0 < n)%nat -> (0 < c)%nat ->
  (DSSIMObjective._filter_size self <= Z.of_nat h)%Z ->
  (DSSIMObjective._filter_size self <= Z.of_nat w)%Z ->
  Forall (Forall (fun s => -1 <= s <= 1))
         (fst (DSSIMObjective._get_ssim self y_true y_pred))
  /\ Forall (Forall (fun s => -1 <= s <= 1))
            (snd (DSSIMObjective._get_ssim self y_true y_pred))
  /\ 0 <= DSSIMObjective.__call__ self y_true y_pred <= 1.
Proof.
  intros Hbuilt Hk H1 H2 Ht Hp Hn _ Hh Hw.
  split; [|split].
  - apply (get_ssim_range self Hbuilt ltac:(lia) H1 H2 n h w c); auto; lia.
  - apply (get_contrast_range self Hbuilt ltac:(lia) H2 n h w c); auto; lia.
  - apply (dssim_range self Hbuilt ltac:(lia) H1 H2 n h w c); auto; lia.
Qed.

Lemma X11_dssim_range_witness :
  0 <= DSSIMObjective.__call__ example_dssim example_true example_pred <= 1.
Proof.
  refine (proj2 (proj2 (X11_dssim_range example_dssim 2 2 2 1
                          example_true example_pred _ _ _ _ _ _ _ _ _ _))).
  - reflexivity.
  - simpl. lia.
  - apply init_c1_pos. lra.
  - apply init_c2_pos. lra.
  - repeat constructor.
  - repeat constructor.
  - lia.
  - lia.
  - simpl. lia.
  - simpl. lia.
Defined.

(** X12.  The structural similarity is symmetric: for two batches with the
    same number of channels, exchanging them changes neither the mean SSIM
    and the mean contrast nor the DSSIM loss. *)
Theorem X12_dssim_symmetric (self : DSSIMObjective.t) (y_true y_pred : K.T4) :
  last (K.int_shape y_true) 0%nat = last (K.int_shape y_pred) 0%nat ->
  DSSIMObjective._get_ssim self y_true y_pred
  = DSSIMObjective._get_ssim self y_pred y_true
  /\ DSSIMObjective.__call__ self y_true y_pred
     = DSSIMObjective.__call__ self y_pred y_true.
Proof.
  intros H. pose proof (get_ssim_symmetric self y_true y_pred H) as E.
  split; [exact E|]. unfold DSSIMObjective.__call__. now rewrite E.
Qed.

Lemma X12_dssim_symmetric_witness :
  DSSIMObjective.__call__ example_dssim example_true example_pred
  = DSSIMObjective.__call__ example_dssim example_pred example_true.
Proof.
  refine (proj2 (X12_dssim_symmetric example_dssim example_true example_pred _)).
  reflexivity.
Defined.

(** ** [MSSIMLoss] *)

(** X13.  [_get_smallest_size size idx] is [size] floor-divided by two to
    the power [idx]; an [idx] of zero or below returns [size] itself. *)
Theorem X13_smallest_size_closed_form (size idx : Z) :
  MSSIMLoss._get_smallest_size size idx = (size / 2 ^ Z.max idx 0)%Z.
Proof. apply smallest_size_closed_form. Qed.

(** X14.  The filter of an [MSSIMLoss] object never grows again.  After a
    call on images of height [s1] and a second call, on the object that the
    first one left, on images of height [s2], the filter size is the
    smallest of the original filter size and the smallest scales of the two
    heights; the kernel still is the one of the filter size if it was so at
    the start; and a second call on images of the height of the first one
    leaves the object as the first call left it. *)
Theorem X14_mssim_filter_never_grows (self : MSSIMLoss.t)
    (n1 s1 w1 c1 n2 s2 w2 c2 : nat) (y_true1 y_pred1 y_true2 y_pred2 : K.T4) :
  shape4 n1 s1 w1 c1 y_pred1 -> shape4 n2 s2 w2 c2 y_pred2 ->
  (0 < n1)%nat -> (0 < n2)%nat ->
  let m := Z.of_nat (length (MSSIMLoss._power_factors self)) in
  let self1 := fst (MSSIMLoss.__call__ self y_true1 y_pred1) in
  let self2 := fst (MSSIMLoss.__call__ self1 y_true2 y_pred2) in
  DSSIMObjective._filter_size (MSSIMLoss.super self2)
  = Z.min (Z.min (DSSIMObjective._filter_size (MSSIMLoss.super self))
                 (MSSIMLoss._get_smallest_size (Z.of_nat s1) (m - 1)))
          (MSSIMLoss._get_smallest_size (Z.of_nat s2) (m - 1))
  /\ (kernel_built (MSSIMLoss.super self) -> kernel_built (MSSIMLoss.super self2))
  /\ (s2 = s1 -> self2 = self1).
Proof.
  intros H1 H2 Hn1 Hn2 m self1 self2.
  assert (E1 : self1 = MSSIMLoss.shrink_filter self (Z.of_nat s1)).
  { unfold self1. rewrite call_object, get_ms_ssim_object.
    now rewrite (nth_1_int_shape n1 s1 w1 c1 y_pred1 H1 Hn1). }
  assert (E2 : self2 = MSSIMLoss.shrink_filter self1 (Z.of_nat s2)).
  { unfold self2. rewrite call_object, get_ms_ssim_object.
    now rewrite (nth_1_int_shape n2 s2 w2 c2 y_pred2 H2 Hn2). }
  destruct (shrink_filter_frame self (Z.of_nat s1)) as [_ [_ [_ Hpf]]].
  rewrite <- E1 in Hpf.
  split; [|split].
  - rewrite E2, shrink_filter_size, Hpf, E1, shrink_filter_size. reflexivity.
  - intros Hb. rewrite E2, E1. now do 2 apply shrink_filter_built.
  - intros ->. rewrite E2, E1. apply shrink_filter_idempotent.
Qed.

Lemma X14_mssim_filter_never_grows_witness :
  let self := MSSIMLoss.__init__ 0.01 0.03 11 1.5 1 MSSIMLoss.default_power_factors in
  let small := full4 0.5 1 64 64 3 in
  let large := full4 0.5 1 256 256 3 in
  DSSIMObjective._filter_size
    (MSSIMLoss.super
       (fst (MSSIMLoss.__call__ (fst (MSSIMLoss.__call__ self small small))
               large large)))
  = 4%Z.
Proof.
  intros self small large.
  destruct (X14_mssim_filter_never_grows self 1 64 64 3 1 256 256 3
              small small large large) as [E _].
  - unfold small, full4, full3. repeat apply sized_repeat. apply repeat_length.
  - unfold large, full4, full3. repeat apply sized_repeat. apply repeat_length.
  - lia.
  - lia.
  - rewrite E, !smallest_size_closed_form. reflexivity.
Defined.

(** X15.  An [MSSIMLoss] object without power factors cannot be called: the
    loop over the scales never binds [ssim], and the call ends with
    [UnboundLocalError].  The filter was shrunk to the height of the
    prediction before, if the height is smaller. *)
Theorem X15_mssim_without_power_factors (self : MSSIMLoss.t) (n h w c : nat)
    (y_true y_pred : K.T4) :
  MSSIMLoss._power_factors self = [] ->
  shape4 n h w c y_pred -> (0 < n)%nat ->
  snd (MSSIMLoss.__call__ self y_true y_pred) = Py.Raise Py.UnboundLocalError
  /\ DSSIMObjective._filter_size
       (MSSIMLoss.super (fst (MSSIMLoss.__call__ self y_true y_pred)))
     = Z.min (DSSIMObjective._filter_size (MSSIMLoss.super self)) (Z.of_nat h).
Proof.
  intros Hpf Hp Hn. split.
  - unfold MSSIMLoss.__call__, MSSIMLoss._get_ms_ssim; cbv zeta.
    destruct (shrink_filter_frame self
                (Z.of_nat (nth 1 (K.int_shape y_pred) 0%nat))) as [_ [_ [_ E]]].
    rewrite Hpf. reflexivity.
  - rewrite call_object, get_ms_ssim_object.
    rewrite (nth_1_int_shape n h w c y_pred Hp Hn).
    rewrite shrink_filter_size, Hpf, smallest_size_closed_form. simpl.
    now rewrite Z.div_1_r.
Qed.

Lemma X15_mssim_without_power_factors_witness :
  snd (MSSIMLoss.__call__ (MSSIMLoss.__init__ 0.01 0.03 11 1.5 1 [])
         example_true example_pred)
  = Py.Raise Py.UnboundLocalError.
Proof.
  refine (proj1 (X15_mssim_without_power_factors
                   (MSSIMLoss.__init__ 0.01 0.03 11 1.5 1 []) 2 2 2 1
                   example_true example_pred _ _ _)).
  - reflexivity.
  - repeat constructor.
  - lia.
Defined.

(** X16.  [_shrink_images] halves both images of a pair of one shape.  The
    padding by one row and one column is decided by the height alone: an odd
    height [h] is rounded up, and the width with it; with an even height
    the last column of an odd width is dropped. *)
Theorem X16_shrink_images_shape (n h w c : nat) (y_true y_pred : K.T4) :
  shape4 n h w c y_true -> shape4 n h w c y_pred ->
  (0 < n)%nat -> (2 <= h)%nat -> (2 <= w)%nat ->
  let w' := if Nat.even h then (w / 2)%nat else ((w + 1) / 2)%nat in
  shape4 n ((h + 1) / 2) w' c (fst (MSSIMLoss._shrink_images (y_true, y_pred)))
  /\ shape4 n ((h + 1) / 2) w' c (snd (MSSIMLoss._shrink_images (y_true, y_pred))).
Proof. apply shrink_images_shape. Qed.

Lemma X16_shrink_images_shape_witness :
  shape4 1 1 1 1 (fst (MSSIMLoss._shrink_images (example_image, example_image)))
  /\ shape4 1 1 1 1 (snd (MSSIMLoss._shrink_images (example_image, example_image))).
Proof.
  apply (X16_shrink_images_shape 1 2 3 1 example_image example_image).
  - repeat constructor.
  - repeat constructor.
  - lia.
  - lia.
  - lia.
Defined.

(** X17.  For square images of side [s], at least one power factor, none of
    them negative, and [s] large enough to leave one pixel at the last
    scale, the MS-SSIM loss is returned and lies between 0 and 1. *)
Theorem X17_mssim_loss_range (self : MSSIMLoss.t) (n s c : nat)
    (y_true y_pred : K.T4) :
  kernel_built (MSSIMLoss.super self) ->
  (1 <= DSSIMObjective._filter_size (MSSIMLoss.super self))%Z ->
  0 < DSSIMObjective._c1 (MSSIMLoss.super self) ->
  0 < DSSIMObjective._c2 (MSSIMLoss.super self) ->
  MSSIMLoss._power_factors self <> [] ->
  Forall (fun p => 0 <= p) (MSSIMLoss._power_factors self) ->
  shape4 n s s c y_true -> shape4 n s s c y_pred ->
  (0 < n)%nat -> (0 < c)%nat ->
  (2 ^ (length (MSSIMLoss._power_factors self) - 1) <= s)%nat ->
  exists loss,
    snd (MSSIMLoss.__call__ self y_true y_pred) = Py.Ok loss /\ 0 <= loss <= 1.
Proof. apply mssim_range. Qed.

Lemma X17_mssim_loss_range_witness :
  exists loss,
    snd (MSSIMLoss.__call__ (MSSIMLoss.__init__ 0.01 0.03 11 1.5 1 [0.5; 0.5])
           example_true example_pred) = Py.Ok loss
    /\ 0 <= loss <= 1.
Proof.
  apply (X17_mssim_loss_range _ 2 2 1).
  - reflexivity.
  - simpl. lia.
  - apply init_c1_pos. lra.
  - apply init_c2_pos. lra.
  - discriminate.
  - repeat constructor; lra.
  - repeat constructor.
  - repeat constructor.
  - lia.
  - lia.
  - simpl. lia.
Defined.

(** ** [LossWrapper] *)

(** X18.  A wrapper that is filled by [add_loss] alone keeps its three lists
    at one length, so the loop of the call leaves no registration out: the
    registrations that the loop sees are the added ones, in the order in
    which they were added. *)
Theorem X18_add_loss_keeps_registrations
    (regs : list (LossWrapper.loss_function * (R * Z))) :
  let self := fold_left register regs LossWrapper.__init__ in
  aligned self /\ registrations self = regs.
Proof.
  intros self.
  destruct (registrations_fold regs LossWrapper.__init__) as [Hal E].
  - split; reflexivity.
  - split; [exact Hal | exact E].
Qed.

(** X19.  Adding a loss to a wrapper adds one term to its result.  If the
    wrapper returns [loss] and the new function returns [this_loss] on its
    masked arguments, the extended wrapper returns [loss] plus the weight
    times [this_loss] averaged over all axes but the first; the callables
    are left as the calls left them. *)
Theorem X19_call_after_add_loss (self : LossWrapper.t)
    (function : LossWrapper.loss_function) (weight : R) (mask_channel : Z)
    (y_true y_pred : K.T4) (self' : LossWrapper.t) (loss : LossWrapper.value)
    (n_true n_pred : K.T4) (function' : LossWrapper.loss_function)
    (this_loss : LossWrapper.tensor) :
  aligned self ->
  LossWrapper.__call__ self y_true y_pred = (self', Py.Ok loss) ->
  LossWrapper.arguments function y_true y_pred mask_channel
  = Py.Ok (n_true, n_pred) ->
  LossWrapper.call function n_true n_pred = (function', Py.Ok this_loss) ->
  LossWrapper.__call__
    (LossWrapper.add_loss self function weight mask_channel) y_true y_pred
  = (LossWrapper.add_loss self' function' weight mask_channel,
     Py.Ok (LossWrapper.iadd loss
              (LossWrapper.scale (LossWrapper.mean_trailing this_loss) weight))).
Proof. apply call_add_loss. Qed.

Lemma X19_call_after_add_loss_witness :
  let n_true := K.slice_last None (Some 3%Z) example_rgb_true in
  let n_pred := K.slice_last None (Some 3%Z) example_rgb_pred in
  LossWrapper.__call__
    (LossWrapper.add_loss LossWrapper.__init__ LossWrapper.LInf 2 (-1))
    example_rgb_true example_rgb_pred
  = (LossWrapper.add_loss LossWrapper.__init__ LossWrapper.LInf 2 (-1),
     Py.Ok (LossWrapper.iadd (LossWrapper.PyFloat 0)
              (LossWrapper.scale
                 (LossWrapper.mean_trailing
                    (LossWrapper.Rank3 (LInfNorm.__call__ n_true n_pred)))
                 2))).
Proof.
  intros n_true n_pred.
  apply (X19_call_after_add_loss LossWrapper.__init__ LossWrapper.LInf 2 (-1)
           example_rgb_true example_rgb_pred LossWrapper.__init__
           (LossWrapper.PyFloat 0) n_true n_pred).
  - split; reflexivity.
  - reflexivity.
  - reflexivity.
  - reflexivity.
Defined.



(** ** The landmark worker *)

(** X21.  [process_landmarks] returns one pair for each detected face, in
    the order of the faces: the face itself, unchanged, and the coordinates
    of the points that the predictor returns for this face on the image. *)
Theorem X21_process_landmarks_keeps_faces {face : Type}
    (model : Align.image -> face -> list Align.point)
    (image : Align.image) (detected_faces : list face) :
  Align.process_landmarks face model image detected_faces
  = map (fun f => (f, Align.landmarks_of face model image f)) detected_faces
  /\ map fst (Align.process_landmarks face model image detected_faces)
     = detected_faces
  /\ length (Align.process_landmarks face model image detected_faces)
     = length detected_faces.
Proof.
  rewrite process_landmarks_map. split; [reflexivity|]. split.
  - rewrite map_map. simpl. apply map_id.
  - apply length_map.
Qed.

(** X22.  The worker finalizes the frames of its queue one by one, each with
    the landmarks that the predictor finds on the image with its channels
    reversed, and in the order of the queue.  It stops at the first ["EOF"],
    which it finalizes, or at the first item that flags an exception, which
    it puts on the output queue as it is before it finalizes ["EOF"]; what
    follows in the queue is not read.  When the queue holds frames only, the
    worker waits for the next item. *)
Theorem X22_align_stream {face : Type}
    (model : Align.image -> face -> list Align.point)
    (frames : list (Align.item face)) (rest : list (Align.message face)) :
  Forall (Align.frame face) frames ->
  Align.align face model (map (Align.Item face) frames ++ Align.EOF face :: rest)
  = (map (Align.finalized face model) frames ++ [Align.FinalizeEOF face],
     Align.Returned)
  /\ (forall failed, Align.get_exception face failed = true ->
        Align.align face model
          (map (Align.Item face) frames ++ Align.Item face failed :: rest)
        = (map (Align.finalized face model) frames
             ++ [Align.Put face failed; Align.FinalizeEOF face],
           Align.Returned))
  /\ Align.align face model (map (Align.Item face) frames)
     = (map (Align.finalized face model) frames, Align.Waiting).
Proof.
  intros Hf. split; [|split].
  - rewrite (align_frames model frames _ Hf). reflexivity.
  - intros failed He. rewrite (align_frames model frames _ Hf).
    cbn [Align.align]. rewrite He. reflexivity.
  - rewrite <- (app_nil_r (map (Align.Item face) frames)).
    rewrite (align_frames model frames _ Hf). cbn [Align.align fst snd].
    now rewrite app_nil_r.
Qed.

Lemma X22_align_stream_witness :
  let model := fun (_ : Align.image) (f : nat) => [Align.mk_point (Z.of_nat f) 7] in
  let shot := Align.mk_item nat None (Some [[[1; 2; 3]]]%Z) (Some [5%nat]) in
  Align.align nat model
    [Align.Item nat shot; Align.EOF nat; Align.Item nat shot]
  = ([Align.Finalize nat shot [(5%nat, [(5, 7)]%Z)]; Align.FinalizeEOF nat],
     Align.Returned).
Proof.
  intros model shot.
  refine (proj1 (X22_align_stream model [shot] [Align.Item nat shot] _)).
  repeat constructor; discriminate.
Defined.

(** X23.  Whatever the queue delivers, the worker finalizes ["EOF"] at most
    once.  When [align] returns, this was its last call and the only one of
    its kind; when it does not return, because the queue ran dry or a key
    was missing in an item, ["EOF"] was not finalized at all. *)
Theorem X23_align_finalizes_eof_last {face : Type}
    (model : Align.image -> face -> list Align.point)
    (queue : list (Align.message face)) :
  (snd (Align.align face model queue) = Align.Returned ->
   exists events,
     fst (Align.align face model queue) = events ++ [Align.FinalizeEOF face]
     /\ ~ In (Align.FinalizeEOF face) events)
  /\ (snd (Align.align face model queue) <> Align.Returned ->
      ~ In (Align.FinalizeEOF face) (fst (Align.align face model queue))).
Proof.
  induction queue as [|[|i] queue [IH1 IH2]].
  - split; [discriminate | intros _ []].
  - split; [|intros H; now elim H].
    intros _. exists []. split; [reflexivity | intros []].
  - cbn [Align.align].
    destruct (Align.get_exception face i).
    { split; [|intros H; now elim H].
      intros _. exists [Align.Put face i]. split; [reflexivity|].
      intros [H|[]]. discriminate H. }
    destruct (Align.image_ face i) as [array|];
      [|split; [discriminate | intros _ []]].
    destruct (Align.detected_faces face i) as [faces|];
      [|split; [discriminate | intros _ []]].
    destruct (Align.align face model queue) as [events end_].
    cbn [fst snd] in *. split.
    + intros H. destruct (IH1 H) as [pre [-> Hpre]].
      exists (Align.Finalize face i
                (Align.process_landmarks face model
                   (Align.reverse_channels array) faces) :: pre).
      split; [reflexivity|].
      intros [Hin|Hin]; [discriminate Hin | now apply Hpre].
    + intros H [Hin|Hin]; [discriminate Hin | now apply (IH2 H)].
Qed.

(** ** Three channels and no mask *)

Lemma map_fixed {A} (f : A -> A) (P : A -> Prop) (l : list A) :
  (forall x, P x -> f x = x) -> Forall P l -> map f l = l.
Proof.
  intros H. induction 1 as [|x l Hx _ IH]; [reflexivity|].
  simpl. now rewrite H, IH.
Qed.

Lemma first_three_channels_id (n h w : nat) (y : K.T4) :
  shape4 n h w 3 y -> map (map (map (firstn 3))) y = y.
Proof.
  intros [_ Hy]. apply (map_fixed _ (shape3 h w 3)); [|exact Hy].
  intros im [_ Him]. apply (map_fixed _ (shape2 w 3)); [|exact Him].
  intros row [_ Hrow]. apply (map_fixed _ (shape1 3)); [|exact Hrow].
  intros p Hp. apply firstn_all2. unfold shape1 in Hp. lia.
Qed.

Lemma arguments_rgb func (n h w : nat) (y_true y_pred : K.T4) :
  shape4 n h w 3 y_true -> shape4 n h w 3 y_pred ->
  (0 < n)%nat -> (0 < h)%nat -> (0 < w)%nat ->
  LossWrapper.arguments func y_true y_pred (-1) = Py.Ok (y_true, y_pred).
Proof.
  intros Ht Hp Hn Hh Hw. unfold LossWrapper.arguments.
  rewrite apply_mask_unmasked.
  rewrite (first_three_channels_id n h w y_true Ht),
          (first_three_channels_id n h w y_pred Hp).
  cbn [Py.bind].
  destruct (LossWrapper.isinstance_DSSIMObjective func); [|reflexivity].
  rewrite (int_shape_of n h w 3 y_pred Hp Hn Hh Hw).
  rewrite (reshape_same_shape n h w 3 y_pred Hp). reflexivity.
Qed.

(** X24.  On batches of three channels a registration without mask hands
    the two tensors to its loss as they are, also after the reshape that the
    SSIM family receives.  So a wrapper with one such registration returns
    the loss of the two tensors averaged over all axes but the first, times
    the weight. *)
Theorem X24_single_loss_on_rgb (func : LossWrapper.loss_function) (weight : R)
    (n h w : nat) (y_true y_pred : K.T4)
    (func' : LossWrapper.loss_function) (this_loss : LossWrapper.tensor) :
  shape4 n h w 3 y_true -> shape4 n h w 3 y_pred ->
  (0 < n)%nat -> (0 < h)%nat -> (0 < w)%nat ->
  LossWrapper.call func y_true y_pred = (func', Py.Ok this_loss) ->
  LossWrapper.arguments func y_true y_pred (-1) = Py.Ok (y_true, y_pred)
  /\ LossWrapper.__call__
       (LossWrapper.add_loss LossWrapper.__init__ func weight (-1)) y_true y_pred
     = (LossWrapper.add_loss LossWrapper.__init__ func' weight (-1),
        Py.Ok (LossWrapper.iadd (LossWrapper.PyFloat 0)
                 (LossWrapper.scale (LossWrapper.mean_trailing this_loss)
                    weight))).
Proof.
  intros Ht Hp Hn Hh Hw Hcall.
  pose proof (arguments_rgb func n h w y_true y_pred Ht Hp Hn Hh Hw) as Ha.
  split; [exact Ha|].
  unfold LossWrapper.__call__, LossWrapper.add_loss, LossWrapper.__init__.
  cbn [LossWrapper._loss_functions LossWrapper._loss_weights
       LossWrapper._mask_channels app LossWrapper.run].
  rewrite Ha, Hcall. reflexivity.
Qed.

Lemma X24_single_loss_on_rgb_witness :
  let dssim := LossWrapper.DSSIM example_dssim in
  LossWrapper.__call__
    (LossWrapper.add_loss LossWrapper.__init__ dssim 3 (-1))
    example_rgb_true example_rgb_pred
  = (LossWrapper.add_loss LossWrapper.__init__ dssim 3 (-1),
     Py.Ok (LossWrapper.Tensor
              (LossWrapper.Rank0
                 (0 + DSSIMObjective.__call__ example_dssim
                        example_rgb_true example_rgb_pred * 3)))).
Proof.
  intros dssim.
  refine (proj2 (X24_single_loss_on_rgb dssim 3 1 2 2
                   example_rgb_true example_rgb_pred dssim
                   (LossWrapper.Rank0
                      (DSSIMObjective.__call__ example_dssim
                         example_rgb_true example_rgb_pred))
                   _ _ _ _ _ _)).
  - repeat constructor.
  - repeat constructor.
  - lia.
  - lia.
  - lia.
  - reflexivity.
Defined.
